(** * codesearch: the command-line drivers and the mmap shim

    A shallow embedding of the parts of the repository that live under
    [src/]: the two variants of [mmapFile] and of [unmmapFile] (unix and
    windows), the searcher [csearch] ([Main]/[main]) and the two variants of
    the builder [cindex] ([main], and the callback of [walk]).  Code of the
    [index] and [regexp] packages that the
    drivers call but that is not part of these files is taken as an
    interface (a record of operations) or, where a statement needs to
    compute with it, modelled from the specification and marked as such. *)

From Stdlib Require Import ZArith Lia Ascii.
From stdpp Require Import base option list sorting strings gmap.

(** ** Outcomes of a Go function that may abort the process

    [log.Fatal]/[log.Fatalf] print and call [os.Exit(1)]; a failed bounds
    check raises a run-time panic; [os.Exit(n)] leaves with status [n]. *)

Inductive outcome (A : Type) : Type :=
  | Returned (a : A)
  | Fatal (msg : string)
  | Panic (msg : string)
  | Exit (code : Z).
Arguments Returned {A} a.
Arguments Fatal {A} msg.
Arguments Panic {A} msg.
Arguments Exit {A} code.

Definition is_returned {A} (o : outcome A) : bool :=
  match o with Returned _ => true | _ => false end.

(** An outcome that is not a return, at another type. *)
Definition recast {A B} (o : outcome A) : outcome B :=
  match o with
  | Returned _ => Fatal ""
  | Fatal s => Fatal s
  | Panic s => Panic s
  | Exit c => Exit c
  end.

(** The status the operating system sees. *)
Definition exit_status {A} (o : outcome A) (on_return : A → Z) : Z :=
  match o with
  | Returned a => on_return a
  | Fatal _ => 1
  | Panic _ => 2
  | Exit c => c
  end.

(** ** Machine integers *)

Module GoInt.
Local Open Scope Z_scope.

(** A [w]-bit two's complement conversion: the value of [x] after it is
    truncated to [w] bits and read back as a signed number. *)
Definition wrap (w x : Z) : Z := (x + 2 ^ (w - 1)) mod 2 ^ w - 2 ^ (w - 1).

Definition int64 (x : Z) : Z := wrap 64 x.

Definition in_range (w x : Z) : Prop := - 2 ^ (w - 1) ≤ x < 2 ^ (w - 1).
End GoInt.

(** ** [mmapFile] *)

Module Mmap.
Import GoInt.
Local Open Scope Z_scope.

(** A Go slice header.  The nil slice has a nil pointer and no length. *)
Record slice : Type := Slice { ptr : Z; len : Z; cap : Z }.
Definition nil : slice := Slice 0 0 0.

(** What [mmapFile] reads off an [*os.File]: its name, its descriptor and
    the answer of [Stat] (the size, or nothing when [Stat] fails). *)
Record File : Type := { Name : string; Fd : Z; Stat : option Z }.

Record mmapData : Type := MmapData { f : File; d : slice; h : Z }.

(** The calls into package [syscall], in the order they are made. *)
Inductive syscall : Type :=
  | SysMmap (fd offset length : Z)
  | SysCreateFileMapping (fd size_hi size_lo : Z)
  | SysMapViewOfFile (handle : Z).

(** The operating system: each mapping call answers with an address (or a
    handle), or fails. *)
Record Kernel : Type := {
  k_mmap : Z → Z → option Z;
  k_CreateFileMapping : Z → Z → Z → option Z;
  k_MapViewOfFile : Z → option Z
}.

(** [s[:n]]: a run-time panic unless [0 <= n <= cap(s)]. *)
Definition slice_to (s : slice) (n : Z) : outcome slice :=
  if (0 <=? n) && (n <=? cap s) then Returned (Slice (ptr s) n (cap s))
  else Panic "slice bounds out of range".

Section Platform.
(** The width of the platform [int]: 32 or 64. *)
Variable intBits : Z.
Variable K : Kernel.

Definition int (x : Z) : Z := wrap intBits x.
Definition uint32 (x : Z) : Z := x mod 2 ^ 32.

(** [int64(int(size+4095)) != size+4095] *)
Definition too_large (size : Z) : bool :=
  negb (int64 (int (int64 (size + 4095))) =? int64 (size + 4095)).

(** [syscall.Mmap]: the wrapper refuses a length that is not positive and
    otherwise hands out a slice of exactly [length] bytes. *)
Definition syscall_Mmap (fd offset length : Z) : option slice :=
  if length <=? 0 then None
  else addr ← k_mmap K fd length; Some (Slice addr length length).

Definition mmapFile_unix (f : File) : outcome mmapData * list syscall :=
  match Stat f with
  | None => (Fatal "stat", [])
  | Some size =>
    if too_large size then (Fatal (Name f +:+ ": too large for mmap"), [])
    else
      let n := int size in
      if n =? 0 then (Returned (MmapData f nil 0), [])
      else
        let length := Z.ldiff (int (n + 4095)) 4095 in
        let call := SysMmap (int (Fd f)) 0 length in
        match syscall_Mmap (int (Fd f)) 0 length with
        | None => (Fatal ("mmap " +:+ Name f), [call])
        | Some data =>
          match slice_to data n with
          | Returned s => (Returned (MmapData f s 0), [call])
          | Fatal m => (Fatal m, [call])
          | Panic m => (Panic m, [call])
          | Exit c => (Exit c, [call])
          end
        end
  end.

(** The conversion of [addr] to a pointer to an array of [1 << 30] bytes:
    slicing it gives a slice of that capacity. *)
Definition array_1_30 (addr : Z) : slice := Slice addr (2 ^ 30) (2 ^ 30).

Definition mmapFile_windows (f : File) : outcome mmapData * list syscall :=
  match Stat f with
  | None => (Fatal "stat", [])
  | Some size =>
    if too_large size then (Fatal (Name f +:+ ": too large for mmap"), [])
    else if size =? 0 then (Returned (MmapData f nil 0), [])
    else
      let c1 := SysCreateFileMapping (Fd f) (uint32 (Z.shiftr size 32)) (uint32 size) in
      match k_CreateFileMapping K (Fd f) (uint32 (Z.shiftr size 32)) (uint32 size) with
      | None => (Fatal ("CreateFileMapping " +:+ Name f), [c1])
      | Some hnd =>
        let c2 := SysMapViewOfFile hnd in
        match k_MapViewOfFile K hnd with
        | None => (Fatal ("MapViewOfFile " +:+ Name f), [c1; c2])
        | Some addr =>
          match slice_to (array_1_30 addr) size with
          | Returned s => (Returned (MmapData f s hnd), [c1; c2])
          | Fatal m => (Fatal m, [c1; c2])
          | Panic m => (Panic m, [c1; c2])
          | Exit c => (Exit c, [c1; c2])
          end
        end
      end
  end.
End Platform.

End Mmap.

(** ** Process environment *)

Abbreviation environ := (gmap string string).

(** Whether a string holds a NUL byte. *)
Fixpoint has_nul (s : string) : bool :=
  match s with
  | EmptyString => false
  | String a s' => if Ascii.eqb a Ascii.zero then true else has_nul s'
  end.

(** [os.Setenv]: an error when the value holds a NUL byte (the key is a
    constant of the program here), else the variable is set. *)
Definition Setenv (env : environ) (key value : string) : option environ :=
  if has_nul value then None else Some (<[key := value]> env).

(** Modelled from the spec: [index.File] of package [index], which is not
    among the source files.  The index is the file named by the environment
    variable CSEARCHINDEX or, if that variable is unset or empty,
    [$HOME/.csearchindex]. *)
Definition index_File (env : environ) : string :=
  match env !! "CSEARCHINDEX" with
  | Some p => if decide (p = "") then default "" (env !! "HOME") +:+ "/.csearchindex" else p
  | None => default "" (env !! "HOME") +:+ "/.csearchindex"
  end.

(** ** The searcher, [csearch] *)

Module Csearch.
Local Open Scope Z_scope.

(** File ids are [uint32] values. *)
Abbreviation fileid := N.

(** Modelled from the spec: the query type of package [index] ([index.Query]
    with its operator [Op]); the driver builds [&index.Query{Op: index.QAll}],
    whose other fields are empty. *)
Inductive QueryOp : Type := QAll | QNone | QAnd | QOr.
#[local] Unset Elimination Schemes.
Inductive Query : Type :=
  MkQuery (Op : QueryOp) (Trigram : list string) (Sub : list Query).
#[local] Set Elimination Schemes.

Definition Query_QAll : Query := MkQuery QAll [] [].

(** The flags of the searcher. *)
Record Flags : Type := {
  fFlag : string;
  iFlag : bool;
  verboseFlag : bool;
  bruteFlag : bool;
  cpuProfile : string;
  indexPath : string;
  maxCount : Z
}.

(** The packages [regexp] and [index] and the operating system, as far as
    [Main] calls them.  A [Compile] or [Open] that fails answers [None];
    [grep_File] is [g.File(name)] as a transformer of the driver's state;
    [grep_init] is the driver after [AddFlags] and [flag.Parse]. *)
Class Collaborators : Type := {
  Regexp : Type;
  Syntax : Type;
  Index : Type;
  Grep : Type;
  regexp_Compile : string → option Regexp;
  re_Syntax : Regexp → Syntax;
  re_MatchString : Regexp → string → bool → bool → Z;
  index_RegexpQuery : Syntax → Query;
  index_Open : string → option Index;
  ix_set_Verbose : Index → bool → Index;
  ix_PostingQuery : Index → Query → list fileid;
  ix_Name : Index → fileid → string;
  grep_init : Grep;
  grep_set_Regexp : Grep → Regexp → Grep;
  grep_Limit : Grep → Z → Grep;
  grep_File : Grep → string → Grep;
  grep_Done : Grep → bool;
  grep_Match : Grep → bool;
  os_Create : string → bool
}.

Section Main.
Context `{C : Collaborators}.

(** Lines [pat := "(?m)" + args[0]; if *iFlag { pat = "(?i)" + pat }]. *)
Definition pattern (flags : Flags) (arg : string) : string :=
  let pat := "(?m)" +:+ arg in
  if iFlag flags then "(?i)" +:+ pat else pat.

(** The query handed to [ix.PostingQuery]. *)
Definition evaluated_query (flags : Flags) (q : Query) : Query :=
  if bruteFlag flags then Query_QAll else q.

(** The block [if fre != nil { ... post = fnames }]: the loop appends the
    fileids whose name gives [MatchString(name, true, true) >= 0]. *)
Fixpoint filter_loop (ix : Index) (fre : Regexp) (post fnames : list fileid)
  : list fileid :=
  match post with
  | [] => fnames
  | fileid :: rest =>
    let name := ix_Name ix fileid in
    if re_MatchString fre name true true <? 0
    then filter_loop ix fre rest fnames
    else filter_loop ix fre rest (fnames ++ [fileid])
  end.

Definition filter_names (ix : Index) (fre : option Regexp) (post : list fileid)
  : list fileid :=
  match fre with
  | Some re => filter_loop ix re post []
  | None => post
  end.

(** The candidate loop: [g.File(name)], then [if g.Done { break }].  The
    second component lists the names handed to [g.File], in order. *)
Fixpoint grep_loop (ix : Index) (g : Grep) (post : list fileid)
  : Grep * list string :=
  match post with
  | [] => (g, [])
  | fileid :: rest =>
    let name := ix_Name ix fileid in
    let g' := grep_File g name in
    if grep_Done g' then (g', [name])
    else let '(g'', names) := grep_loop ix g' rest in (g'', name :: names)
  end.

(** The driver state before the candidate loop. *)
Definition armed (flags : Flags) (re : Regexp) : Grep :=
  grep_Limit (grep_set_Regexp grep_init re) (maxCount flags).

(** The driver state after [g.File] has been called on each name in turn. *)
Definition after_files (g : Grep) (names : list string) : Grep :=
  foldl grep_File g names.

(** What a run of [Main] that returns has computed on its way. *)
Record Run : Type := {
  run_env : environ;
  run_pat : string;
  run_re : Regexp;
  run_fre : option Regexp;
  run_ix : Index;
  run_query : Query;
  run_post : list fileid;
  run_filtered : list fileid;
  run_files : list string;
  run_g : Grep
}.

Definition Main (env : environ) (flags : Flags) (args : list string)
  : outcome Run :=
  match args with
  | [arg] =>
    if negb (String.eqb (cpuProfile flags) "") && negb (os_Create (cpuProfile flags))
    then Fatal "create cpuprofile"
    else
    match (if String.eqb (indexPath flags) "" then Some env
           else Setenv env "CSEARCHINDEX" (indexPath flags)) with
    | None => Fatal "setenv"
    | Some env' =>
      let pat := pattern flags arg in
      match regexp_Compile pat with
      | None => Fatal "regexp"
      | Some re =>
        let g := grep_set_Regexp grep_init re in
        match (if String.eqb (fFlag flags) "" then Some None
               else Some <$> regexp_Compile (fFlag flags)) with
        | None => Fatal "regexp"
        | Some fre =>
          let q := index_RegexpQuery (re_Syntax re) in
          match index_Open (index_File env') with
          | None => Fatal "open index"
          | Some ix0 =>
            let ix := ix_set_Verbose ix0 (verboseFlag flags) in
            let query := evaluated_query flags q in
            let post := ix_PostingQuery ix query in
            let post' := filter_names ix fre post in
            let g1 := grep_Limit g (maxCount flags) in
            let '(g2, files) := grep_loop ix g1 post' in
            Returned {| run_env := env'; run_pat := pat; run_re := re;
                        run_fre := fre; run_ix := ix; run_query := query;
                        run_post := post; run_filtered := post';
                        run_files := files; run_g := g2 |}
          end
        end
      end
    end
  | _ => Exit 2
  end.

(** [main]: [Main()], then [os.Exit(1)] unless [matches], else
    [os.Exit(0)]; [matches] is [g.Match] at the end of [Main]. *)
Definition matches (r : Run) : bool := grep_Match (run_g r).

Definition main (env : environ) (flags : Flags) (args : list string) : Z :=
  exit_status (Main env flags args) (λ r, if matches r then 0 else 1).
End Main.

(** Modelled from the spec: the index reader and the posting evaluator of
    package [index], which are not among the source files.  An index holds
    the file names, addressed by fileid, and a posting list per trigram;
    [ALL] evaluates to [{0 .. num_names-1}], [NONE] to nothing, [AND] to the
    intersection and [OR] to the union of the trigram postings and of the
    results of the sub-queries. *)
Record SpecIndex : Type := {
  names : list string;
  posting : string → list fileid
}.

Definition all_fileids (ix : SpecIndex) : list fileid :=
  N.of_nat <$> seq 0 (length (names ix)).

Definition inter (a b : list fileid) : list fileid :=
  filter (λ x, x ∈ b) a.
Definition union (a b : list fileid) : list fileid :=
  a ++ filter (λ x, x ∉ a) b.

Fixpoint spec_PostingQuery (ix : SpecIndex) (q : Query) : list fileid :=
  match q with
  | MkQuery QAll _ _ => all_fileids ix
  | MkQuery QNone _ _ => []
  | MkQuery QAnd ts subs =>
    foldr inter (foldr inter (all_fileids ix) (posting ix <$> ts))
          (spec_PostingQuery ix <$> subs)
  | MkQuery QOr ts subs =>
    foldr union (foldr union [] (posting ix <$> ts))
          (spec_PostingQuery ix <$> subs)
  end.

Definition spec_Name (ix : SpecIndex) (id : fileid) : string :=
  default "" (names ix !! N.to_nat id).

(** Any collaborators, with the index package replaced by the model above;
    [open] says which index a path holds. *)
Definition on_spec_index (C : Collaborators) (open : string → option SpecIndex)
  : Collaborators := {|
  Regexp := @Regexp C;
  Syntax := @Syntax C;
  Index := SpecIndex;
  Grep := @Grep C;
  regexp_Compile := @regexp_Compile C;
  re_Syntax := @re_Syntax C;
  re_MatchString := @re_MatchString C;
  index_RegexpQuery := @index_RegexpQuery C;
  index_Open := open;
  ix_set_Verbose := λ ix _, ix;
  ix_PostingQuery := spec_PostingQuery;
  ix_Name := spec_Name;
  grep_init := @grep_init C;
  grep_set_Regexp := @grep_set_Regexp C;
  grep_Limit := @grep_Limit C;
  grep_File := @grep_File C;
  grep_Done := @grep_Done C;
  grep_Match := @grep_Match C;
  os_Create := @os_Create C
|}.
End Csearch.

(** ** The builder, [cindex] *)

Module Cindex.
Local Open Scope Z_scope.

(** What a path of the file system names. *)
Inductive node (Data : Type) : Type :=
  | Regular (d : Data)
  | Dir (empty : bool)
  | Special.
Arguments Regular {Data} d.
Arguments Dir {Data} empty.
Arguments Special {Data}.

(** The flags of the builder (newer variant; the older variant has
    [follow-symlinks] in place of [no-follow-symlinks] and neither
    [indexpath] nor [exclude]). *)
Record Flags : Type := {
  listFlag : bool;
  resetFlag : bool;
  verboseFlag : bool;
  cpuProfile : string;
  indexPath : string;
  logSkipFlag : bool;
  noFollowSymlinksFlag : bool;
  exclude : string
}.

(** Failures of the operating system that the build may meet. *)
Record Faults : Type := { merge_fault : bool; rename_fault : bool }.

(** The calls made on the index writer. *)
Inductive call : Type :=
  | CallAddPaths (paths : list string)
  | CallAddFile (path : string)
  | CallFlush.
#[export] Instance call_eq_dec : EqDecision call.
Proof. solve_decision. Defined.

(** What arrives at the consumer goroutine: a path on [walkChan] or the
    signal on [doneChan]. *)
Inductive msg : Type := WalkPath (path : string) | DoneSignal.

(** Package [index], the walker and the Go library, as far as [main] calls
    them.  [Data] is what a regular file holds; [ix_Paths d] is
    [index.Open(...).Paths()] on a file holding [d], [None] when [d] is no
    index; [flushed] is what [Flush] leaves in the writer's file, [merged]
    what [index.Merge] writes from its two sources, [partial] what a merge
    that fails leaves behind.  [Walk fs patterns flags root] lists the paths
    that [walk(root, "", walkChan, logskip)] sends on the channel: [walk] is
    a callback handed to [filepath.Walk], and what it sends is decided by
    that traversal of the file tree, which is taken as given. *)
Class Collaborators : Type := {
  Data : Type;
  created : Data;
  profile : Data;
  partial : Data;
  text : Data → string;
  ix_Paths : Data → option (list string);
  flushed : list string → list string → gmap string (node Data) → Data;
  merged : Data → Data → option Data;
  Abs : string → option string;
  TrimSpace : string → string;
  HomeDir : option string;
  Join : string → string → string;
  Walk : gmap string (node Data) → list string → Flags → string → list string
}.

Abbreviation filesystem := (gmap string (node Data)).

(** The paths that arrive before the done signal. *)
Fixpoint delivered (msgs : list msg) : list string :=
  match msgs with
  | WalkPath path :: rest => path :: delivered rest
  | _ => []
  end.

(** [sort.Strings]: ascending in the byte-wise order of strings. *)
Definition string_le (a b : string) : Prop := String.leb a b = true.
#[local] Instance string_le_dec a b : Decision (string_le a b).
Proof. unfold string_le. apply _. Defined.
Definition sort_Strings (l : list string) : list string := merge_sort string_le l.

(** [for len(args) > 0 && args[0] == "" { args = args[1:] }] *)
Fixpoint drop_empty (args : list string) : list string :=
  match args with
  | a :: rest => if String.eqb a "" then drop_empty rest else args
  | [] => []
  end.

(** [strings.Split(s, "\n")] *)
Fixpoint split_lines (s cur : string) : list string :=
  match s with
  | EmptyString => [cur]
  | String a s' =>
    if Ascii.eqb a "010"%char then cur :: split_lines s' ""
    else split_lines s' (cur +:+ String a "")
  end.

Section Build.
Context `{C : Collaborators}.

(** The state [main] acts on: the environment, the file system with the
    states it has gone through (latest first), standard output, the log
    lines of [main] for its phases ([index], [flush index], [merge],
    [done]) and for the arguments it cannot make absolute, and the calls on
    the index writer (all three in order). *)
Record World : Type := {
  w_env : environ;
  w_fs : filesystem;
  w_hist : list filesystem;
  w_out : list string;
  w_log : list string;
  w_calls : list call
}.

Definition M (A : Type) : Type := World → outcome A * World.

#[export] Instance M_ret : MRet M := λ A a w, (Returned a, w).
#[export] Instance M_bind : MBind M := λ A B k m w,
  match m w with
  | (Returned a, w') => k a w'
  | (Fatal s, w') => (Fatal s, w')
  | (Panic s, w') => (Panic s, w')
  | (Exit c, w') => (Exit c, w')
  end.
Definition ret {A} (a : A) : M A := mret a.
Definition fatal {A} (s : string) : M A := λ w, (Fatal s, w).
Definition panic {A} (s : string) : M A := λ w, (Panic s, w).

Definition get_env : M environ := λ w, (Returned (w_env w), w).
Definition get_fs : M filesystem := λ w, (Returned (w_fs w), w).
Definition set_env (e : environ) : M unit := λ w,
  (Returned tt, {| w_env := e; w_fs := w_fs w; w_hist := w_hist w;
                   w_out := w_out w; w_log := w_log w; w_calls := w_calls w |}).
(** Every change of the file system is recorded in the history. *)
Definition set_fs (fs : filesystem) : M unit := λ w,
  (Returned tt, {| w_env := w_env w; w_fs := fs; w_hist := w_fs w :: w_hist w;
                   w_out := w_out w; w_log := w_log w; w_calls := w_calls w |}).
Definition print (s : string) : M unit := λ w,
  (Returned tt, {| w_env := w_env w; w_fs := w_fs w; w_hist := w_hist w;
                   w_out := w_out w ++ [s]; w_log := w_log w;
                   w_calls := w_calls w |}).
Definition log (s : string) : M unit := λ w,
  (Returned tt, {| w_env := w_env w; w_fs := w_fs w; w_hist := w_hist w;
                   w_out := w_out w; w_log := w_log w ++ [s];
                   w_calls := w_calls w |}).
Definition record (c : call) : M unit := λ w,
  (Returned tt, {| w_env := w_env w; w_fs := w_fs w; w_hist := w_hist w;
                   w_out := w_out w; w_log := w_log w;
                   w_calls := w_calls w ++ [c] |}).

(** All the states of the file system of a run, earliest first. *)
Definition states (w : World) : list filesystem := reverse (w_fs w :: w_hist w).

(** [os.Stat] *)
Definition os_Stat (path : string) : M (option (node Data)) :=
  fs ← get_fs; ret (fs !! path).

(** [os.Create]: a directory cannot be opened for writing; otherwise the
    file is created or truncated. *)
Definition os_Create (path : string) (d : Data) : M bool :=
  fs ← get_fs;
  match fs !! path with
  | Some (Dir _) => ret false
  | _ => set_fs (<[path := Regular d]> fs) ;; ret true
  end.

(** [os.Remove]: removes a file or an empty directory; the answer is
    whether it did. *)
Definition os_Remove (path : string) : M bool :=
  fs ← get_fs;
  match fs !! path with
  | None | Some (Dir false) => ret false
  | Some _ => set_fs (delete path fs) ;; ret true
  end.

(** [os.Rename]: fails when the system says so, when the source is
    missing or when a directory is in the way; otherwise the source
    takes the place of the destination. *)
Definition os_Rename (fault : bool) (old new : string) : M bool :=
  fs ← get_fs;
  if fault then ret false else
  match fs !! old, fs !! new with
  | None, _ => ret false
  | Some _, Some (Dir _) => ret false
  | Some n, _ => set_fs (<[new := n]> (delete old fs)) ;; ret true
  end.

(** [index.File()] *)
Definition File : M string := env ← get_env; ret (index_File env).

(** [index.Open(file).Paths()]: fatal unless the file holds an index. *)
Definition Open_Paths (file : string) : M (list string) :=
  st ← os_Stat file;
  match st with
  | Some (Regular d) =>
    match ix_Paths d with
    | Some ps => ret ps
    | None => fatal ("corrupt index " +:+ file)
    end
  | _ => fatal ("open " +:+ file)
  end.

(** The index writer: its file, its root paths and the files added. *)
Record IndexWriter : Type := {
  iw_file : string;
  iw_paths : list string;
  iw_added : list string
}.

(** [index.Create(file)] *)
Definition Create (file : string) : M IndexWriter :=
  ok ← os_Create file created;
  if ok : bool then ret {| iw_file := file; iw_paths := []; iw_added := [] |}
  else fatal ("create " +:+ file).

Definition AddPaths (ix : IndexWriter) (paths : list string) : IndexWriter :=
  {| iw_file := iw_file ix; iw_paths := iw_paths ix ++ paths;
     iw_added := iw_added ix |}.

Definition AddFile (ix : IndexWriter) (path : string) : IndexWriter :=
  {| iw_file := iw_file ix; iw_paths := iw_paths ix;
     iw_added := iw_added ix ++ [path] |}.

(** [ix.Flush()] *)
Definition Flush (ix : IndexWriter) : M unit :=
  record CallFlush ;;
  fs ← get_fs;
  set_fs (<[iw_file ix := Regular (flushed (iw_paths ix) (iw_added ix) fs)]> fs).

(** [index.Merge(dst, src1, src2)]: reads the two sources and writes
    [dst]; fatal when a source is no index or when writing fails. *)
Definition Merge (fault : bool) (dst src1 src2 : string) : M unit :=
  fs ← get_fs;
  match fs !! src1, fs !! src2 with
  | Some (Regular d1), Some (Regular d2) =>
    match merged d1 d2 with
    | Some d =>
      if fault then set_fs (<[dst := Regular partial]> fs) ;; fatal "merge"
      else set_fs (<[dst := Regular d]> fs)
    | None => fatal "merge: corrupt index"
    end
  | _, _ => fatal "merge: open"
  end.

(** The consumer goroutine:
    [seen := make(map[string]bool)], then for each message either
    [if !seen[path] { seen[path] = true; ix.AddFile(path) }] or, on the
    done signal, [return]. *)
Fixpoint consumer (msgs : list msg) (seen : gmap string bool) (ix : IndexWriter)
  : IndexWriter :=
  match msgs with
  | [] => ix
  | WalkPath path :: rest =>
    if negb (default false (seen !! path))
    then consumer rest (<[path := true]> seen) (AddFile ix path)
    else consumer rest seen ix
  | DoneSignal :: _ => ix
  end.

(** The translation of the arguments to absolute paths, [sort.Strings]
    and the removal of the leading empty strings. *)
Definition abs_args (args : list string) : list string :=
  (λ arg, default "" (Abs arg)) <$> args.
Definition normalise (args : list string) : list string :=
  drop_empty (sort_Strings (abs_args args)).
(** The log line for each argument that [filepath.Abs] refuses. *)
Definition log_abs_errors (args : list string) : M unit :=
  foldr (λ arg k, if Abs arg is None then log (arg +:+ ": error") ;; k else k)
        (ret tt) args.

(** [if len(args) == 0 { ix := index.Open(index.File()); for ... append }] *)
Definition populate (args : list string) : M (list string) :=
  if (length args =? 0)%nat then
    master ← File; ps ← Open_Paths master; ret (foldl (λ a p, a ++ [p]) args ps)
  else ret args.

(** The profile file, when one is asked for. *)
Definition start_profile (path : string) : M unit :=
  if String.eqb path "" then ret tt
  else ok ← os_Create path profile;
       if ok : bool then ret tt else fatal ("create " +:+ path).

(** The messages the main goroutine sends: the walk of each root in
    turn, then the done signal. *)
Definition messages (fs : filesystem) (patterns : list string) (flags : Flags)
    (args : list string) : list msg :=
  (WalkPath <$> concat ((Walk fs patterns flags) <$> args)) ++ [DoneSignal].

(** Creation of the writer, the walk with its consumer, and the flush. *)
Definition build (file : string) (patterns : list string) (flags : Flags)
    (args : list string) : M unit :=
  ix ← Create file;
  record (CallAddPaths args) ;;
  let ix := AddPaths ix args in
  fs ← get_fs;
  foldr (λ arg k, log ("index " +:+ arg) ;; k) (ret tt) args ;;
  let ix' := consumer (messages fs patterns flags args) ∅ ix in
  foldr (λ p k, record (CallAddFile p) ;; k) (ret tt) (iw_added ix') ;;
  log "flush index" ;;
  Flush ix'.

(** The end of a build that merges (newer variant):
    [os.Remove(master)], then [os.Rename(file+"~", master)], fatal when
    the rename fails. *)
Definition replace_master (faults : Faults) (file master : string) : M unit :=
  os_Remove master ;;
  ok ← os_Rename (rename_fault faults) (file +:+ "~") master;
  if ok : bool then ret tt else fatal "failed to merge indexes".

(** The exclude patterns: [.csearchindex], then the lines of the file
    named by [-exclude] (a leading [~/] stands for the home directory),
    all of them trimmed. *)
Definition load_exclude (flags : Flags) : M (list string) :=
  let excludePatterns := [".csearchindex"] in
  if String.eqb (exclude flags) "" then ret excludePatterns
  else
    if (String.length (exclude flags) <? 2)%nat
    then panic "slice bounds out of range"
    else
      excludePath ←
        (if String.eqb (String.substring 0 2 (exclude flags)) "~/" then
           match HomeDir with
           | None => fatal "user: Current"
           | Some home =>
             ret (Join home (String.substring 2 (String.length (exclude flags) - 2)%nat
                                       (exclude flags)))
           end
         else ret (exclude flags));
      st ← os_Stat excludePath;
      match st with
      | Some (Regular data) =>
        ret (TrimSpace <$> (excludePatterns ++ split_lines (text data) ""))
      | _ => fatal ("open " +:+ excludePath)
      end.

(** [if *indexPath != "" { os.Setenv("CSEARCHINDEX", *indexPath) ... }] *)
Definition apply_indexPath (flags : Flags) : M unit :=
  if String.eqb (indexPath flags) "" then ret tt
  else env ← get_env;
       match Setenv env "CSEARCHINDEX" (indexPath flags) with
       | None => fatal "setenv"
       | Some env' => set_env env'
       end.

(** [main] of the builder (newer variant). *)
Definition main (faults : Faults) (flags : Flags) (args : list string) : M unit :=
  apply_indexPath flags ;;
  if listFlag flags then
    master ← File;
    st ← os_Stat master;
    match st with
    | None => fatal ("Index " +:+ master +:+ " is not accessible")
    | Some (Regular _) =>
      ps ← Open_Paths master;
      foldr (λ arg k, print arg ;; k) (ret tt) ps
    | Some _ => fatal ("Index " +:+ master +:+ " must point to an index file")
    end
  else
    start_profile (cpuProfile flags) ;;
    if resetFlag flags && (length args =? 0)%nat then
      master ← File;
      st ← os_Stat master;
      match st with
      | None => ret tt
      | Some (Regular _) => os_Remove master ;; ret tt
      | Some _ => fatal ("Invalid index path " +:+ master)
      end
    else
      patterns ← load_exclude flags;
      args ← populate args;
      log_abs_errors args ;;
      let args := normalise args in
      master ← File;
      st ← os_Stat master;
      reset ← match st with
              | None => ret true
              | Some (Regular _) => ret (resetFlag flags)
              | Some _ => fatal ("Invalid index path " +:+ master)
              end;
      let file := if reset : bool then master else master +:+ "~" in
      build file patterns flags args ;;
      (if negb reset then
         log ("merge " +:+ master +:+ " " +:+ file) ;;
         Merge (merge_fault faults) (file +:+ "~") master file ;;
         os_Remove file ;;
         replace_master faults file master
       else ret tt) ;;
      log "done".

(** [main] of the builder (older variant): no [-indexpath] and no
    [-exclude]; the index path is not checked to be a regular file; the
    master is not removed before the rename, and the answer of the
    rename is not looked at. *)
Definition main_old (faults : Faults) (flags : Flags) (args : list string)
  : M unit :=
  if listFlag flags then
    master ← File;
    ps ← Open_Paths master;
    foldr (λ arg k, print arg ;; k) (ret tt) ps
  else
    start_profile (cpuProfile flags) ;;
    if resetFlag flags && (length args =? 0)%nat then
      master ← File;
      os_Remove master ;; ret tt
    else
      args ← populate args;
      log_abs_errors args ;;
      let args := normalise args in
      master ← File;
      st ← os_Stat master;
      let reset := match st with None => true | Some _ => resetFlag flags end in
      let file := if reset : bool then master else master +:+ "~" in
      build file [] flags args ;;
      (if negb reset then
         log ("merge " +:+ master +:+ " " +:+ file) ;;
         Merge (merge_fault faults) (file +:+ "~") master file ;;
         os_Remove file ;;
         os_Rename (rename_fault faults) (file +:+ "~") master ;;
         ret tt
       else ret tt) ;;
      log "done".

(** The environment after [-indexpath] has been applied. *)
Definition resolved_env (env : environ) (flags : Flags) : environ :=
  if String.eqb (indexPath flags) "" then env
  else <["CSEARCHINDEX" := indexPath flags]> env.

(** The property of a run that the master index is, in every state of
    the file system the run goes through other than the last state of a
    run that returns, the regular file holding [d0] that it was. *)
Definition intermediate (o : outcome unit) (w : World) : list filesystem :=
  if is_returned o then reverse (w_hist w) else states w.
Definition master_retained (master : string) (d0 : Data) (o : outcome unit)
    (w : World) : Prop :=
  Forall (λ fs : filesystem, fs !! master = Some (Regular d0)) (intermediate o w).

(** [holds master n w]: the path [master] names [n] in the present and in
    every past state of the file system.  [quiet master n m]: the action
    [m] keeps that so and leaves the environment alone.  [inert m]: the
    action [m] leaves the world as it is. *)
Definition holds (master : string) (n : node Data) (w : World) : Prop :=
  Forall (λ fs : filesystem, fs !! master = Some n) (w_fs w :: w_hist w).

Definition quiet {A} (master : string) (n : node Data) (m : M A) : Prop :=
  ∀ w o w', m w = (o, w') → holds master n w →
            holds master n w' ∧ w_env w' = w_env w.

Definition inert {A} (m : M A) : Prop := ∀ w o w', m w = (o, w') → w' = w.

(** [silent m]: the action [m] makes no call on the index writer.
    [shaped R calls]: no call was made, or the calls are one [AddPaths] on
    roots that satisfy [R], then [AddFile] on files that are all different,
    then [Flush].  [shapes R m]: the action [m], started before any call,
    leaves calls of that shape. *)
Definition silent {A} (m : M A) : Prop :=
  ∀ w o w', m w = (o, w') → w_calls w' = w_calls w.

Definition shaped (R : list string → Prop) (calls : list call) : Prop :=
  calls = []
  ∨ ∃ roots added, R roots ∧ NoDup added
      ∧ calls = CallAddPaths roots :: (CallAddFile <$> added) ++ [CallFlush].

Definition shapes {A} (R : list string → Prop) (m : M A) : Prop :=
  ∀ w o w', m w = (o, w') → w_calls w = [] → shaped R (w_calls w').

(** The world after a change of the file system. *)
Definition with_fs (w : World) (fs : filesystem) : World :=
  {| w_env := w_env w; w_fs := fs; w_hist := w_fs w :: w_hist w;
     w_out := w_out w; w_log := w_log w; w_calls := w_calls w |}.

(** The world a run starts in. *)
Definition initial (env : environ) (fs : filesystem) : World :=
  {| w_env := env; w_fs := fs; w_hist := []; w_out := []; w_log := [];
     w_calls := [] |}.
End Build.
End Cindex.

(** ** [unmmapFile] *)

Module Unmap.
Import Mmap.
Local Open Scope Z_scope.

(** What [unmmapFile] calls, in the order it does. *)
Inductive call : Type :=
  | CallMunmap (b : slice)
  | CallUnmapViewOfFile (addr : Z)
  | CallCloseHandle (handle : Z)
  | CallClose (fd : Z)
  | CallLogPrintln (msg : string).

(** The operating system's answers: whether a call succeeds. *)
Record Releaser : Type := {
  r_munmap : Z → Z → bool;
  r_UnmapViewOfFile : Z → bool;
  r_CloseHandle : Z → bool;
  r_Close : Z → bool
}.

(** [s[lo:hi]]: a run-time panic unless [0 <= lo <= hi <= cap(s)]. *)
Definition slice_range (s : slice) (lo hi : Z) : outcome slice :=
  if (0 <=? lo) && (lo <=? hi) && (hi <=? cap s)
  then Returned (Slice (ptr s + lo) (hi - lo) (cap s - lo))
  else Panic "slice bounds out of range".

(** [&s[0]]: a run-time panic on a slice without elements. *)
Definition addr_of_first (s : slice) : outcome Z :=
  if 0 <? len s then Returned (ptr s) else Panic "index out of range".

Section Release.
Variable R : Releaser.

(** [syscall.Munmap]: the wrapper refuses, with EINVAL, a slice that is
    empty or whose length is not its capacity; otherwise the system is
    asked. *)
Definition syscall_Munmap (b : slice) : bool :=
  if (len b =? 0) || negb (len b =? cap b) then false
  else r_munmap R (ptr b) (len b).

(** [unmmapFile] (unix):
    [len_equal_cap := mm.d[0:cap(mm.d)]; err := syscall.Munmap(len_equal_cap)],
    and an error is only printed. *)
Definition unmmapFile_unix (mm : mmapData) : outcome unit * list call :=
  match slice_range (d mm) 0 (cap (d mm)) with
  | Returned len_equal_cap =>
    if syscall_Munmap len_equal_cap
    then (Returned tt, [CallMunmap len_equal_cap])
    else (Returned tt, [CallMunmap len_equal_cap; CallLogPrintln "unmmapFile:"])
  | Fatal m => (Fatal m, [])
  | Panic m => (Panic m, [])
  | Exit c => (Exit c, [])
  end.

(** [unmmapFile] (windows): [UnmapViewOfFile] on the address of [mm.d[0]],
    [CloseHandle] on [mm.h], [mm.f.Close()]; each error is fatal. *)
Definition unmmapFile_windows (mm : mmapData) : outcome unit * list call :=
  match addr_of_first (d mm) with
  | Returned addr =>
    let c1 := CallUnmapViewOfFile addr in
    if negb (r_UnmapViewOfFile R addr) then (Fatal "UnmapViewOfFile", [c1])
    else
      let c2 := CallCloseHandle (h mm) in
      if negb (r_CloseHandle R (h mm)) then (Fatal "CloseHandle", [c1; c2])
      else
        let c3 := CallClose (Fd (f mm)) in
        if negb (r_Close R (Fd (f mm))) then (Fatal "Close", [c1; c2; c3])
        else (Returned tt, [c1; c2; c3])
  | Fatal m => (Fatal m, [])
  | Panic m => (Panic m, [])
  | Exit c => (Exit c, [])
  end.
End Release.

(** A system in which every release succeeds. *)
Definition obliging : Releaser :=
  {| r_munmap := λ _ _, true; r_UnmapViewOfFile := λ _, true;
     r_CloseHandle := λ _, true; r_Close := λ _, true |}.
End Unmap.

(** ** The walker's callback

    [walk(arg, symlinkFrom, out, logskip)] hands [filepath.Walk] a function
    that is called once for each path of the tree below [arg].  This is that
    function, for one call: what it logs, what it sends on [out], whether it
    starts a walk of the target of a symbolic link, and what it answers.  The
    traversal itself belongs to the Go library and is not part of it; the
    path separator is the [/] of unix. *)

Module Walker.
Local Open Scope Z_scope.

#[export] Instance outcome_bind : MBind outcome := λ A B k o,
  match o with
  | Returned a => k a
  | Fatal s => Fatal s
  | Panic s => Panic s
  | Exit c => Exit c
  end.

(** The bits of [os.FileMode] that the callback looks at, and the mask
    [os.ModeType] of the bits that say what kind of file it is. *)
Definition ModeDir : Z := 2 ^ 31.
Definition ModeSymlink : Z := 2 ^ 27.
Definition ModeDevice : Z := 2 ^ 26.
Definition ModeNamedPipe : Z := 2 ^ 25.
Definition ModeSocket : Z := 2 ^ 24.
Definition ModeType : Z :=
  Z.lor ModeDir (Z.lor ModeSymlink (Z.lor ModeNamedPipe (Z.lor ModeSocket ModeDevice))).

(** An [os.FileInfo], as far as the callback reads it. *)
Record FileInfo : Type := { Mode : Z }.
Definition IsDir (fi : FileInfo) : bool := negb (Z.land (Mode fi) ModeDir =? 0).

(** [info != nil && info.IsDir()] and
    [info != nil && info.Mode()&os.ModeSymlink != 0]. *)
Definition is_dir (info : option FileInfo) : bool :=
  match info with Some fi => IsDir fi | None => false end.
Definition is_symlink (info : option FileInfo) : bool :=
  match info with
  | Some fi => negb (Z.land (Mode fi) ModeSymlink =? 0)
  | None => false
  end.

(** What the callback answers to [filepath.Walk]. *)
Inductive walk_ret : Type := Nil | SkipDir.

(** What one call of the callback does: the lines it logs, the paths it
    sends on the channel, the walk it starts on the target of a symbolic
    link (the target and the name it is walked under), and its answer. *)
Record visit : Type := {
  logs : list string;
  sent : list string;
  recurse : option (string * string);
  ret : walk_ret
}.

(** [filepath.Split] where the separator is [/]: the path up to and
    including the last separator, and what follows it. *)
Fixpoint Split (path : string) : string * string :=
  match path with
  | EmptyString => ("", "")
  | String a rest =>
    let '(dir, file) := Split rest in
    if Ascii.eqb a "/" then (String a dir, file)
    else if String.eqb dir "" then ("", String a file)
    else (String a dir, file)
  end.

(** [s[0]] and [s[len(s)-1]], on a string that has them. *)
Definition first_byte (s : string) : option ascii :=
  match s with String a _ => Some a | EmptyString => None end.
Fixpoint last_byte (s : string) : option ascii :=
  match s with
  | EmptyString => None
  | String a EmptyString => Some a
  | String _ rest => last_byte rest
  end.
Definition starts_with (c : ascii) (s : string) : bool :=
  match first_byte s with Some a => Ascii.eqb a c | None => false end.
Definition ends_with (c : ascii) (s : string) : bool :=
  match last_byte s with Some a => Ascii.eqb a c | None => false end.

(** [s[n:]]: a run-time panic when [n] exceeds the length. *)
Definition slice_from (s : string) (n : nat) : outcome string :=
  if (n <=? String.length s)%nat
  then Returned (String.substring n (String.length s - n) s)
  else Panic "slice bounds out of range".

(** The name a path is logged and sent under: the path itself, or, in a
    walk started on a symbolic link, [symlinkFrom+path[len(arg):]]. *)
Definition shown (arg symlinkFrom path : string) : outcome string :=
  if String.eqb symlinkFrom "" then Returned path
  else rest ← slice_from path (String.length arg); Returned (symlinkFrom +:+ rest).

(** [if logskip { log.Printf("%s: skipped. ...", ...) }] *)
Definition skip_log (logskip : bool) (arg symlinkFrom path why : string)
  : outcome (list string) :=
  if logskip then name ← shown arg symlinkFrom path;
                  Returned [name +:+ ": skipped. " +:+ why]
  else Returned [].

Definition quietly (l : list string) (r : walk_ret) : visit :=
  {| logs := l; sent := []; recurse := None; ret := r |}.

(** The directory names the older variant does not descend into, and the
    file names it passes over. *)
Definition vcs_or_backup_dir (elem : string) : bool :=
  String.eqb elem ".git" || String.eqb elem ".hg" || String.eqb elem ".bzr"
  || String.eqb elem ".svn" || String.eqb elem ".svk" || String.eqb elem "SCCS"
  || String.eqb elem "CVS" || String.eqb elem "_darcs" || String.eqb elem "_MTN"
  || starts_with "#" elem || starts_with "~" elem || ends_with "~" elem.
Definition backup_or_undesirable_file (elem : string) : bool :=
  starts_with "#" elem || starts_with "~" elem || ends_with "~" elem
  || String.eqb elem "tags" || String.eqb elem ".DS_Store".

Section Callback.
(** [filepath.Match] (an error is [None]) and [filepath.EvalSymlinks]. *)
Variable Match : string → string → option bool.
Variable EvalSymlinks : string → option string.

(** The part on a symbolic link, the same in both variants; [follow] is
    [*followSymlinksFlag], respectively [!*noFollowSymlinksFlag]. *)
Definition on_symlink (follow logskip : bool) (arg symlinkFrom path basedir elem : string)
  : outcome visit :=
  if negb follow
  then Returned (quietly (if logskip then [path +:+ ": skipped. Symlink"] else []) Nil)
  else
    match last_byte basedir with
    | None => Panic "index out of range"
    | Some c =>
      let joined := if Ascii.eqb c "/" then basedir +:+ elem
                    else basedir +:+ "/" +:+ elem in
      symlinkAs ← (if String.eqb symlinkFrom "" then Returned joined
                   else rest ← slice_from joined (String.length arg);
                        Returned (symlinkFrom +:+ rest));
      match EvalSymlinks symlinkAs with
      | None =>
        name ← shown arg symlinkFrom path;
        Returned (quietly [name +:+ ": skipped. Symlink could not be resolved"] Nil)
      | Some p =>
        Returned {| logs := []; sent := []; recurse := Some (p, symlinkAs); ret := Nil |}
      end
    end.

(** The end of the callback, the same in both variants: an error is
    logged; a file whose mode has no type bit is sent; anything else is
    passed over. *)
Definition finish (logskip : bool) (arg symlinkFrom path : string)
    (info : option FileInfo) (err : option string) : outcome visit :=
  match err with
  | Some e =>
    name ← shown arg symlinkFrom path;
    Returned (quietly [name +:+ ": skipped. Error: " +:+ e] Nil)
  | None =>
    match info with
    | Some fi =>
      if Z.land (Mode fi) ModeType =? 0 then
        name ← shown arg symlinkFrom path;
        Returned {| logs := []; sent := [name]; recurse := None; ret := Nil |}
      else if negb (IsDir fi) then
        l ← skip_log logskip arg symlinkFrom path "Unsupported path type";
        Returned (quietly l Nil)
      else Returned (quietly [] Nil)
    | None =>
      l ← skip_log logskip arg symlinkFrom path "Could not stat.";
      Returned (quietly l Nil)
    end
  end.

(** The callback of the older variant. *)
Definition visit_old (follow logskip : bool) (arg symlinkFrom path : string)
    (info : option FileInfo) (err : option string) : outcome visit :=
  let '(basedir, elem) := Split path in
  if negb (String.eqb elem "") then
    if is_dir info then
      if vcs_or_backup_dir elem then
        l ← skip_log logskip arg symlinkFrom path "VCS or backup directory";
        Returned (quietly l SkipDir)
      else finish logskip arg symlinkFrom path info err
    else
      if backup_or_undesirable_file elem then
        l ← skip_log logskip arg symlinkFrom path "Backup or undesirable file";
        Returned (quietly l Nil)
      else if is_symlink info then
        on_symlink follow logskip arg symlinkFrom path basedir elem
      else finish logskip arg symlinkFrom path info err
  else finish logskip arg symlinkFrom path info err.

(** The loop over [excludePatterns]: [exclude, err = filepath.Match(pattern,
    elem)] assigns the callback's own [err]; an error of [Match] is fatal,
    and a match ends the loop. *)
Fixpoint exclude_loop (patterns : list string) (elem : string) (exclude : bool)
    (err : option string) : outcome (bool * option string) :=
  match patterns with
  | [] => Returned (exclude, err)
  | pattern :: rest =>
    match Match pattern elem with
    | None => Fatal "syntax error in pattern"
    | Some true => Returned (true, None)
    | Some false => exclude_loop rest elem false None
    end
  end.

(** The callback of the newer variant. *)
Definition visit_new (follow logskip : bool) (patterns : list string)
    (arg symlinkFrom path : string) (info : option FileInfo) (err : option string)
  : outcome visit :=
  let '(basedir, elem) := Split path in
  if negb (String.eqb elem "") then
    found ← exclude_loop patterns elem false err;
    let '(exclude, err) := found in
    if is_dir info then
      if exclude : bool then
        l ← skip_log logskip arg symlinkFrom path "Excluded directory";
        Returned (quietly l SkipDir)
      else finish logskip arg symlinkFrom path info err
    else
      if exclude then
        l ← skip_log logskip arg symlinkFrom path "Excluded file";
        Returned (quietly l Nil)
      else if is_symlink info then
        on_symlink follow logskip arg symlinkFrom path basedir elem
      else finish logskip arg symlinkFrom path info err
  else finish logskip arg symlinkFrom path info err.

(** Either variant of the callback, and what makes it pass over a named
    path: the names built into the older variant, a matching pattern in the
    newer one. *)
Inductive variant : Type := Old | New (patterns : list string).

Definition callback (which : variant) (follow logskip : bool)
    (arg symlinkFrom path : string) (info : option FileInfo) (err : option string)
  : outcome visit :=
  match which with
  | Old => visit_old follow logskip arg symlinkFrom path info err
  | New patterns => visit_new follow logskip patterns arg symlinkFrom path info err
  end.

Definition passed_over (which : variant) (info : option FileInfo) (elem : string)
  : Prop :=
  match which with
  | Old => (if is_dir info then vcs_or_backup_dir elem
            else backup_or_undesirable_file elem) = true
  | New patterns => ∃ pattern, pattern ∈ patterns ∧ Match pattern elem = Some true
  end.
End Callback.

(** Small collaborators to run the callback on: a pattern matches the names
    equal to it, a pattern starting with [\[] is malformed, and the only
    symbolic link that resolves is [/src/link], to [/data]. *)
Definition literal_Match (pattern name : string) : option bool :=
  if String.prefix "[" pattern then None else Some (String.eqb pattern name).
Definition one_link (path : string) : option string :=
  if String.eqb path "/src/link" then Some "/data" else None.
Definition regular : option FileInfo := Some {| Mode := 420 |}.
Definition directory : option FileInfo := Some {| Mode := Z.lor ModeDir 493 |}.
Definition symlink : option FileInfo := Some {| Mode := Z.lor ModeSymlink 511 |}.
End Walker.

(** ** A small concrete world

    Concrete collaborators on which the drivers can be run: regular
    expressions are literal strings (after the flag groups [(?i)] and [(?m)]
    are taken off), a file holds one line equal to its own name, and an
    index file holds its root paths and its file names. *)

Module Toy.
Local Open Scope Z_scope.

Fixpoint strip_flags (fuel : nat) (s : string) : string :=
  match fuel with
  | O => s
  | S n =>
    if String.prefix "(?i)" s || String.prefix "(?m)" s
    then strip_flags n (String.substring 4 (String.length s - 4) s)
    else s
  end.

Definition compile (s : string) : option string :=
  if String.prefix "(" (strip_flags 2 s) then None else Some (strip_flags 2 s).

Definition match_end (re name : string) : Z :=
  match String.index 0 re name with
  | Some i => Z.of_nat (i + String.length re)
  | None => -1
  end.

Fixpoint trigrams (s : string) : list string :=
  match s with
  | String a (String b (String c _ as s2) as s1) =>
    String a (String b (String c "")) :: trigrams s1
  | _ => []
  end.

Record grep : Type := {
  tg_re : string; tg_limit : Z; tg_count : Z; tg_done : bool; tg_match : bool
}.

Definition grep_file (g : grep) (name : string) : grep :=
  if match_end (tg_re g) name <? 0 then g
  else {| tg_re := tg_re g; tg_limit := tg_limit g; tg_count := tg_count g + 1;
          tg_done := (0 <? tg_limit g) && (tg_limit g <=? tg_count g + 1);
          tg_match := true |}.

Definition the_names : list string := ["/src/a.go"; "/src/b.go"; "/src/hello.txt"].

Definition the_index : Csearch.SpecIndex :=
  {| Csearch.names := the_names;
     Csearch.posting := λ t,
       N.of_nat <$> filter (λ i, 0 ≤ match_end t (default "" (the_names !! i)))
                           (seq 0 (length the_names)) |}.

#[export] Instance searcher : Csearch.Collaborators := {|
  Csearch.Regexp := string;
  Csearch.Syntax := string;
  Csearch.Index := Csearch.SpecIndex;
  Csearch.Grep := grep;
  Csearch.regexp_Compile := compile;
  Csearch.re_Syntax := λ re, re;
  Csearch.re_MatchString := λ re name _ _, match_end re name;
  Csearch.index_RegexpQuery := λ syn, Csearch.MkQuery Csearch.QAnd (trigrams syn) [];
  Csearch.index_Open := λ path, if decide (path = "/idx") then Some the_index else None;
  Csearch.ix_set_Verbose := λ ix _, ix;
  Csearch.ix_PostingQuery := Csearch.spec_PostingQuery;
  Csearch.ix_Name := Csearch.spec_Name;
  Csearch.grep_init :=
    {| tg_re := ""; tg_limit := 0; tg_count := 0; tg_done := false; tg_match := false |};
  Csearch.grep_set_Regexp := λ g re,
    {| tg_re := re; tg_limit := tg_limit g; tg_count := tg_count g;
       tg_done := tg_done g; tg_match := tg_match g |};
  Csearch.grep_Limit := λ g n,
    {| tg_re := tg_re g; tg_limit := n; tg_count := tg_count g;
       tg_done := tg_done g; tg_match := tg_match g |};
  Csearch.grep_File := grep_file;
  Csearch.grep_Done := tg_done;
  Csearch.grep_Match := tg_match;
  Csearch.os_Create := λ _, true
|}.

Definition env : environ := {[ "CSEARCHINDEX" := "/idx"; "HOME" := "/home/u" ]}.

Definition search_flags : Csearch.Flags :=
  {| Csearch.fFlag := ""; Csearch.iFlag := false; Csearch.verboseFlag := false;
     Csearch.bruteFlag := false; Csearch.cpuProfile := ""; Csearch.indexPath := "";
     Csearch.maxCount := 0 |}.
(** [-m 1] *)
Definition first_only : Csearch.Flags :=
  {| Csearch.fFlag := ""; Csearch.iFlag := false; Csearch.verboseFlag := false;
     Csearch.bruteFlag := false; Csearch.cpuProfile := ""; Csearch.indexPath := "";
     Csearch.maxCount := 1 |}.
(** [-brute -i] *)
Definition brute_flags : Csearch.Flags :=
  {| Csearch.fFlag := ""; Csearch.iFlag := true; Csearch.verboseFlag := false;
     Csearch.bruteFlag := true; Csearch.cpuProfile := ""; Csearch.indexPath := "";
     Csearch.maxCount := 0 |}.
(** [-f hello] *)
Definition only_hello : Csearch.Flags :=
  {| Csearch.fFlag := "hello"; Csearch.iFlag := false; Csearch.verboseFlag := false;
     Csearch.bruteFlag := false; Csearch.cpuProfile := ""; Csearch.indexPath := "";
     Csearch.maxCount := 0 |}.

(** The runs of [Main] on this world that are used below. *)
Definition toy_run (pat re : string) (fre : option string) (q : Csearch.Query)
    (post filtered : list N) (files : list string) (g : grep) : Csearch.Run :=
  {| Csearch.run_env := env; Csearch.run_pat := pat; Csearch.run_re := re;
     Csearch.run_fre := fre; Csearch.run_ix := the_index; Csearch.run_query := q;
     Csearch.run_post := post; Csearch.run_filtered := filtered;
     Csearch.run_files := files; Csearch.run_g := g |}.

Definition run_first_only : Csearch.Run :=
  toy_run "(?m)src" "src" None (Csearch.MkQuery Csearch.QAnd ["src"] [])
          [0; 1; 2]%N [0; 1; 2]%N ["/src/a.go"]
          {| tg_re := "src"; tg_limit := 1; tg_count := 1; tg_done := true;
             tg_match := true |}.

Definition run_brute (arg : string) : Csearch.Run :=
  toy_run ("(?i)(?m)" +:+ arg) arg None Csearch.Query_QAll
          [0; 1; 2]%N [0; 1; 2]%N the_names
          {| tg_re := arg; tg_limit := 0; tg_count := 0; tg_done := false;
             tg_match := false |}.

Definition run_only_hello : Csearch.Run :=
  toy_run "(?m)src" "src" (Some "hello") (Csearch.MkQuery Csearch.QAnd ["src"] [])
          [0; 1; 2]%N [2]%N ["/src/hello.txt"]
          {| tg_re := "src"; tg_limit := 0; tg_count := 1; tg_done := false;
             tg_match := true |}.

Definition run_src : Csearch.Run :=
  toy_run "(?m)src" "src" None (Csearch.MkQuery Csearch.QAnd ["src"] [])
          [0; 1; 2]%N [0; 1; 2]%N the_names
          {| tg_re := "src"; tg_limit := 0; tg_count := 3; tg_done := false;
             tg_match := true |}.

Definition run_zzz : Csearch.Run :=
  toy_run "(?m)zzz" "zzz" None (Csearch.MkQuery Csearch.QAnd ["zzz"] [])
          [] [] []
          {| tg_re := "zzz"; tg_limit := 0; tg_count := 0; tg_done := false;
             tg_match := false |}.

(** The builder's side. *)
Inductive data : Type :=
  | Idx (paths files : list string)
  | Text (s : string)
  | Junk.

#[export] Instance data_eq_dec : EqDecision data.
Proof. solve_decision. Defined.
#[export] Instance node_eq_dec : EqDecision (Cindex.node data).
Proof. solve_decision. Defined.

#[export] Instance builder : Cindex.Collaborators := {|
  Cindex.Data := data;
  Cindex.created := Text "";
  Cindex.profile := Text "profile";
  Cindex.partial := Junk;
  Cindex.text := λ d, match d with Text s => s | _ => "" end;
  Cindex.ix_Paths := λ d, match d with Idx ps _ => Some ps | _ => None end;
  Cindex.flushed := λ paths added _, Idx paths added;
  Cindex.merged := λ d1 d2,
    match d1, d2 with
    | Idx p1 f1, Idx p2 f2 =>
      Some (Idx (Cindex.sort_Strings (list_union p1 p2)) (list_union f1 f2))
    | _, _ => None
    end;
  Cindex.Abs := λ s, if String.prefix "/" s then Some s else None;
  Cindex.TrimSpace := λ s, s;
  Cindex.HomeDir := Some "/home/u";
  Cindex.Join := λ a b, a +:+ "/" +:+ b;
  Cindex.Walk := λ _ _ _ root,
    if decide (root = "/src") then ["/src/a.go"; "/src/b.go"; "/src/a.go"]
    else if decide (root = "/lib") then ["/lib/c.go"]
    else []
|}.

Definition build_flags : Cindex.Flags :=
  {| Cindex.listFlag := false; Cindex.resetFlag := false; Cindex.verboseFlag := false;
     Cindex.cpuProfile := ""; Cindex.indexPath := ""; Cindex.logSkipFlag := false;
     Cindex.noFollowSymlinksFlag := false; Cindex.exclude := "" |}.

Definition reset_flags : Cindex.Flags :=
  {| Cindex.listFlag := false; Cindex.resetFlag := true; Cindex.verboseFlag := false;
     Cindex.cpuProfile := ""; Cindex.indexPath := ""; Cindex.logSkipFlag := false;
     Cindex.noFollowSymlinksFlag := false; Cindex.exclude := "" |}.

Definition old_index : data := Idx ["/lib"] ["/lib/c.go"].

Definition disk : gmap string (Cindex.node data) :=
  {[ "/idx" := Cindex.Regular old_index ]}.

(** The world the builder starts in. *)
Definition start : Cindex.World := Cindex.initial (C := builder) env disk.

Definition no_faults : Cindex.Faults :=
  {| Cindex.merge_fault := false; Cindex.rename_fault := false |}.
Definition rename_fails : Cindex.Faults :=
  {| Cindex.merge_fault := false; Cindex.rename_fault := true |}.

(** A kernel in which every mapping call succeeds. *)
Definition willing : Mmap.Kernel :=
  {| Mmap.k_mmap := λ _ _, Some 4096;
     Mmap.k_CreateFileMapping := λ _ _ _, Some 7;
     Mmap.k_MapViewOfFile := λ _, Some 65536 |}.

Definition file_of_size (n : Z) : Mmap.File :=
  {| Mmap.Name := "index"; Mmap.Fd := 3; Mmap.Stat := Some n |}.
End Toy.

(** ** More of the small world *)

Module Sample.
Local Open Scope Z_scope.

(** An environment that names another index, and [-indexpath /idx]. *)
Definition elsewhere : environ :=
  {[ "CSEARCHINDEX" := "/other"; "HOME" := "/home/u" ]}.

Definition at_idx : Csearch.Flags :=
  {| Csearch.fFlag := ""; Csearch.iFlag := false; Csearch.verboseFlag := false;
     Csearch.bruteFlag := false; Csearch.cpuProfile := ""; Csearch.indexPath := "/idx";
     Csearch.maxCount := 0 |}.

(** The run of [Main] on [src] there: that of the small world, but for
    the environment. *)
Definition run_at_idx : Csearch.Run (C := Toy.searcher) :=
  let r := Toy.run_src in
  {| Csearch.run_env := <["CSEARCHINDEX" := "/idx"]> elsewhere;
     Csearch.run_pat := Csearch.run_pat r; Csearch.run_re := Csearch.run_re r;
     Csearch.run_fre := Csearch.run_fre r; Csearch.run_ix := Csearch.run_ix r;
     Csearch.run_query := Csearch.run_query r; Csearch.run_post := Csearch.run_post r;
     Csearch.run_filtered := Csearch.run_filtered r;
     Csearch.run_files := Csearch.run_files r; Csearch.run_g := Csearch.run_g r |}.

(** [-list], and [-exclude x]. *)
Definition list_flags : Cindex.Flags :=
  {| Cindex.listFlag := true; Cindex.resetFlag := true; Cindex.verboseFlag := false;
     Cindex.cpuProfile := ""; Cindex.indexPath := ""; Cindex.logSkipFlag := false;
     Cindex.noFollowSymlinksFlag := false; Cindex.exclude := "" |}.

Definition short_exclude : Cindex.Flags :=
  {| Cindex.listFlag := false; Cindex.resetFlag := false; Cindex.verboseFlag := false;
     Cindex.cpuProfile := ""; Cindex.indexPath := ""; Cindex.logSkipFlag := false;
     Cindex.noFollowSymlinksFlag := false; Cindex.exclude := "x" |}.

(** A disk without an index, and one with a directory where the index
    should be. *)
Definition empty_disk : gmap string (Cindex.node Toy.data) := ∅.
Definition blocked_disk : gmap string (Cindex.node Toy.data) :=
  {[ "/idx" := Cindex.Dir true ]}.
End Sample.

(** * Properties *)

(** ** Machine integers *)

Section GoIntFacts.
Import GoInt.
Local Open Scope Z_scope.

Lemma pow2_double w : 0 < w → 2 ^ w = 2 * 2 ^ (w - 1).
Proof.
  intros Hw. replace w with (Z.succ (w - 1)) at 1 by lia.
  rewrite Z.pow_succ_r; lia.
Qed.

Lemma wrap_in_range w x : 0 < w → in_range w (wrap w x).
Proof.
  intros Hw. unfold in_range, wrap.
  pose proof (pow2_double w Hw) as H2.
  assert (Hp : 0 < 2 ^ (w - 1)) by (apply Z.pow_pos_nonneg; lia).
  pose proof (Z.mod_pos_bound (x + 2 ^ (w - 1)) (2 ^ w)) as Hb. lia.
Qed.

Lemma wrap_id w x : 0 < w → in_range w x → wrap w x = x.
Proof.
  intros Hw [Hlo Hhi]. unfold wrap.
  pose proof (pow2_double w Hw) as H2.
  rewrite Z.mod_small; lia.
Qed.

(** One turn too far: the value comes back lowered by [2^w]. *)
Lemma wrap_over w x :
  0 < w → 2 ^ (w - 1) ≤ x < 2 ^ w + 2 ^ (w - 1) → wrap w x = x - 2 ^ w.
Proof.
  intros Hw [Hlo Hhi]. unfold wrap.
  pose proof (pow2_double w Hw) as H2.
  replace (x + 2 ^ (w - 1)) with ((x + 2 ^ (w - 1) - 2 ^ w) + 1 * 2 ^ w) by lia.
  rewrite Z.mod_add by lia. rewrite Z.mod_small; lia.
Qed.

Lemma ldiff_4095 x : Z.ldiff x 4095 = 4096 * (x / 4096).
Proof.
  change 4095 with (Z.ones 12).
  rewrite Z.ldiff_ones_r, Z.shiftl_mul_pow2, Z.shiftr_div_pow2 by lia.
  change (2 ^ 12) with 4096. lia.
Qed.

Lemma ldiff_4095_bounds x : x - 4095 ≤ Z.ldiff x 4095 ≤ x.
Proof.
  rewrite ldiff_4095.
  pose proof (Z.div_mod x 4096 ltac:(lia)).
  pose proof (Z.mod_pos_bound x 4096 ltac:(lia)). lia.
Qed.
End GoIntFacts.

(** ** [mmapFile] *)

Section MmapFacts.
Import GoInt Mmap.
Local Open Scope Z_scope.

Variable intBits : Z.
Variable K : Kernel.
Hypothesis platform : intBits = 32 ∨ intBits = 64.

Lemma intBits_pos : 0 < intBits.
Proof. destruct platform; lia. Qed.

Lemma int_in_int64 x : in_range intBits x → in_range 64 x.
Proof.
  unfold in_range. destruct platform as [-> | ->]; [|done].
  change (2 ^ (32 - 1)) with 2147483648.
  change (2 ^ (64 - 1)) with 9223372036854775808. lia.
Qed.

(** The guard lets a size through exactly when [size+4095], computed in
    [int64], is an [int]. *)
Lemma too_large_spec size :
  too_large intBits size = false ↔ in_range intBits (int64 (size + 4095)).
Proof.
  unfold too_large. rewrite negb_false_iff, Z.eqb_eq.
  pose proof intBits_pos as Hw.
  set (v := int64 (size + 4095)).
  assert (Hv : in_range 64 v) by (apply wrap_in_range; lia).
  split.
  - intros Heq. unfold int64 in Heq at 1.
    rewrite wrap_id in Heq by (try lia; apply int_in_int64, wrap_in_range; lia).
    unfold int in Heq. rewrite <- Heq. by apply wrap_in_range.
  - intros Hin. unfold int. rewrite (wrap_id intBits v) by done.
    unfold int64. by rewrite wrap_id by (try lia; done).
Qed.

(** A size whose rounding fits the [int] passes the guard and is its own
    conversion to [int]. *)
Lemma fits_passes size :
  0 ≤ size → size + 4095 < 2 ^ (intBits - 1) →
  too_large intBits size = false ∧ int intBits size = size
  ∧ int intBits (size + 4095) = size + 4095.
Proof.
  intros H0 Hfit. pose proof intBits_pos as Hw.
  assert (Hr : in_range intBits (size + 4095)) by (unfold in_range; lia).
  assert (Hr' : in_range intBits size) by (unfold in_range; lia).
  split; [|split].
  - apply too_large_spec. unfold int64.
    rewrite wrap_id; [done | lia | by apply int_in_int64].
  - by apply wrap_id.
  - by apply wrap_id.
Qed.

(** What passing the guard says about a file size. *)
Lemma passes_cases size :
  0 ≤ size < 2 ^ 63 → too_large intBits size = false →
  size + 4095 < 2 ^ (intBits - 1) ∨ (intBits = 64 ∧ 2 ^ 63 ≤ size + 4095).
Proof.
  intros Hs Hp. apply too_large_spec in Hp.
  destruct (Z_lt_dec (size + 4095) (2 ^ 63)) as [Hlt | Hge].
  - unfold int64 in Hp. rewrite wrap_id in Hp
      by (try lia; unfold in_range; change (2 ^ (64 - 1)) with (2 ^ 63); lia).
    left. apply Hp.
  - unfold int64 in Hp. rewrite wrap_over in Hp
      by (change (2 ^ (64 - 1)) with (2 ^ 63);
          change (2 ^ 64) with 18446744073709551616;
          change (2 ^ 63) with 9223372036854775808 in *; lia).
    destruct platform as [-> | ->]; [|right; lia].
    exfalso. destruct Hp as [Hlo _].
    change (2 ^ (32 - 1)) with 2147483648 in Hlo.
    change (2 ^ 64) with 18446744073709551616 in Hlo.
    change (2 ^ 63) with 9223372036854775808 in *. lia.
Qed.

(** In the wrap-around case of a 64-bit platform the unix variant asks
    for a mapping of negative length, which [syscall.Mmap] refuses. *)
Lemma unix_wrapped_length size :
  intBits = 64 → 0 ≤ size < 2 ^ 63 → 2 ^ 63 ≤ size + 4095 →
  Z.ldiff (int intBits (int intBits size + 4095)) 4095 ≤ 0.
Proof.
  intros -> Hs Hge. unfold int.
  rewrite (wrap_id 64 size)
    by (try lia; unfold in_range; change (2 ^ (64 - 1)) with (2 ^ 63); lia).
  rewrite wrap_over
    by (change (2 ^ (64 - 1)) with (2 ^ 63);
        change (2 ^ 64) with 18446744073709551616;
        change (2 ^ 63) with 9223372036854775808 in *; lia).
  pose proof (ldiff_4095_bounds (size + 4095 - 2 ^ 64)) as Hb.
  change (2 ^ 64) with 18446744073709551616 in *.
  change (2 ^ 63) with 9223372036854775808 in *. lia.
Qed.

Lemma mmapFile_unix_returned file size m tr :
  Stat file = Some size → 0 ≤ size < 2 ^ 63 →
  mmapFile_unix intBits K file = (Returned m, tr) →
  len (d m) = size ∧ (size = 0 → m = MmapData file nil 0 ∧ tr = [])
  ∧ size + 4095 < 2 ^ (intBits - 1).
Proof.
  intros HS Hs. unfold mmapFile_unix. rewrite HS.
  destruct (too_large intBits size) eqn:Htl; [done|].
  destruct (passes_cases size Hs Htl) as [Hfit | [H64 Hwrap]].
  - destruct (fits_passes size (proj1 Hs) Hfit) as (_ & Hn & Hn').
    cbv zeta. rewrite Hn. destruct (Z.eqb_spec size 0) as [-> | Hne].
    + intros [= <- <-]. done.
    + unfold syscall_Mmap.
      destruct (Z.ldiff _ 4095 <=? 0) eqn:Hlen; [done|].
      destruct (k_mmap K _ _) as [addr|]; simpl; [|done].
      unfold slice_to. simpl.
      destruct ((0 <=? size) && _) eqn:Hb; [|done].
      intros [= <- <-]. simpl. split; [done|]. split; [lia|done].
  - pose proof (unix_wrapped_length size H64 Hs Hwrap) as Hneg.
    cbv zeta. destruct (int intBits size =? 0) eqn:Hz.
    + apply Z.eqb_eq in Hz. unfold int in Hz. subst intBits.
      rewrite wrap_id in Hz
        by (try lia; unfold in_range; change (2 ^ (64 - 1)) with (2 ^ 63); lia).
      change (2 ^ 63) with 9223372036854775808 in *. lia.
    + unfold syscall_Mmap. apply Z.leb_le in Hneg. rewrite Hneg. done.
Qed.

Lemma mmapFile_windows_returned file size m tr :
  Stat file = Some size → 0 ≤ size < 2 ^ 63 →
  mmapFile_windows intBits K file = (Returned m, tr) →
  len (d m) = size ∧ (size = 0 → m = MmapData file nil 0 ∧ tr = [])
  ∧ size + 4095 < 2 ^ (intBits - 1).
Proof.
  intros HS Hs. unfold mmapFile_windows. rewrite HS.
  destruct (too_large intBits size) eqn:Htl; [done|].
  destruct (Z.eqb_spec size 0) as [-> | Hne].
  - intros [= <- <-]. split; [done|]. split; [done|].
    destruct platform as [-> | ->]; reflexivity.
  - destruct (k_CreateFileMapping K _ _ _) as [hnd|]; [|done].
    destruct (k_MapViewOfFile K hnd) as [addr|]; [|done].
    unfold slice_to, array_1_30. simpl.
    destruct (0 <=? size) eqn:H0; simpl; [|done].
    destruct (size <=? 2 ^ 30) eqn:H30; [|done].
    intros [= <- <-]. simpl. split; [done|]. split; [lia|].
    apply Z.leb_le in H30. destruct platform as [-> | ->].
    + change (2 ^ 30) with 1073741824 in H30.
      change (2 ^ (32 - 1)) with 2147483648. lia.
    + change (2 ^ 30) with 1073741824 in H30.
      change (2 ^ (64 - 1)) with 9223372036854775808. lia.
Qed.
End MmapFacts.

(** ** The searcher *)

Section CsearchFacts.
Import Csearch.
Local Open Scope Z_scope.
Context `{C : Collaborators}.

(** What a run of [Main] that returns has gone through. *)
Lemma Main_returned env flags args r :
  Main env flags args = Returned r →
  ∃ arg ix0,
    args = [arg]
    ∧ run_pat r = pattern flags arg
    ∧ regexp_Compile (run_pat r) = Some (run_re r)
    ∧ run_fre r = (if String.eqb (fFlag flags) "" then None
                   else regexp_Compile (fFlag flags))
    ∧ index_Open (index_File (run_env r)) = Some ix0
    ∧ run_ix r = ix_set_Verbose ix0 (verboseFlag flags)
    ∧ run_query r = evaluated_query flags (index_RegexpQuery (re_Syntax (run_re r)))
    ∧ run_post r = ix_PostingQuery (run_ix r) (run_query r)
    ∧ run_filtered r = filter_names (run_ix r) (run_fre r) (run_post r)
    ∧ grep_loop (run_ix r) (armed flags (run_re r)) (run_filtered r)
      = (run_g r, run_files r).
Proof.
  unfold Main. destruct args as [|arg [|? ?]]; [done| |done].
  destruct (negb _ && negb _); [done|].
  destruct (if String.eqb (indexPath flags) "" then _ else _) as [env'|]; [|done].
  destruct (regexp_Compile (pattern flags arg)) as [re|] eqn:Hre; [|done].
  destruct (String.eqb (fFlag flags) "") eqn:Hf.
  - destruct (index_Open _) as [ix0|] eqn:Hopen; [|done].
    destruct (grep_loop _ _ _) as [g2 files] eqn:Hloop.
    intros [= <-]. simpl. exists arg, ix0. by repeat split.
  - destruct (regexp_Compile (fFlag flags)) as [fre|] eqn:Hfre; simpl; [|done].
    destruct (index_Open _) as [ix0|] eqn:Hopen; [|done].
    destruct (grep_loop _ _ _) as [g2 files] eqn:Hloop.
    intros [= <-]. simpl. exists arg, ix0. by repeat split.
Qed.

Lemma filter_loop_spec ix fre post fnames :
  filter_loop ix fre post fnames
  = fnames ++ filter (λ id, 0 ≤ re_MatchString fre (ix_Name ix id) true true) post.
Proof.
  revert fnames. induction post as [|id post IH]; intros fnames; simpl.
  - by rewrite app_nil_r.
  - rewrite filter_cons. destruct (Z.ltb_spec (re_MatchString fre (ix_Name ix id) true true) 0).
    + rewrite decide_False by lia. apply IH.
    + rewrite decide_True by lia. rewrite IH, <- app_assoc. done.
Qed.

(** The loop breaks after the first file that leaves the done flag set. *)
Lemma grep_loop_break ix g before id after :
  (∀ k, (0 < k ≤ length before)%nat →
        grep_Done (after_files g (ix_Name ix <$> take k before)) = false) →
  grep_Done (after_files g (ix_Name ix <$> (before ++ [id]))) = true →
  grep_loop ix g (before ++ id :: after)
  = (after_files g (ix_Name ix <$> (before ++ [id])), ix_Name ix <$> (before ++ [id])).
Proof.
  revert g. induction before as [|b before IH]; intros g Hnot Hdone; simpl in *.
  - by rewrite Hdone.
  - pose proof (Hnot 1%nat ltac:(lia)) as H1. simpl in H1.
    rewrite H1.
    rewrite (IH (grep_File g (ix_Name ix b))); [done| |done].
    intros k Hk. apply (Hnot (S k)). lia.
Qed.

(** Without a done flag the loop hands every candidate to the driver. *)
Lemma grep_loop_all ix g post :
  (∀ k, (0 < k ≤ length post)%nat →
        grep_Done (after_files g (ix_Name ix <$> take k post)) = false) →
  grep_loop ix g post = (after_files g (ix_Name ix <$> post), ix_Name ix <$> post).
Proof.
  revert g. induction post as [|b post IH]; intros g Hnot; simpl in *; [done|].
  pose proof (Hnot 1%nat ltac:(lia)) as H1. simpl in H1.
  rewrite H1.
  rewrite (IH (grep_File g (ix_Name ix b))); [done|].
  intros k Hk. apply (Hnot (S k)). lia.
Qed.

(** The driver ends in the state the files handed to it put it in. *)
Lemma grep_loop_state ix g post :
  (grep_loop ix g post).1 = after_files g (grep_loop ix g post).2.
Proof.
  revert g. induction post as [|b post IH]; intros g; simpl; [done|].
  destruct (grep_Done _) eqn:Hd; [done|].
  specialize (IH (grep_File g (ix_Name ix b))).
  destruct (grep_loop _ _ post) as [g'' names']. simpl in *. done.
Qed.

(** Once the flag is set after the first [k+1] candidates, no more than
    those are handed to the driver. *)
Lemma grep_loop_stops ix g post k :
  (k < length post)%nat →
  grep_Done (after_files g (ix_Name ix <$> take (S k) post)) = true →
  (length (grep_loop ix g post).2 ≤ S k)%nat.
Proof.
  revert g k. induction post as [|b post IH]; intros g k Hk Hd; simpl in *; [lia|].
  destruct (grep_Done (grep_File g (ix_Name ix b))) eqn:Hb; simpl; [lia|].
  destruct k as [|k].
  - rewrite take_0 in Hd. simpl in Hd. congruence.
  - specialize (IH (grep_File g (ix_Name ix b)) k ltac:(lia) Hd).
    destruct (grep_loop _ _ post) as [g'' names']. simpl in *. lia.
Qed.

(** The names handed to the driver are those of a prefix of the
    candidates, in order. *)
Lemma grep_loop_prefix ix g post :
  ∃ n, (grep_loop ix g post).2 = ix_Name ix <$> take n post.
Proof.
  revert g. induction post as [|b post IH]; intros g; simpl.
  - by exists 0%nat.
  - destruct (grep_Done _).
    + by exists 1%nat.
    + destruct (IH (grep_File g (ix_Name ix b))) as [n Hn].
      destruct (grep_loop _ _ post) as [g'' names']. simpl in *.
      exists (S n). simpl. by rewrite Hn.
Qed.
End CsearchFacts.

Import Csearch.

(** C2: in the searcher's candidate loop, once the grep driver's done flag
    is set no further candidate file is passed to the driver.  The files
    handed to [g.File] in a run of [Main] are the names of a prefix of the
    candidates, in order, and the driver ends in the state they put it in;
    if the flag is set after the first [k+1] candidates have been handed
    over, no more than those [k+1] are. *)
Theorem candidate_loop_stops_when_done (C : Collaborators) env flags args r :
  Main env flags args = Returned r →
  (∃ n, run_files r = ix_Name (run_ix r) <$> take n (run_filtered r))
  ∧ run_g r = after_files (armed flags (run_re r)) (run_files r)
  ∧ ∀ k, (k < length (run_filtered r))%nat →
         grep_Done (after_files (armed flags (run_re r))
                      (ix_Name (run_ix r) <$> take (S k) (run_filtered r))) = true →
         (length (run_files r) ≤ S k)%nat.
Proof.
  intros HM.
  destruct (Main_returned _ _ _ _ HM) as (arg & ix0 & _ & _ & _ & _ & _ & _ & _ & _ & _ & Hloop).
  pose proof (grep_loop_prefix (run_ix r) (armed flags (run_re r)) (run_filtered r)) as Hp.
  pose proof (grep_loop_state (run_ix r) (armed flags (run_re r)) (run_filtered r)) as Hs.
  pose proof (grep_loop_stops (run_ix r) (armed flags (run_re r)) (run_filtered r)) as Hk.
  rewrite Hloop in Hp, Hs, Hk. done.
Qed.

Lemma Main_first_only :
  Main (C := Toy.searcher) Toy.env Toy.first_only ["src"] = Returned Toy.run_first_only.
Proof. reflexivity. Qed.

Lemma candidate_loop_stops_when_done_witness :
  Main (C := Toy.searcher) Toy.env Toy.first_only ["src"] = Returned Toy.run_first_only
  ∧ run_filtered Toy.run_first_only = [0; 1; 2]%N
  ∧ (length (run_files Toy.run_first_only) ≤ 1)%nat.
Proof.
  split; [exact Main_first_only|]. split; [reflexivity|].
  refine (proj2 (proj2 (candidate_loop_stops_when_done Toy.searcher Toy.env Toy.first_only
                          ["src"] Toy.run_first_only Main_first_only)) 0%nat _ _).
  - simpl. lia.
  - reflexivity.
Defined.

(** C4: with [-brute] the searcher evaluates the query [{Op: QAll}] against
    the index instead of the planner's query, and otherwise the planner's
    query for the compiled pattern; on the posting evaluator of the
    specification the candidates of a brute search are the ids of all the
    indexed files. *)
Theorem brute_flag_selects_query_all (C : Collaborators) env flags args r :
  Main env flags args = Returned r →
  run_post r = ix_PostingQuery (run_ix r) (run_query r)
  ∧ regexp_Compile (run_pat r) = Some (run_re r)
  ∧ run_query r = (if bruteFlag flags then MkQuery QAll [] []
                   else index_RegexpQuery (re_Syntax (run_re r)))
  ∧ (∀ open r',
       bruteFlag flags = true →
       Main (C := on_spec_index C open) env flags args = Returned r' →
       run_post (C := on_spec_index C open) r'
       = N.of_nat <$> seq 0 (length (names (run_ix (C := on_spec_index C open) r')))).
Proof.
  intros HM.
  destruct (Main_returned _ _ _ _ HM) as (arg & ix0 & _ & _ & Hre & _ & _ & _ & Hq & Hp & _).
  repeat split; try done.
  intros open r' Hb HM'.
  destruct (Main_returned (C := on_spec_index C open) _ _ _ _ HM')
    as (arg' & ix0' & _ & _ & _ & _ & _ & _ & Hq' & Hp' & _).
  rewrite Hp', Hq'. unfold evaluated_query. rewrite Hb. reflexivity.
Qed.

Lemma Main_brute_zzz :
  Main (C := Toy.searcher) Toy.env Toy.brute_flags ["zzz"] = Returned (Toy.run_brute "zzz").
Proof. reflexivity. Qed.

Lemma Main_brute_Hello :
  Main (C := Toy.searcher) Toy.env Toy.brute_flags ["Hello"]
  = Returned (Toy.run_brute "Hello").
Proof. reflexivity. Qed.

Lemma brute_flag_selects_query_all_witness :
  Main (C := Toy.searcher) Toy.env Toy.brute_flags ["zzz"] = Returned (Toy.run_brute "zzz")
  ∧ run_query (Toy.run_brute "zzz") = MkQuery QAll [] []
  ∧ run_post (Toy.run_brute "zzz") = [0; 1; 2]%N.
Proof.
  pose proof (brute_flag_selects_query_all Toy.searcher Toy.env Toy.brute_flags ["zzz"]
                (Toy.run_brute "zzz") Main_brute_zzz)
    as (Hp & _ & Hq & _).
  split; [exact Main_brute_zzz|].
  split; [exact Hq | reflexivity].
Defined.

(** C5: the searcher exits with status 2 when the number of positional
    arguments is not exactly one, and a run that completes exits with status
    0 when a match was found ([g.Match] is set) and with status 1 when none
    was. *)
Theorem searcher_exit_status (C : Collaborators) env flags args :
  (length args ≠ 1%nat → main env flags args = 2%Z)
  ∧ (∀ r, Main env flags args = Returned r →
          main env flags args = if grep_Match (run_g r) then 0%Z else 1%Z).
Proof.
  split.
  - unfold main, Main. destruct args as [|arg [|? ?]]; simpl; done.
  - intros r HM. unfold main, matches. rewrite HM. reflexivity.
Qed.

(** C6: with a file-name regexp given by [-f], the candidates handed to the
    grep loop are exactly the candidates of the posting query whose name the
    regexp matches ([MatchString] answers a position, not a negative
    number), in their order; without [-f] they are the candidates of the
    posting query unchanged. *)
Theorem file_name_filter (C : Collaborators) env flags args r :
  Main env flags args = Returned r →
  (fFlag flags = "" → run_fre r = None ∧ run_filtered r = run_post r)
  ∧ (fFlag flags ≠ "" →
     ∃ fre, regexp_Compile (fFlag flags) = Some fre ∧ run_fre r = Some fre
       ∧ run_filtered r
         = filter (λ id, (0 ≤ re_MatchString fre (ix_Name (run_ix r) id) true true)%Z)
                  (run_post r)).
Proof.
  intros HM.
  destruct (Main_returned _ _ _ _ HM) as (arg & ix0 & _ & _ & _ & Hfre & _ & _ & _ & _ & Hfil & _).
  split.
  - intros Hf. rewrite Hf in Hfre. simpl in Hfre. rewrite Hfil, Hfre. done.
  - intros Hf. apply String.eqb_neq in Hf. rewrite Hf in Hfre.
    destruct (run_fre r) as [fre|] eqn:Hr.
    + exists fre. split; [done|]. split; [done|].
      rewrite Hfil. simpl. by rewrite filter_loop_spec.
    + exfalso. unfold Main in HM. destruct args as [|a [|? ?]]; [done| |done].
      destruct (negb _ && negb _); [done|].
      destruct (if String.eqb (indexPath flags) "" then _ else _); [|done].
      destruct (regexp_Compile (pattern flags a)); [|done].
      rewrite Hf, <- Hfre in HM. simpl in HM. done.
Qed.

Lemma Main_only_hello :
  Main (C := Toy.searcher) Toy.env Toy.only_hello ["src"] = Returned Toy.run_only_hello.
Proof. reflexivity. Qed.

Lemma file_name_filter_witness :
  Main (C := Toy.searcher) Toy.env Toy.only_hello ["src"] = Returned Toy.run_only_hello
  ∧ run_post Toy.run_only_hello = [0; 1; 2]%N
  ∧ ∃ fre, run_fre Toy.run_only_hello = Some fre
      ∧ run_filtered Toy.run_only_hello
        = filter (λ id, (0 ≤ Toy.match_end fre (spec_Name Toy.the_index id))%Z)
                 [0; 1; 2]%N.
Proof.
  split; [exact Main_only_hello|]. split; [reflexivity|].
  destruct (proj2 (file_name_filter Toy.searcher Toy.env Toy.only_hello ["src"]
                     Toy.run_only_hello Main_only_hello) ltac:(done))
    as (fre & _ & Hr & Hf).
  exists fre. split; [exact Hr | exact Hf].
Defined.

(** C9: case-insensitive search is a prefix on the pattern.  The string
    given to the regexp compiler is ["(?i)(?m)"] followed by the user's
    pattern with [-i] and ["(?m)"] followed by the user's pattern without;
    the user's pattern is its unchanged suffix. *)
Theorem case_insensitive_is_a_prefix (C : Collaborators) env flags args r :
  Main env flags args = Returned r →
  ∃ arg, args = [arg]
    ∧ run_pat r = (if iFlag flags then "(?i)(?m)" else "(?m)") +:+ arg
    ∧ regexp_Compile ((if iFlag flags then "(?i)(?m)" else "(?m)") +:+ arg)
      = Some (run_re r).
Proof.
  intros HM.
  destruct (Main_returned _ _ _ _ HM) as (arg & ix0 & -> & Hpat & Hre & _).
  exists arg. split; [done|].
  assert (Hp : pattern flags arg = (if iFlag flags then "(?i)(?m)" else "(?m)") +:+ arg).
  { unfold pattern. destruct (iFlag flags); reflexivity. }
  rewrite <- Hp, <- Hpat. done.
Qed.

Lemma case_insensitive_is_a_prefix_witness :
  Main (C := Toy.searcher) Toy.env Toy.brute_flags ["Hello"]
  = Returned (Toy.run_brute "Hello")
  ∧ run_pat (Toy.run_brute "Hello") = "(?i)(?m)Hello".
Proof.
  split; [exact Main_brute_Hello|].
  destruct (case_insensitive_is_a_prefix Toy.searcher Toy.env Toy.brute_flags ["Hello"]
              (Toy.run_brute "Hello") Main_brute_Hello)
    as (arg & Ha & Hp & _).
  injection Ha as <-. exact Hp.
Defined.

Lemma searcher_exit_status_witness :
  main (C := Toy.searcher) Toy.env Toy.search_flags ["src"; "b"] = 2%Z
  ∧ main (C := Toy.searcher) Toy.env Toy.search_flags ["src"] = 0%Z
  ∧ main (C := Toy.searcher) Toy.env Toy.search_flags ["zzz"] = 1%Z.
Proof.
  split; [|split].
  - apply (proj1 (searcher_exit_status Toy.searcher Toy.env Toy.search_flags ["src"; "b"])).
    simpl. lia.
  - apply (proj2 (searcher_exit_status Toy.searcher Toy.env Toy.search_flags ["src"])
                 Toy.run_src).
    reflexivity.
  - apply (proj2 (searcher_exit_status Toy.searcher Toy.env Toy.search_flags ["zzz"])
                 Toy.run_zzz).
    reflexivity.
Defined.

Section MmapProperties.
Import Mmap.
Local Open Scope Z_scope.

(** The unix variant maps every non-empty file whose rounded size is an
    [int], provided the system call succeeds. *)
Lemma mmapFile_unix_accepts intBits K file size addr :
  intBits = 32 ∨ intBits = 64 →
  Stat file = Some size → (0 < size)%Z → (size + 4095 < 2 ^ (intBits - 1))%Z →
  k_mmap K (int intBits (Fd file)) (Z.ldiff (size + 4095) 4095) = Some addr →
  mmapFile_unix intBits K file
  = (Returned (MmapData file (Slice addr size (Z.ldiff (size + 4095) 4095)) 0),
     [SysMmap (int intBits (Fd file)) 0 (Z.ldiff (size + 4095) 4095)]).
Proof.
  intros Hp HS H0 Hfit Hk. unfold mmapFile_unix. rewrite HS.
  destruct (fits_passes intBits Hp size ltac:(lia) Hfit) as (-> & Hn & Hn').
  cbv zeta. rewrite Hn, Hn'.
  destruct (Z.eqb_spec size 0) as [-> | _]; [lia|].
  unfold syscall_Mmap. pose proof (ldiff_4095_bounds (size + 4095)) as Hb.
  destruct (Z.leb_spec (Z.ldiff (size + 4095) 4095) 0) as [Hle | _]; [lia|].
  rewrite Hk. simpl. unfold slice_to. simpl.
  destruct (Z.leb_spec 0 size); [|lia].
  destruct (Z.leb_spec size (Z.ldiff (size + 4095) 4095)); [|lia]. reflexivity.
Qed.

(** The windows variant maps such a file when it is no longer than the
    [1 << 30] bytes of the array type its address is converted to... *)
Lemma mmapFile_windows_accepts intBits K file size hnd addr :
  intBits = 32 ∨ intBits = 64 →
  Stat file = Some size → (0 < size ≤ 2 ^ 30)%Z →
  k_CreateFileMapping K (Fd file) (uint32 (Z.shiftr size 32)) (uint32 size) = Some hnd →
  k_MapViewOfFile K hnd = Some addr →
  mmapFile_windows intBits K file
  = (Returned (MmapData file (Slice addr size (2 ^ 30)) hnd),
     [SysCreateFileMapping (Fd file) (uint32 (Z.shiftr size 32)) (uint32 size);
      SysMapViewOfFile hnd]).
Proof.
  intros Hp HS [H0 H30] Hc Hv. unfold mmapFile_windows. rewrite HS.
  assert (Hfit : (size + 4095 < 2 ^ (intBits - 1))%Z).
  { change (2 ^ 30)%Z with 1073741824%Z in H30. destruct Hp as [-> | ->].
    - change (2 ^ (32 - 1))%Z with 2147483648%Z. lia.
    - change (2 ^ (64 - 1))%Z with 9223372036854775808%Z. lia. }
  destruct (fits_passes intBits Hp size ltac:(lia) Hfit) as (-> & _ & _).
  destruct (Z.eqb_spec size 0) as [-> | _]; [lia|].
  rewrite Hc, Hv. unfold slice_to, array_1_30. simpl.
  destruct (Z.leb_spec 0 size); [|lia].
  destruct (Z.leb_spec size (2 ^ 30)); [|lia]. reflexivity.
Qed.

(** ... and beyond that length the slice expression panics, after both
    system calls have been made. *)
Lemma mmapFile_windows_panics intBits K file size hnd addr :
  intBits = 32 ∨ intBits = 64 →
  Stat file = Some size → (2 ^ 30 < size)%Z → (size + 4095 < 2 ^ (intBits - 1))%Z →
  k_CreateFileMapping K (Fd file) (uint32 (Z.shiftr size 32)) (uint32 size) = Some hnd →
  k_MapViewOfFile K hnd = Some addr →
  mmapFile_windows intBits K file
  = (Panic "slice bounds out of range",
     [SysCreateFileMapping (Fd file) (uint32 (Z.shiftr size 32)) (uint32 size);
      SysMapViewOfFile hnd]).
Proof.
  intros Hp HS H30 Hfit Hc Hv. unfold mmapFile_windows. rewrite HS.
  change (2 ^ 30)%Z with 1073741824%Z in H30.
  destruct (fits_passes intBits Hp size ltac:(lia) Hfit) as (-> & _ & _).
  destruct (Z.eqb_spec size 0) as [-> | _]; [lia|].
  rewrite Hc, Hv. unfold slice_to, array_1_30. simpl.
  destruct (Z.leb_spec 0 size); [|lia].
  destruct (Z.leb_spec size (2 ^ 30)) as [Hle|]; [|reflexivity].
  change (2 ^ 30)%Z with 1073741824%Z in Hle. lia.
Qed.

(** C10 does not hold of the windows variant.  What holds: whenever either
    variant of [mmapFile] returns, the data slice has the length [Stat]
    reported; an empty file gives the nil slice without any mapping system
    call; a file whose size plus the page rounding is not an [int] of the
    platform is never returned.  A file that is not empty, whose rounded
    size is an [int], and for which the system calls succeed, is returned
    by the unix variant, with a slice of that length at the address the
    system gave.  The windows variant returns such a file only up to the
    [1 << 30] bytes of the array type it converts the address to: beyond
    them it has passed its guard and made both system calls when the slice
    expression [data[:size]] panics, and nothing is returned. *)
Theorem mmapFile_returns_what_it_maps intBits K file size :
  intBits = 32 ∨ intBits = 64 →
  Stat file = Some size → (0 ≤ size < 2 ^ 63)%Z →
  (∀ m tr, mmapFile_unix intBits K file = (Returned m, tr)
           ∨ mmapFile_windows intBits K file = (Returned m, tr) →
           len (d m) = size)
  ∧ (size = 0%Z →
     mmapFile_unix intBits K file = (Returned (MmapData file nil 0), [])
     ∧ mmapFile_windows intBits K file = (Returned (MmapData file nil 0), []))
  ∧ ((2 ^ (intBits - 1) ≤ size + 4095)%Z →
     is_returned (mmapFile_unix intBits K file).1 = false
     ∧ is_returned (mmapFile_windows intBits K file).1 = false)
  ∧ ((0 < size)%Z → (size + 4095 < 2 ^ (intBits - 1))%Z →
     too_large intBits size = false
     ∧ (∀ addr,
          k_mmap K (int intBits (Fd file)) (Z.ldiff (size + 4095) 4095) = Some addr →
          ∃ m tr, mmapFile_unix intBits K file = (Returned m, tr)
            ∧ len (d m) = size ∧ ptr (d m) = addr)
     ∧ (∀ hnd addr,
          k_CreateFileMapping K (Fd file) (uint32 (Z.shiftr size 32)) (uint32 size)
          = Some hnd →
          k_MapViewOfFile K hnd = Some addr →
          if (size <=? 2 ^ 30)%Z
          then ∃ m tr, mmapFile_windows intBits K file = (Returned m, tr)
                 ∧ len (d m) = size ∧ ptr (d m) = addr ∧ h m = hnd
          else mmapFile_windows intBits K file
               = (Panic "slice bounds out of range",
                  [SysCreateFileMapping (Fd file) (uint32 (Z.shiftr size 32))
                                        (uint32 size);
                   SysMapViewOfFile hnd]))).
Proof.
  intros Hp HS Hs. split; [|split; [|split]].
  - intros m tr [H | H].
    + by destruct (mmapFile_unix_returned intBits K Hp file size m tr HS Hs H).
    + by destruct (mmapFile_windows_returned intBits K Hp file size m tr HS Hs H).
  - intros ->.
    destruct (fits_passes intBits Hp 0 ltac:(lia)) as (Htl & Hn & _).
    { destruct Hp as [-> | ->]; reflexivity. }
    unfold mmapFile_unix, mmapFile_windows. rewrite HS, Htl. cbv zeta.
    rewrite Hn. done.
  - intros Hbig. split.
    + destruct (mmapFile_unix intBits K file) as [[m| | |] tr] eqn:H; try done.
      destruct (mmapFile_unix_returned intBits K Hp file size m tr HS Hs H) as (_ & _ & ?).
      lia.
    + destruct (mmapFile_windows intBits K file) as [[m| | |] tr] eqn:H; try done.
      destruct (mmapFile_windows_returned intBits K Hp file size m tr HS Hs H) as (_ & _ & ?).
      lia.
  - intros H0 Hfit. split; [|split].
    + by destruct (fits_passes intBits Hp size ltac:(lia) Hfit).
    + intros addr Hk.
      rewrite (mmapFile_unix_accepts intBits K file size addr Hp HS H0 Hfit Hk).
      by eexists _, _.
    + intros hnd addr Hc Hv. destruct (Z.leb_spec size (2 ^ 30)) as [Hle | Hgt].
      * rewrite (mmapFile_windows_accepts intBits K file size hnd addr Hp HS
                   (conj H0 Hle) Hc Hv).
        by eexists _, _.
      * exact (mmapFile_windows_panics intBits K file size hnd addr Hp HS Hgt Hfit Hc Hv).
Qed.

Lemma mmapFile_returns_what_it_maps_witness :
  (∃ m tr, mmapFile_unix 64 Toy.willing (Toy.file_of_size 10) = (Returned m, tr)
     ∧ len (d m) = 10%Z ∧ ptr (d m) = 4096%Z)
  ∧ (∃ m tr, mmapFile_windows 64 Toy.willing (Toy.file_of_size 10) = (Returned m, tr)
       ∧ len (d m) = 10%Z ∧ ptr (d m) = 65536%Z ∧ h m = 7%Z).
Proof.
  destruct (mmapFile_returns_what_it_maps 64 Toy.willing (Toy.file_of_size 10) 10
              (or_intror eq_refl) eq_refl ltac:(split; [lia | reflexivity]))
    as (_ & _ & _ & Hacc).
  destruct (Hacc ltac:(lia) ltac:(reflexivity)) as (_ & Hu & Hw).
  split; [exact (Hu 4096%Z eq_refl) | exact (Hw 7%Z 65536%Z eq_refl eq_refl)].
Defined.

(** C10 fails on the windows variant: a file of [2^30 + 1] bytes passes the
    guard on a 32-bit and on a 64-bit platform, and the unix variant
    returns a slice of that length for it; the windows variant makes both
    system calls and panics, so that it returns no slice of that length. *)
Lemma mmapFile_windows_panics_on_accepted_file :
  let file := Toy.file_of_size (2 ^ 30 + 1) in
  Stat file = Some (2 ^ 30 + 1)%Z
  ∧ too_large 32 (2 ^ 30 + 1) = false ∧ too_large 64 (2 ^ 30 + 1) = false
  ∧ (∃ m tr, mmapFile_unix 64 Toy.willing file = (Returned m, tr)
       ∧ len (d m) = (2 ^ 30 + 1)%Z)
  ∧ mmapFile_windows 64 Toy.willing file
    = (Panic "slice bounds out of range",
       [SysCreateFileMapping 3 0 (2 ^ 30 + 1); SysMapViewOfFile 7])
  ∧ mmapFile_windows 32 Toy.willing file
    = (Panic "slice bounds out of range",
       [SysCreateFileMapping 3 0 (2 ^ 30 + 1); SysMapViewOfFile 7])
  ∧ ¬ ∃ m tr, mmapFile_windows 64 Toy.willing file = (Returned m, tr)
        ∧ len (d m) = (2 ^ 30 + 1)%Z.
Proof.
  intros file.
  assert (Hw : mmapFile_windows 64 Toy.willing file
               = (Panic "slice bounds out of range",
                  [SysCreateFileMapping 3 0 (2 ^ 30 + 1); SysMapViewOfFile 7]))
    by reflexivity.
  split_and!; [reflexivity | reflexivity | reflexivity | | exact Hw | reflexivity |].
  - eexists _, _. split; reflexivity.
  - intros (m & tr & Hr & _). rewrite Hw in Hr. discriminate.
Qed.

Example mmapFile_unix_32_too_large :
  mmapFile_unix 32 Toy.willing (Toy.file_of_size (2 ^ 31 - 4095))
  = (Fatal "index: too large for mmap", []).
Proof. reflexivity. Qed.

Example mmapFile_windows_over_1GiB :
  mmapFile_windows 64 Toy.willing (Toy.file_of_size (2 ^ 30 + 1))
  = (Panic "slice bounds out of range",
     [SysCreateFileMapping 3 0 (2 ^ 30 + 1); SysMapViewOfFile 7]).
Proof. reflexivity. Qed.
End MmapProperties.

(** ** The builder *)

Section CindexFacts.
Import Cindex.
Context `{C : Collaborators}.


(** *** The consumer goroutine *)

Lemma consumer_spec msgs seen ix :
  ∃ new, iw_added (consumer msgs seen ix) = iw_added ix ++ new
    ∧ iw_file (consumer msgs seen ix) = iw_file ix
    ∧ iw_paths (consumer msgs seen ix) = iw_paths ix
    ∧ NoDup new
    ∧ ∀ p, p ∈ new ↔ p ∈ delivered msgs ∧ default false (seen !! p) = false.
Proof.
  revert seen ix. induction msgs as [|[path|] msgs IH]; intros seen ix; simpl.
  - exists []. rewrite app_nil_r. split_and!; [done..|constructor|].
    intros p. split; [by intros ?%elem_of_nil | by intros [?%elem_of_nil _]].
  - destruct (default false (seen !! path)) eqn:Hseen; simpl.
    + destruct (IH seen ix) as (new & Hadd & Hf & Hp & Hnd & Hin).
      exists new. split_and!; [done..|].
      intros p. rewrite Hin, elem_of_cons. split; [intros [? ?]; by split; [right|] |].
      intros [[-> | Hel] Hs]; [congruence | done].
    + destruct (IH (<[path := true]> seen) (AddFile ix path))
        as (new & Hadd & Hf & Hp & Hnd & Hin).
      exists (path :: new). simpl in Hadd. rewrite <- app_assoc in Hadd.
      split_and!; [done..| |].
      * constructor; [|done]. intros Hel. apply Hin in Hel as [_ Hel].
        by rewrite lookup_insert_eq in Hel.
      * intros p. rewrite !elem_of_cons, Hin. split.
        -- intros [-> | [Hel Hs]]; [by split; [left|]|].
           split; [by right|].
           destruct (decide (path = p)) as [-> | Hne].
           ++ by rewrite lookup_insert_eq in Hs.
           ++ by rewrite lookup_insert_ne in Hs.
        -- intros [[-> | Hel] Hs]; [by left|].
           destruct (decide (p = path)) as [-> | Hne]; [by left|right].
           split; [done|]. by rewrite lookup_insert_ne.
  - exists []. rewrite app_nil_r. split_and!; [done..|constructor|].
    intros p. split; [by intros ?%elem_of_nil | by intros [?%elem_of_nil _]].
Qed.

(** *** The monad *)

Lemma bind_inv {A B} (m : M A) (k : A → M B) w o w'' :
  (m ≫= k) w = (o, w'') →
  (∃ a w', m w = (Returned a, w') ∧ k a w' = (o, w''))
  ∨ (∃ o', m w = (o', w'') ∧ is_returned o' = false ∧ is_returned o = false).
Proof.
  unfold mbind, M_bind. destruct (m w) as [[a|msg|msg|c] w'] eqn:Hm.
  - intros Hk. left. by exists a, w'.
  - intros [= <- <-]. right. by eexists.
  - intros [= <- <-]. right. by eexists.
  - intros [= <- <-]. right. by eexists.
Qed.

Lemma bind_aborted {A B} (m : M A) (k : A → M B) w o' w' :
  m w = (o', w') → is_returned o' = false → (m ≫= k) w = (recast o', w').
Proof. unfold mbind, M_bind. intros -> Hn. by destruct o'. Qed.

Lemma bind_returned {A B} (m : M A) (k : A → M B) w a w' :
  m w = (Returned a, w') → (m ≫= k) w = k a w'.
Proof. unfold mbind, M_bind. by intros ->. Qed.

(** Two continuations that agree on what the first part hands them give
    the same run. *)
Lemma bind_cong {A B} (m : M A) (k1 k2 : A → M B) w :
  (∀ a w', m w = (Returned a, w') → k1 a w' = k2 a w') →
  (m ≫= k1) w = (m ≫= k2) w.
Proof.
  intros Hk. unfold mbind, M_bind.
  destruct (m w) as [[a|msg|msg|c] w'] eqn:Hm; try done. by apply Hk.
Qed.

(** *** What a step leaves alone *)

Lemma holds_states master n w :
  holds master n w ↔ Forall (λ fs : filesystem, fs !! master = Some n) (states w).
Proof. unfold holds, states. by rewrite Forall_reverse. Qed.

Lemma holds_now master n w : holds master n w → w_fs w !! master = Some n.
Proof. unfold holds. by intros [? ?]%Forall_cons. Qed.

Lemma quiet_ret {A} master n (a : A) : quiet master n (ret a).
Proof. intros w o w' [= <- <-] Hh. done. Qed.

Lemma quiet_mret {A} master n (a : A) : quiet master n (mret a : M A).
Proof. intros w o w' [= <- <-] Hh. done. Qed.

Lemma quiet_fatal {A} master n s : quiet master n (fatal s : M A).
Proof. intros w o w' [= <- <-] Hh. done. Qed.

Lemma quiet_panic {A} master n s : quiet master n (panic s : M A).
Proof. intros w o w' [= <- <-] Hh. done. Qed.

Lemma quiet_bind {A B} master n (m : M A) (k : A → M B) :
  quiet master n m → (∀ a, quiet master n (k a)) → quiet master n (m ≫= k).
Proof.
  intros Hm Hk w o w'' Hrun Hh.
  apply bind_inv in Hrun as [(a & w' & Hma & Hka) | (o' & Hma & _ & _)].
  - destruct (Hm _ _ _ Hma Hh) as [Hh' He'].
    destruct (Hk a _ _ _ Hka Hh') as [Hh'' He'']. split; [done | congruence].
  - by apply (Hm _ _ _ Hma Hh).
Qed.

Lemma quiet_get_fs master n : quiet master n get_fs.
Proof. intros w o w' [= <- <-] Hh. done. Qed.

Lemma quiet_get_env master n : quiet master n get_env.
Proof. intros w o w' [= <- <-] Hh. done. Qed.

Lemma quiet_log master n s : quiet master n (log s).
Proof. intros w o w' [= <- <-] Hh. done. Qed.

Lemma quiet_print master n s : quiet master n (print s).
Proof. intros w o w' [= <- <-] Hh. done. Qed.

Lemma quiet_record master n c : quiet master n (record c).
Proof. intros w o w' [= <- <-] Hh. done. Qed.

Lemma quiet_set_fs master n fs :
  fs !! master = Some n → quiet master n (set_fs fs).
Proof.
  intros Hfs w o w' [= <- <-] Hh. split; [|done].
  unfold holds in *. simpl. by constructor.
Qed.

Lemma quiet_foldr {A} master n (f : A → M unit) (l : list A) :
  (∀ a, quiet master n (f a)) →
  quiet master n (foldr (λ a k, f a ;; k) (ret tt) l).
Proof.
  intros Hf. induction l as [|a l IH]; simpl.
  - apply quiet_ret.
  - apply quiet_bind; [apply Hf | intros _; apply IH].
Qed.

(** *** Actions that leave the world as it is *)

Lemma inert_quiet {A} master n (m : M A) : inert m → quiet master n m.
Proof. intros Hm w o w' Hrun Hh. by rewrite (Hm _ _ _ Hrun). Qed.

Lemma inert_ret {A} (a : A) : inert (ret a).
Proof. by intros w o w' [= <- <-]. Qed.

Lemma inert_fatal {A} s : inert (fatal s : M A).
Proof. by intros w o w' [= <- <-]. Qed.

Lemma inert_panic {A} s : inert (panic s : M A).
Proof. by intros w o w' [= <- <-]. Qed.

Lemma inert_bind {A B} (m : M A) (k : A → M B) :
  inert m → (∀ a, inert (k a)) → inert (m ≫= k).
Proof.
  intros Hm Hk w o w'' Hrun.
  apply bind_inv in Hrun as [(a & w' & Hma & Hka) | (o' & Hma & _ & _)].
  - rewrite (Hk _ _ _ _ Hka). by apply (Hm _ _ _ Hma).
  - by apply (Hm _ _ _ Hma).
Qed.

Lemma inert_get_fs : inert get_fs.
Proof. by intros w o w' [= <- <-]. Qed.

Lemma inert_get_env : inert get_env.
Proof. by intros w o w' [= <- <-]. Qed.

Lemma inert_os_Stat path : inert (os_Stat path).
Proof. apply inert_bind; [apply inert_get_fs | intros; apply inert_ret]. Qed.

Lemma inert_File : inert File.
Proof. apply inert_bind; [apply inert_get_env | intros; apply inert_ret]. Qed.

Lemma inert_Open_Paths file : inert (Open_Paths file).
Proof.
  apply inert_bind; [apply inert_os_Stat|].
  intros [[d| |]|]; try apply inert_fatal.
  destruct (ix_Paths d); [apply inert_ret | apply inert_fatal].
Qed.

Lemma inert_populate args : inert (populate args).
Proof.
  unfold populate. destruct (length args =? 0)%nat; [|apply inert_ret].
  apply inert_bind; [apply inert_File|]. intros master.
  apply inert_bind; [apply inert_Open_Paths|]. intros; apply inert_ret.
Qed.

Lemma inert_load_exclude flags : inert (load_exclude flags).
Proof.
  unfold load_exclude. destruct (String.eqb (exclude flags) ""); [apply inert_ret|].
  destruct (String.length (exclude flags) <? 2)%nat; [apply inert_panic|].
  apply inert_bind.
  - destruct (String.eqb _ "~/"); [|apply inert_ret].
    destruct HomeDir; [apply inert_ret | apply inert_fatal].
  - intros path. apply inert_bind; [apply inert_os_Stat|].
    intros [[d| |]|]; try apply inert_fatal. apply inert_ret.
Qed.

(** *** What the primitives do *)

Lemma states_with_fs w fs : states (with_fs w fs) = states w ++ [fs].
Proof. unfold states. simpl. by rewrite reverse_cons. Qed.

Lemma holds_with_fs master n w fs :
  holds master n w → fs !! master = Some n → holds master n (with_fs w fs).
Proof. intros Hh Hfs. unfold holds. simpl. by constructor. Qed.

Lemma File_run w : File w = (Returned (index_File (w_env w)), w).
Proof. reflexivity. Qed.

Lemma os_Stat_run path w : os_Stat path w = (Returned (w_fs w !! path), w).
Proof. reflexivity. Qed.

Lemma os_Remove_run path w :
  os_Remove path w
  = match w_fs w !! path with
    | None | Some (Dir false) => (Returned false, w)
    | Some _ => (Returned true, with_fs w (delete path (w_fs w)))
    end.
Proof.
  unfold os_Remove, mbind, M_bind, get_fs. simpl.
  destruct (w_fs w !! path) as [[d|[]|]|]; reflexivity.
Qed.

Lemma os_Create_run path d w :
  os_Create path d w
  = match w_fs w !! path with
    | Some (Dir _) => (Returned false, w)
    | _ => (Returned true, with_fs w (<[path := Regular d]> (w_fs w)))
    end.
Proof.
  unfold os_Create, mbind, M_bind, get_fs. simpl.
  destruct (w_fs w !! path) as [[?|?|]|]; reflexivity.
Qed.

Lemma quiet_os_Remove master n path : path ≠ master → quiet master n (os_Remove path).
Proof.
  intros Hne w o w' Hrun Hh. rewrite os_Remove_run in Hrun.
  pose proof (holds_now _ _ _ Hh) as Hnow.
  destruct (w_fs w !! path) as [[d|[]|]|]; injection Hrun as <- <-;
    try done; (split; [|done]); apply holds_with_fs; try done;
    by rewrite lookup_delete_ne.
Qed.

Lemma quiet_os_Create master n path d :
  path ≠ master → quiet master n (os_Create path d).
Proof.
  intros Hne w o w' Hrun Hh. rewrite os_Create_run in Hrun.
  pose proof (holds_now _ _ _ Hh) as Hnow.
  destruct (w_fs w !! path) as [[?|?|]|]; injection Hrun as <- <-;
    try done; (split; [|done]); apply holds_with_fs; try done;
    by rewrite lookup_insert_ne.
Qed.

Lemma quiet_start_profile master n path :
  path ≠ master → quiet master n (start_profile path).
Proof.
  intros Hne. unfold start_profile. destruct (String.eqb path ""); [apply quiet_ret|].
  apply quiet_bind; [by apply quiet_os_Create|].
  intros [|]; [apply quiet_ret | apply quiet_fatal].
Qed.

Lemma quiet_log_abs_errors master n args : quiet master n (log_abs_errors args).
Proof.
  unfold log_abs_errors. induction args as [|a args IH]; simpl; [apply quiet_ret|].
  destruct (Abs a); [done|]. apply quiet_bind; [apply quiet_log | by intros _].
Qed.

Lemma quiet_Flush master n ix : iw_file ix ≠ master → quiet master n (Flush ix).
Proof.
  intros Hne w o w' Hrun Hh. unfold Flush, mbind, M_bind, record, get_fs, set_fs in Hrun.
  simpl in Hrun. injection Hrun as <- <-. split; [|done].
  pose proof (holds_now _ _ _ Hh) as Hnow.
  unfold holds in *. simpl. constructor; [by rewrite lookup_insert_ne | done].
Qed.

Lemma quiet_Create master n file : file ≠ master → quiet master n (Create file).
Proof.
  intros Hne. apply quiet_bind; [by apply quiet_os_Create|].
  intros [|]; [apply quiet_mret | apply quiet_fatal].
Qed.

Lemma Create_file file w ix w' :
  Create file w = (Returned ix, w') → iw_file ix = file.
Proof.
  unfold Create. intros Hrun.
  apply bind_inv in Hrun as [([|] & w1 & _ & Hk) | (o' & _ & _ & ?)]; [| |done].
  - by injection Hk as <- _.
  - done.
Qed.

Lemma quiet_bind_with {A B} master n (m : M A) (k : A → M B) (Q : A → Prop) :
  quiet master n m →
  (∀ w a w', m w = (Returned a, w') → Q a) →
  (∀ a, Q a → quiet master n (k a)) →
  quiet master n (m ≫= k).
Proof.
  intros Hm HQ Hk w o w'' Hrun Hh.
  apply bind_inv in Hrun as [(a & w' & Hma & Hka) | (o' & Hma & _ & _)].
  - destruct (Hm _ _ _ Hma Hh) as [Hh' He'].
    destruct (Hk a (HQ _ _ _ Hma) _ _ _ Hka Hh') as [Hh'' He''].
    split; [done | congruence].
  - by apply (Hm _ _ _ Hma Hh).
Qed.

Lemma quiet_build master n file patterns flags args :
  file ≠ master → quiet master n (build file patterns flags args).
Proof.
  intros Hne. unfold build.
  apply (quiet_bind_with master n _ _ (λ ix, iw_file ix = file)).
  - by apply quiet_Create.
  - intros w ix w'. apply Create_file.
  - intros ix Hfile.
    apply quiet_bind; [apply quiet_record|]. intros _.
    apply quiet_bind; [apply quiet_get_fs|]. intros fs.
    apply quiet_bind; [apply quiet_foldr; intros; apply quiet_log|]. intros _.
    apply quiet_bind; [apply quiet_foldr; intros; apply quiet_record|]. intros _.
    apply quiet_bind; [apply quiet_log|]. intros _.
    apply quiet_Flush.
    destruct (consumer_spec (messages fs patterns flags args) ∅ (AddPaths ix args))
      as (new & _ & Hf & _). rewrite Hf. simpl. by rewrite Hfile.
Qed.

Lemma Merge_run fault dst src1 src2 w :
  Merge fault dst src1 src2 w
  = match w_fs w !! src1, w_fs w !! src2 with
    | Some (Regular d1), Some (Regular d2) =>
      match merged d1 d2 with
      | Some d =>
        if fault then (Fatal "merge", with_fs w (<[dst := Regular partial]> (w_fs w)))
        else (Returned tt, with_fs w (<[dst := Regular d]> (w_fs w)))
      | None => (Fatal "merge: corrupt index", w)
      end
    | _, _ => (Fatal "merge: open", w)
    end.
Proof.
  unfold Merge, mbind, M_bind, get_fs. simpl.
  destruct (w_fs w !! src1) as [[d1|?|]|]; try reflexivity;
    destruct (w_fs w !! src2) as [[d2|?|]|]; try reflexivity.
  destruct (merged d1 d2); [|reflexivity]. destruct fault; reflexivity.
Qed.

Lemma quiet_Merge master n fault dst src1 src2 :
  dst ≠ master → quiet master n (Merge fault dst src1 src2).
Proof.
  intros Hne w o w' Hrun Hh. rewrite Merge_run in Hrun.
  pose proof (holds_now _ _ _ Hh) as Hnow.
  destruct (w_fs w !! src1) as [[d1|?|]|]; try (by injection Hrun as <- <-);
    destruct (w_fs w !! src2) as [[d2|?|]|]; try (by injection Hrun as <- <-).
  destruct (merged d1 d2); [|by injection Hrun as <- <-].
  destruct fault; injection Hrun as <- <-; (split; [|done]);
    apply holds_with_fs; try done; by rewrite lookup_insert_ne.
Qed.

Lemma apply_indexPath_run flags w :
  apply_indexPath flags w
  = if String.eqb (indexPath flags) "" then (Returned tt, w)
    else if has_nul (indexPath flags) then (Fatal "setenv", w)
    else (Returned tt,
          {| w_env := <["CSEARCHINDEX" := indexPath flags]> (w_env w);
             w_fs := w_fs w; w_hist := w_hist w; w_out := w_out w;
             w_log := w_log w; w_calls := w_calls w |}).
Proof.
  unfold apply_indexPath. destruct (String.eqb (indexPath flags) ""); [done|].
  unfold mbind, M_bind, get_env, Setenv. simpl.
  destruct (has_nul (indexPath flags)); reflexivity.
Qed.

Lemma apply_indexPath_spec master n flags w o w' :
  apply_indexPath flags w = (o, w') → holds master n w →
  holds master n w' ∧ w_calls w' = w_calls w ∧ w_log w' = w_log w
  ∧ w_fs w' = w_fs w ∧ w_hist w' = w_hist w
  ∧ (is_returned o = true → w_env w' = resolved_env (w_env w) flags).
Proof.
  rewrite apply_indexPath_run. unfold resolved_env.
  destruct (String.eqb (indexPath flags) ""); [by intros [= <- <-]|].
  destruct (has_nul (indexPath flags)); by intros [= <- <-].
Qed.

(** *** File names *)

Lemma tilde_ne s : s +:+ "~" ≠ s.
Proof.
  induction s as [|a s IH]; [done|].
  change (String a s +:+ "~") with (String a (s +:+ "~")). congruence.
Qed.

Lemma tilde_tilde_ne s : (s +:+ "~") +:+ "~" ≠ s.
Proof.
  induction s as [|a s IH]; [done|].
  change ((String a s +:+ "~") +:+ "~") with (String a ((s +:+ "~") +:+ "~")).
  congruence.
Qed.

(** *** The end of a build that merges *)

Lemma os_Rename_run fault old new w :
  os_Rename fault old new w
  = if fault then (Returned false, w) else
    match w_fs w !! old, w_fs w !! new with
    | None, _ => (Returned false, w)
    | Some _, Some (Dir _) => (Returned false, w)
    | Some n, _ => (Returned true, with_fs w (<[new := n]> (delete old (w_fs w))))
    end.
Proof.
  unfold os_Rename, mbind, M_bind, get_fs. simpl. destruct fault; [done|].
  destruct (w_fs w !! old) as [n|]; [|done].
  destruct (w_fs w !! new) as [[?|?|]|]; reflexivity.
Qed.

Lemma replace_master_run faults file master w d0 m :
  w_fs w !! master = Some (Regular d0) →
  w_fs w !! (file +:+ "~") = Some (Regular m) →
  file +:+ "~" ≠ master →
  replace_master faults file master w
  = if rename_fault faults
    then (Fatal "failed to merge indexes", with_fs w (delete master (w_fs w)))
    else (Returned tt,
          with_fs (with_fs w (delete master (w_fs w)))
                  (<[master := Regular m]>
                     (delete (file +:+ "~") (delete master (w_fs w))))).
Proof.
  intros Hm Hd Hne. unfold replace_master.
  rewrite (bind_returned _ _ _ true (with_fs w (delete master (w_fs w))))
    by (by rewrite os_Remove_run, Hm).
  rewrite (bind_returned _ _ _ (negb (rename_fault faults))
             (if rename_fault faults then with_fs w (delete master (w_fs w))
              else with_fs (with_fs w (delete master (w_fs w)))
                     (<[master := Regular m]>
                        (delete (file +:+ "~") (delete master (w_fs w)))))).
  - by destruct (rename_fault faults).
  - rewrite os_Rename_run. destruct (rename_fault faults); [done|]. simpl.
    rewrite lookup_delete_ne by done. rewrite Hd, lookup_delete_eq. done.
Qed.

(** The merge, the removal of the first temporary and the replacement of
    the master, from a world in which the master is as it was. *)
Lemma merge_and_replace_run faults master d0 w5 o w6 :
  holds master (Regular d0) w5 →
  (log ("merge " +:+ master +:+ " " +:+ (master +:+ "~")) ;;
   Merge (merge_fault faults) ((master +:+ "~") +:+ "~") master (master +:+ "~") ;;
   os_Remove (master +:+ "~") ;;
   replace_master faults (master +:+ "~") master) w5 = (o, w6) →
  (is_returned o = false ∧ holds master (Regular d0) w6)
  ∨ (∃ w1 m dnew,
       holds master (Regular d0) w1
       ∧ w_fs w1 !! ((master +:+ "~") +:+ "~") = Some (Regular m)
       ∧ merged d0 dnew = Some m
       ∧ w6 = (if rename_fault faults
               then with_fs w1 (delete master (w_fs w1))
               else with_fs (with_fs w1 (delete master (w_fs w1)))
                      (<[master := Regular m]>
                         (delete ((master +:+ "~") +:+ "~")
                                 (delete master (w_fs w1)))))
       ∧ o = if rename_fault faults then Fatal "failed to merge indexes"
             else Returned tt).
Proof.
  intros Hh Hrun.
  apply bind_inv in Hrun as [([] & wa & Ha & Hrun) | (o' & Ha & Hx & Ho)];
    [|by injection Ha as <- <-].
  injection Ha as <-.
  apply bind_inv in Hrun as [([] & wb & Hb & Hrun) | (o' & Hb & _ & Ho)].
  2:{ left. split; [done|].
      by apply (quiet_Merge master _ _ _ _ _ (tilde_tilde_ne master) _ _ _ Hb). }
  pose proof (quiet_Merge master _ _ _ _ _ (tilde_tilde_ne master) _ _ _ Hb Hh) as [Hhb _].
  rewrite Merge_run in Hb. simpl in Hb.
  rewrite (holds_now _ _ _ Hh) in Hb.
  destruct (w_fs w5 !! (master +:+ "~")) as [[dnew|?|]|] eqn:Hnew; try done.
  destruct (merged d0 dnew) as [m|] eqn:Hmerged; [|done].
  destruct (merge_fault faults); [done|]. injection Hb as <-.
  apply bind_inv in Hrun as [(b & wc & Hc & Hrun) | (o' & Hc & _ & Ho)].
  2:{ left. split; [done|].
      by apply (quiet_os_Remove master _ _ (tilde_ne master) _ _ _ Hc). }
  pose proof (quiet_os_Remove master _ _ (tilde_ne master) _ _ _ Hc Hhb) as [Hhc _].
  assert (Hdst : w_fs wc !! ((master +:+ "~") +:+ "~") = Some (Regular m)).
  { rewrite os_Remove_run in Hc. simpl in Hc.
    rewrite lookup_insert_ne in Hc by apply tilde_ne. simpl in Hc. rewrite Hnew in Hc.
    injection Hc as <- <-. simpl.
    rewrite lookup_delete_ne by (intros Heq; by apply (tilde_ne (master +:+ "~"))).
    by rewrite lookup_insert_eq. }
  rewrite (replace_master_run _ _ _ _ d0 m (holds_now _ _ _ Hhc) Hdst
             (tilde_tilde_ne master)) in Hrun.
  right. exists wc, m, dnew. split_and!; [done..| |];
    destruct (rename_fault faults); by injection Hrun.
Qed.


(** C1 (amended): in a build that merges (no [-reset], the master
    exists), the merged index is written to a second temporary file and
    renamed into place.  Either the run ends fatally before the
    replacement (a failed merge among the causes) and the master is in
    every state of the file system the regular file it was; or the master
    is so in every state up to and including the removal of the first
    temporary, is then removed, and the rename puts the merged index in
    its place.  When the rename fails the run is fatal, no file is left at
    the master's path, and the merged index stays in the second
    temporary. *)
Theorem merging_build_keeps_master_until_replaced faults flags args env fs d0 o w :
  listFlag flags = false → resetFlag flags = false →
  cpuProfile flags ≠ index_File (resolved_env env flags) →
  fs !! index_File (resolved_env env flags) = Some (Regular d0) →
  main faults flags args (initial env fs) = (o, w) →
  let master := index_File (resolved_env env flags) in
  (is_returned o = false
   ∧ Forall (λ s : filesystem, s !! master = Some (Regular d0)) (states w))
  ∨ (∃ w1 m dnew,
       Forall (λ s : filesystem, s !! master = Some (Regular d0)) (states w1)
       ∧ w_fs w1 !! ((master +:+ "~") +:+ "~") = Some (Regular m)
       ∧ merged d0 dnew = Some m
       ∧ states w
         = states w1 ++ delete master (w_fs w1)
             :: (if rename_fault faults then []
                 else [<[master := Regular m]>
                         (delete ((master +:+ "~") +:+ "~")
                                 (delete master (w_fs w1)))])
       ∧ o = if rename_fault faults then Fatal "failed to merge indexes"
             else Returned tt).
Proof.
  intros Hlist Hreset Hprof Hfs Hrun master. fold master in Hprof, Hfs.
  assert (Hh0 : holds master (Regular d0) (initial env fs)).
  { unfold holds. simpl. by repeat constructor. }
  unfold main in Hrun. rewrite Hlist, Hreset in Hrun. simpl in Hrun.
  (* -indexpath *)
  apply bind_inv in Hrun as [([] & w1 & H1 & Hrun) | (o' & H1 & _ & Ho)].
  2:{ left. split; [done|]. apply holds_states.
      by apply (apply_indexPath_spec master _ _ _ _ _ H1). }
  destruct (apply_indexPath_spec master _ _ _ _ _ H1 Hh0) as (Hh1 & _ & _ & _ & _ & He1).
  specialize (He1 eq_refl). simpl in He1.
  (* -cpuprofile *)
  apply bind_inv in Hrun as [([] & w2 & H2 & Hrun) | (o' & H2 & _ & Ho)].
  2:{ left. split; [done|]. apply holds_states.
      by apply (quiet_start_profile master _ _ Hprof _ _ _ H2). }
  destruct (quiet_start_profile master _ _ Hprof _ _ _ H2 Hh1) as [Hh2 He2].
  (* -exclude *)
  apply bind_inv in Hrun as [(patterns & w3 & H3 & Hrun) | (o' & H3 & _ & Ho)].
  2:{ left. split; [done|]. apply holds_states.
      by rewrite (inert_load_exclude _ _ _ _ H3). }
  apply inert_load_exclude in H3 as ->.
  (* the arguments *)
  apply bind_inv in Hrun as [(args' & w3 & H3 & Hrun) | (o' & H3 & _ & Ho)].
  2:{ left. split; [done|]. apply holds_states.
      by rewrite (inert_populate _ _ _ _ H3). }
  apply inert_populate in H3 as ->.
  apply bind_inv in Hrun as [([] & w3 & H3 & Hrun) | (o' & H3 & _ & Ho)].
  2:{ left. split; [done|]. apply holds_states.
      by apply (quiet_log_abs_errors master _ _ _ _ _ H3). }
  destruct (quiet_log_abs_errors master _ _ _ _ _ H3 Hh2) as [Hh3 He3].
  (* the master and its scratch file *)
  rewrite (bind_returned _ _ _ _ _ (File_run _)) in Hrun.
  rewrite He3, He2, He1 in Hrun. fold master in Hrun.
  rewrite (bind_returned _ _ _ _ _ (os_Stat_run _ _)) in Hrun.
  rewrite (holds_now _ _ _ Hh3) in Hrun.
  rewrite (bind_returned _ _ _ false w3 eq_refl) in Hrun. simpl in Hrun.
  (* the build *)
  apply bind_inv in Hrun as [([] & w4 & H4 & Hrun) | (o' & H4 & _ & Ho)].
  2:{ left. split; [done|]. apply holds_states.
      by apply (quiet_build master _ _ _ _ _ (tilde_ne master) _ _ _ H4). }
  destruct (quiet_build master _ _ _ _ _ (tilde_ne master) _ _ _ H4 Hh3) as [Hh4 _].
  (* the merge *)
  pose proof Hrun as Hcopy.
  apply bind_inv in Hrun as [([] & w5 & H5 & Hrun) | (o' & H5 & Ho' & Ho)].
  - injection Hrun as <- <-.
    destruct (merge_and_replace_run _ _ _ _ _ _ Hh4 H5)
      as [[? _] | (wr & m & dnew & Hhr & Hd & Hm & -> & Heq)]; [done|].
    right. exists wr, m, dnew. destruct (rename_fault faults); [done|].
    split_and!; [by apply holds_states | done | done | | done].
    unfold states. simpl. by rewrite !reverse_cons, <- app_assoc.
  - destruct (merge_and_replace_run _ _ _ _ _ _ Hh4 H5)
      as [[_ Hh5] | (wr & m & dnew & Hhr & Hd & Hm & -> & ->)].
    + left. split; [done|]. by apply holds_states.
    + right. exists wr, m, dnew. destruct (rename_fault faults); [|done].
      rewrite (bind_aborted _ _ _ _ _ H5 eq_refl) in Hcopy.
      injection Hcopy as <-.
      split_and!; [by apply holds_states | done | done | | done].
      unfold states. simpl. by rewrite !reverse_cons.
Qed.

(** The older variant of [main], in a build that merges: the master is
    as it was until the rename puts the merged index in its place, and the
    answer of the rename is not looked at. *)
Lemma main_old_merging_run faults flags args env fs d0 o w :
  listFlag flags = false → resetFlag flags = false →
  cpuProfile flags ≠ index_File env →
  fs !! index_File env = Some (Regular d0) →
  main_old faults flags args (initial env fs) = (o, w) →
  let master := index_File env in
  (is_returned o = false
   ∧ Forall (λ s : filesystem, s !! master = Some (Regular d0)) (states w))
  ∨ (∃ w1 m dnew,
       Forall (λ s : filesystem, s !! master = Some (Regular d0)) (states w1)
       ∧ w_fs w1 !! ((master +:+ "~") +:+ "~") = Some (Regular m)
       ∧ merged d0 dnew = Some m
       ∧ states w
         = states w1 ++ (if rename_fault faults then []
                         else [<[master := Regular m]>
                                 (delete ((master +:+ "~") +:+ "~") (w_fs w1))])
       ∧ o = Returned tt).
Proof.
  intros Hlist Hreset Hprof Hfs Hrun master. fold master in Hprof, Hfs.
  assert (Hh0 : holds master (Regular d0) (initial env fs)).
  { unfold holds. simpl. by repeat constructor. }
  unfold main_old in Hrun. rewrite Hlist, Hreset in Hrun. simpl in Hrun.
  apply bind_inv in Hrun as [([] & w2 & H2 & Hrun) | (o' & H2 & _ & Ho)].
  2:{ left. split; [done|]. apply holds_states.
      by apply (quiet_start_profile master _ _ Hprof _ _ _ H2). }
  destruct (quiet_start_profile master _ _ Hprof _ _ _ H2 Hh0) as [Hh2 He2].
  simpl in He2.
  apply bind_inv in Hrun as [(args' & w3 & H3 & Hrun) | (o' & H3 & _ & Ho)].
  2:{ left. split; [done|]. apply holds_states.
      by rewrite (inert_populate _ _ _ _ H3). }
  apply inert_populate in H3 as ->.
  apply bind_inv in Hrun as [([] & w3 & H3 & Hrun) | (o' & H3 & _ & Ho)].
  2:{ left. split; [done|]. apply holds_states.
      by apply (quiet_log_abs_errors master _ _ _ _ _ H3). }
  destruct (quiet_log_abs_errors master _ _ _ _ _ H3 Hh2) as [Hh3 He3].
  rewrite (bind_returned _ _ _ _ _ (File_run _)) in Hrun.
  rewrite He3, He2 in Hrun. fold master in Hrun.
  rewrite (bind_returned _ _ _ _ _ (os_Stat_run _ _)) in Hrun.
  rewrite (holds_now _ _ _ Hh3) in Hrun. simpl in Hrun.
  apply bind_inv in Hrun as [([] & w4 & H4 & Hrun) | (o' & H4 & _ & Ho)].
  2:{ left. split; [done|]. apply holds_states.
      by apply (quiet_build master _ _ _ _ _ (tilde_ne master) _ _ _ H4). }
  destruct (quiet_build master _ _ _ _ _ (tilde_ne master) _ _ _ H4 Hh3) as [Hh4 _].
  apply bind_inv in Hrun as [([] & w5 & H5 & Hrun) | (o' & H5 & Ho' & Ho)].
  2:{ left. split; [done|]. apply holds_states.
      apply bind_inv in H5 as [([] & wa & Ha & H5) | (o'' & Ha & Hx & _)];
        [|by injection Ha as <- <-].
      injection Ha as <-.
      apply bind_inv in H5 as [([] & wb & Hb & H5) | (o'' & Hb & _ & _)];
        [|by apply (quiet_Merge master _ _ _ _ _ (tilde_tilde_ne master) _ _ _ Hb)].
      exfalso.
      apply bind_inv in H5 as [(b & wc & Hc & H5) | (o'' & Hc & Hx & _)].
      2:{ rewrite os_Remove_run in Hc. by repeat case_match; simplify_eq. }
      apply bind_inv in H5 as [(b' & wd & Hd & H5) | (o'' & Hd & Hx & _)].
      2:{ rewrite os_Rename_run in Hd. by repeat case_match; simplify_eq. }
      injection H5 as <- <-. done. }
  injection Hrun as <- <-.
  apply bind_inv in H5 as [([] & wa & Ha & H5) | (o'' & Ha & _ & Hr)]; [|discriminate Hr].
  injection Ha as <-.
  apply bind_inv in H5 as [([] & wb & Hb & H5) | (o'' & Hb & _ & Hr)]; [|discriminate Hr].
  pose proof (quiet_Merge master _ _ _ _ _ (tilde_tilde_ne master) _ _ _ Hb Hh4) as [Hhb _].
  rewrite Merge_run in Hb. simpl in Hb.
  rewrite (holds_now _ _ _ Hh4) in Hb.
  destruct (w_fs w4 !! (master +:+ "~")) as [[dnew|?|]|] eqn:Hnew; try done.
  destruct (merged d0 dnew) as [m|] eqn:Hmerged; [|done].
  destruct (merge_fault faults); [done|]. injection Hb as <-.
  apply bind_inv in H5 as [(b & wc & Hc & H5) | (o'' & Hc & _ & Hr)]; [|discriminate Hr].
  pose proof (quiet_os_Remove master _ _ (tilde_ne master) _ _ _ Hc Hhb) as [Hhc _].
  assert (Hdst : w_fs wc !! ((master +:+ "~") +:+ "~") = Some (Regular m)).
  { rewrite os_Remove_run in Hc. simpl in Hc.
    rewrite lookup_insert_ne in Hc by apply tilde_ne. simpl in Hc. rewrite Hnew in Hc.
    injection Hc as <- <-. simpl.
    rewrite lookup_delete_ne by (intros Heq; by apply (tilde_ne (master +:+ "~"))).
    by rewrite lookup_insert_eq. }
  apply bind_inv in H5 as [(b' & wd & Hd & H5) | (o'' & Hd & _ & Hr)]; [|discriminate Hr].
  injection H5 as <-.
  right. exists wc, m, dnew. split_and!; [by apply holds_states | done..| |done].
  rewrite os_Rename_run in Hd. destruct (rename_fault faults).
  { injection Hd as _ <-. simpl. by rewrite app_nil_r. }
  rewrite Hdst, (holds_now _ _ _ Hhc) in Hd. injection Hd as _ <-.
  unfold states. simpl. by rewrite !reverse_cons.
Qed.

(** *** The arguments *)

Lemma foldl_snoc (acc l : list string) : foldl (λ a p, a ++ [p]) acc l = acc ++ l.
Proof.
  revert acc. induction l as [|x l IH]; intros acc; simpl.
  - by rewrite app_nil_r.
  - by rewrite IH, <- app_assoc.
Qed.

Lemma Open_Paths_run file w :
  Open_Paths file w
  = match w_fs w !! file with
    | Some (Regular d) =>
      match ix_Paths d with
      | Some ps => (Returned ps, w)
      | None => (Fatal ("corrupt index " +:+ file), w)
      end
    | _ => (Fatal ("open " +:+ file), w)
    end.
Proof.
  unfold Open_Paths, mbind, M_bind, os_Stat, get_fs. simpl.
  destruct (w_fs w !! file) as [[d|?|]|]; try reflexivity.
  destruct (ix_Paths d); reflexivity.
Qed.

Lemma populate_none w d ps :
  w_fs w !! index_File (w_env w) = Some (Regular d) → ix_Paths d = Some ps →
  populate [] w = (Returned ps, w).
Proof.
  intros Hm Hp. unfold populate. simpl.
  rewrite (bind_returned _ _ _ _ _ (File_run _)).
  rewrite (bind_returned _ _ _ ps w) by (by rewrite Open_Paths_run, Hm, Hp).
  by rewrite foldl_snoc.
Qed.

Lemma drop_empty_id l : "" ∉ l → drop_empty l = l.
Proof.
  destruct l as [|a l]; [done|]. intros Hn. simpl.
  destruct (String.eqb_spec a ""); [|done]. subst. exfalso. apply Hn. by left.
Qed.

Lemma normalise_fixed ps :
  (∀ p, p ∈ ps → Abs p = Some p ∧ p ≠ "") → normalise ps ≡ₚ ps.
Proof.
  intros Hps. unfold normalise.
  assert (Habs : abs_args ps = ps).
  { unfold abs_args. induction ps as [|p ps IH]; [done|]. simpl.
    destruct (Hps p ltac:(by left)) as [-> _]. simpl. f_equal. apply IH.
    intros q Hq. apply Hps. by right. }
  rewrite Habs. rewrite drop_empty_id.
  - apply merge_sort_Permutation.
  - unfold sort_Strings. rewrite merge_sort_Permutation.
    intros Hin. by destruct (Hps _ Hin).
Qed.

(** *** The calls on the index writer *)

Lemma silent_ret {A} (a : A) : silent (ret a).
Proof. by intros w o w' [= <- <-]. Qed.

Lemma silent_fatal {A} s : silent (fatal s : M A).
Proof. by intros w o w' [= <- <-]. Qed.

Lemma silent_bind {A B} (m : M A) (k : A → M B) :
  silent m → (∀ a, silent (k a)) → silent (m ≫= k).
Proof.
  intros Hm Hk w o w'' Hrun.
  apply bind_inv in Hrun as [(a & w' & Hma & Hka) | (o' & Hma & _ & _)].
  - rewrite (Hk _ _ _ _ Hka). by apply (Hm _ _ _ Hma).
  - by apply (Hm _ _ _ Hma).
Qed.

Lemma inert_silent {A} (m : M A) : inert m → silent m.
Proof. intros Hm w o w' Hrun. by rewrite (Hm _ _ _ Hrun). Qed.

Lemma silent_set_fs fs : silent (set_fs fs).
Proof. by intros w o w' [= <- <-]. Qed.

Lemma silent_set_env e : silent (set_env e).
Proof. by intros w o w' [= <- <-]. Qed.

Lemma silent_log s : silent (log s).
Proof. by intros w o w' [= <- <-]. Qed.

Lemma silent_print s : silent (print s).
Proof. by intros w o w' [= <- <-]. Qed.

Lemma silent_foldr {A} (f : A → M unit) (l : list A) :
  (∀ a, silent (f a)) → silent (foldr (λ a k, f a ;; k) (ret tt) l).
Proof.
  intros Hf. induction l as [|a l IH]; simpl; [apply silent_ret|].
  apply silent_bind; [apply Hf | by intros _].
Qed.

Lemma silent_os_Create path d : silent (os_Create path d).
Proof.
  apply silent_bind; [apply inert_silent, inert_get_fs|]. intros fs.
  destruct (fs !! path) as [[?|?|]|]; try apply silent_ret;
    (apply silent_bind; [apply silent_set_fs | intros; apply silent_ret]).
Qed.

Lemma silent_os_Remove path : silent (os_Remove path).
Proof.
  apply silent_bind; [apply inert_silent, inert_get_fs|]. intros fs.
  destruct (fs !! path) as [[?|[]|]|]; try apply silent_ret;
    (apply silent_bind; [apply silent_set_fs | intros; apply silent_ret]).
Qed.

Lemma silent_os_Rename fault old new : silent (os_Rename fault old new).
Proof.
  apply silent_bind; [apply inert_silent, inert_get_fs|]. intros fs.
  destruct fault; [apply silent_ret|].
  destruct (fs !! old) as [n|]; [|apply silent_ret].
  destruct (fs !! new) as [[?|?|]|]; try apply silent_ret;
    (apply silent_bind; [apply silent_set_fs | intros; apply silent_ret]).
Qed.

Lemma silent_apply_indexPath flags : silent (apply_indexPath flags).
Proof.
  unfold apply_indexPath. destruct (String.eqb _ ""); [apply silent_ret|].
  apply silent_bind; [apply inert_silent, inert_get_env|]. intros env.
  destruct (Setenv _ _ _); [apply silent_set_env | apply silent_fatal].
Qed.

Lemma silent_start_profile path : silent (start_profile path).
Proof.
  unfold start_profile. destruct (String.eqb path ""); [apply silent_ret|].
  apply silent_bind; [apply silent_os_Create|].
  intros [|]; [apply silent_ret | apply silent_fatal].
Qed.

Lemma silent_log_abs_errors args : silent (log_abs_errors args).
Proof.
  unfold log_abs_errors. induction args as [|a args IH]; simpl; [apply silent_ret|].
  destruct (Abs a); [done|]. apply silent_bind; [apply silent_log | by intros _].
Qed.

Lemma silent_Merge fault dst src1 src2 : silent (Merge fault dst src1 src2).
Proof.
  apply silent_bind; [apply inert_silent, inert_get_fs|]. intros fs.
  destruct (fs !! src1) as [[d1|?|]|]; try apply silent_fatal;
    destruct (fs !! src2) as [[d2|?|]|]; try apply silent_fatal.
  destruct (merged d1 d2); [|apply silent_fatal].
  destruct fault; [|apply silent_set_fs].
  apply silent_bind; [apply silent_set_fs | intros; apply silent_fatal].
Qed.

Lemma silent_replace_master faults file master :
  silent (replace_master faults file master).
Proof.
  apply silent_bind; [apply silent_os_Remove|]. intros _.
  apply silent_bind; [apply silent_os_Rename|].
  intros [|]; [apply silent_ret | apply silent_fatal].
Qed.

Lemma silent_print_all (ps : list string) :
  silent (foldr (λ arg k, print arg ;; k) (ret tt) ps).
Proof. apply silent_foldr. intros; apply silent_print. Qed.

Lemma silent_shapes {A} R (m : M A) : silent m → shapes R m.
Proof. intros Hm w o w' Hrun Hc. left. by rewrite (Hm _ _ _ Hrun). Qed.

Lemma shapes_bind_l {A B} R (m : M A) (k : A → M B) (Q : A → Prop) :
  silent m → (∀ w a w', m w = (Returned a, w') → Q a) →
  (∀ a, Q a → shapes R (k a)) → shapes R (m ≫= k).
Proof.
  intros Hm HQ Hk w o w'' Hrun Hc.
  apply bind_inv in Hrun as [(a & w' & Hma & Hka) | (o' & Hma & _ & _)].
  - apply (Hk a (HQ _ _ _ Hma) _ _ _ Hka). by rewrite (Hm _ _ _ Hma).
  - left. by rewrite (Hm _ _ _ Hma).
Qed.

Lemma shapes_bind_r {A B} R (m : M A) (k : A → M B) :
  shapes R m → (∀ a, silent (k a)) → shapes R (m ≫= k).
Proof.
  intros Hm Hk w o w'' Hrun Hc.
  apply bind_inv in Hrun as [(a & w' & Hma & Hka) | (o' & Hma & _ & _)].
  - rewrite (Hk _ _ _ _ Hka). by apply (Hm _ _ _ Hma).
  - by apply (Hm _ _ _ Hma).
Qed.

Lemma foldr_record_run (l : list string) w :
  foldr (λ p k, record (CallAddFile p) ;; k) (ret tt) l w
  = (Returned tt,
     {| w_env := w_env w; w_fs := w_fs w; w_hist := w_hist w; w_out := w_out w;
        w_log := w_log w; w_calls := w_calls w ++ (CallAddFile <$> l) |}).
Proof.
  revert w. induction l as [|p l IH]; intros w; simpl.
  - rewrite app_nil_r. by destruct w.
  - unfold mbind, M_bind, record at 1. rewrite IH. simpl.
    by rewrite <- app_assoc.
Qed.

(** The calls of a build: [AddPaths] on the arguments, [AddFile] on the
    files the consumer lets through, [Flush]. *)
Lemma shapes_build file patterns flags args :
  shapes (λ roots, roots = args) (build file patterns flags args).
Proof.
  intros w o w' Hrun Hc. unfold build in Hrun.
  apply bind_inv in Hrun as [(ix & w1 & H1 & Hrun) | (o' & H1 & _ & _)].
  2:{ left. rewrite <- Hc. apply (silent_bind _ _ (silent_os_Create _ _)) in H1; [done|].
      intros [|]; [by intros ? ? ? [= <- <-] | apply silent_fatal]. }
  assert (Hc1 : w_calls w1 = []).
  { rewrite <- Hc. apply (silent_bind _ _ (silent_os_Create _ _)) in H1; [done|].
    intros [|]; [by intros ? ? ? [= <- <-] | apply silent_fatal]. }
  assert (Hix : iw_added ix = []).
  { unfold Create in H1.
    apply bind_inv in H1 as [([|] & w0 & _ & Hk) | (o' & _ & _ & ?)]; [| |done].
    - by injection Hk as <- _.
    - done. }
  apply bind_inv in Hrun as [([] & w2 & H2 & Hrun) | (o' & H2 & Hx & _)];
    [|by injection H2 as <- <-].
  injection H2 as <-.
  apply bind_inv in Hrun as [(fs & w3 & H3 & Hrun) | (o' & H3 & Hx & _)];
    [|by injection H3 as <- <-].
  injection H3 as <- <-.
  apply bind_inv in Hrun as [([] & w4 & H4 & Hrun) | (o' & H4 & Hx & _)].
  2:{ exfalso. clear -H4 Hx. revert H4. generalize (w_fs w1). intros fs0. revert Hx.
      match goal with |- _ → ?m ?w = _ → _ => generalize w end.
      induction args as [|a args IH]; intros w0 Hx H4; simpl in H4.
      - injection H4 as <- <-. done.
      - unfold mbind, M_bind, log at 1 in H4. simpl in H4. by apply IH in H4. }
  pose proof (silent_foldr (λ arg, log ("index " +:+ arg)) args
                (λ a, silent_log _) _ _ _ H4) as Hc4. simpl in Hc4.
  rewrite Hc1 in Hc4. simpl in Hc4.
  set (ix' := consumer _ _ _) in Hrun.
  rewrite (bind_returned _ _ _ _ _ (foldr_record_run _ _)) in Hrun.
  unfold mbind, M_bind, log, Flush, record, get_fs, set_fs in Hrun. simpl in Hrun.
  injection Hrun as <- <-. simpl. rewrite Hc4. right.
  destruct (consumer_spec (messages (w_fs w1) patterns flags args) ∅ (AddPaths ix args))
    as (new & Hadd & _ & _ & Hnd & _).
  exists args, (iw_added ix'). split; [done|]. split.
  - unfold ix'. rewrite Hadd. simpl. by rewrite Hix.
  - done.
Qed.

Lemma shaped_mono (R R' : list string → Prop) calls :
  (∀ roots, R roots → R' roots) → shaped R calls → shaped R' calls.
Proof.
  intros HR [-> | (roots & added & Hr & Hnd & ->)]; [by left|].
  right. exists roots, added. auto.
Qed.

Lemma shapes_mono {A} (R R' : list string → Prop) (m : M A) :
  (∀ roots, R roots → R' roots) → shapes R m → shapes R' m.
Proof. intros HR Hm w o w' Hrun Hc. eapply shaped_mono; [done|]. by eapply Hm. Qed.

Lemma populate_given args w a w' :
  populate args w = (Returned a, w') → args ≠ [] → a = args.
Proof.
  unfold populate. destruct args as [|x args]; [done|]. simpl.
  by intros [= <- <-].
Qed.

Lemma shapes_main faults flags args :
  shapes (λ roots, args ≠ [] → roots = normalise args) (main faults flags args).
Proof.
  unfold main.
  apply (shapes_bind_l _ _ _ (λ _, True)); [apply silent_apply_indexPath | done |].
  intros [] _. destruct (listFlag flags).
  { apply silent_shapes.
    apply silent_bind; [apply inert_silent, inert_File|]. intros master.
    apply silent_bind; [apply inert_silent, inert_os_Stat|].
    intros [[d| |]|]; try apply silent_fatal.
    apply silent_bind; [apply inert_silent, inert_Open_Paths|].
    intros ps. apply silent_print_all. }
  apply (shapes_bind_l _ _ _ (λ _, True)); [apply silent_start_profile | done |].
  intros [] _. destruct (resetFlag flags && _).
  { apply silent_shapes.
    apply silent_bind; [apply inert_silent, inert_File|]. intros master.
    apply silent_bind; [apply inert_silent, inert_os_Stat|].
    intros [[d| |]|]; try apply silent_fatal; try apply silent_ret.
    apply silent_bind; [apply silent_os_Remove | intros; apply silent_ret]. }
  apply (shapes_bind_l _ _ _ (λ _, True));
    [apply inert_silent, inert_load_exclude | done |].
  intros patterns _.
  apply (shapes_bind_l _ _ _ (λ a, args ≠ [] → a = args));
    [apply inert_silent, inert_populate | apply populate_given |].
  intros args' Hargs.
  apply (shapes_bind_l _ _ _ (λ _, True)); [apply silent_log_abs_errors | done |].
  intros [] _.
  apply (shapes_bind_l _ _ _ (λ _, True)); [apply inert_silent, inert_File | done |].
  intros master _.
  apply (shapes_bind_l _ _ _ (λ _, True)); [apply inert_silent, inert_os_Stat | done |].
  intros st _.
  apply (shapes_bind_l _ _ _ (λ _, True)).
  { destruct st as [[d| |]|]; try apply silent_fatal; apply silent_ret. }
  { done. }
  intros reset _.
  apply shapes_bind_r.
  - eapply shapes_mono; [|apply shapes_build].
    intros roots -> Hne. by rewrite (Hargs Hne).
  - intros []. apply silent_bind; [|intros; apply silent_log].
    destruct (negb reset); [|apply silent_ret].
    apply silent_bind; [apply silent_log|]. intros _.
    apply silent_bind; [apply silent_Merge|]. intros _.
    apply silent_bind; [apply silent_os_Remove|]. intros _.
    apply silent_replace_master.
Qed.

Lemma shapes_main_old faults flags args :
  shapes (λ roots, args ≠ [] → roots = normalise args) (main_old faults flags args).
Proof.
  unfold main_old. destruct (listFlag flags).
  { apply silent_shapes.
    apply silent_bind; [apply inert_silent, inert_File|]. intros master.
    apply silent_bind; [apply inert_silent, inert_Open_Paths|].
    intros ps. apply silent_print_all. }
  apply (shapes_bind_l _ _ _ (λ _, True)); [apply silent_start_profile | done |].
  intros [] _. destruct (resetFlag flags && _).
  { apply silent_shapes.
    apply silent_bind; [apply inert_silent, inert_File|]. intros master.
    apply silent_bind; [apply silent_os_Remove | intros; apply silent_ret]. }
  apply (shapes_bind_l _ _ _ (λ a, args ≠ [] → a = args));
    [apply inert_silent, inert_populate | apply populate_given |].
  intros args' Hargs.
  apply (shapes_bind_l _ _ _ (λ _, True)); [apply silent_log_abs_errors | done |].
  intros [] _.
  apply (shapes_bind_l _ _ _ (λ _, True)); [apply inert_silent, inert_File | done |].
  intros master _.
  apply (shapes_bind_l _ _ _ (λ _, True)); [apply inert_silent, inert_os_Stat | done |].
  intros st _.
  apply shapes_bind_r.
  - eapply shapes_mono; [|apply shapes_build].
    intros roots -> Hne. by rewrite (Hargs Hne).
  - intros []. apply silent_bind; [|intros; apply silent_log].
    destruct (negb _); [|apply silent_ret].
    apply silent_bind; [apply silent_log|]. intros _.
    apply silent_bind; [apply silent_Merge|]. intros _.
    apply silent_bind; [apply silent_os_Remove|]. intros _.
    apply silent_bind; [apply silent_os_Rename | intros; apply silent_ret].
Qed.

(** In calls of that shape no file is added twice. *)
Lemma filter_other_files p (l : list string) :
  p ∉ l → filter (λ c, c = CallAddFile p) (CallAddFile <$> l) = [].
Proof.
  induction l as [|y l IH]; intros Hp; [done|].
  rewrite fmap_cons, filter_cons, decide_False.
  - apply IH. intros Hin. apply Hp. by right.
  - intros [= ->]. apply Hp. by left.
Qed.

Lemma shaped_once R calls p :
  shaped R calls → length (filter (λ c, c = CallAddFile p) calls) ≤ 1.
Proof.
  intros [-> | (roots & added & _ & Hnd & ->)]; [simpl; lia|].
  rewrite filter_cons, decide_False by done.
  rewrite filter_app, length_app.
  assert (Hf : filter (λ c, c = CallAddFile p) [CallFlush] = [])
    by (by rewrite filter_cons, decide_False).
  rewrite Hf. simpl. rewrite Nat.add_0_r. clear -Hnd.
  induction Hnd as [|x l Hx Hnd IH]; [simpl; lia|].
  rewrite fmap_cons, filter_cons.
  destruct (decide (CallAddFile x = CallAddFile p)) as [[= ->]|Hne]; [|done].
  rewrite (filter_other_files p l Hx). simpl. lia.
Qed.

(** *** What the builder does *)

(** C3: whatever arrives over the walker channel, the consumer calls
    [AddFile] at most once per distinct path: the files it adds are the
    delivered paths without repetition; and in any run of either variant
    of [main] the index writer gets no path twice. *)
Theorem consumer_adds_each_path_once msgs ix :
  (∃ new, iw_added (consumer msgs ∅ ix) = iw_added ix ++ new
     ∧ NoDup new
     ∧ ∀ p, p ∈ new ↔ p ∈ delivered msgs)
  ∧ ∀ faults flags args env fs o w p,
      main faults flags args (initial env fs) = (o, w)
      ∨ main_old faults flags args (initial env fs) = (o, w) →
      length (filter (λ c, c = CallAddFile p) (w_calls w)) ≤ 1.
Proof.
  split.
  - destruct (consumer_spec msgs ∅ ix) as (new & Hadd & _ & _ & Hnd & Hin).
    exists new. split_and!; [done..|].
    intros p. rewrite Hin, lookup_empty. simpl. split; [by intros [? _] | by intros ?].
  - intros faults flags args env fs o w p [Hrun | Hrun].
    + eapply shaped_once, (shapes_main _ _ _ _ _ _ Hrun). done.
    + eapply shaped_once, (shapes_main_old _ _ _ _ _ _ Hrun). done.
Qed.

(** C7: with [-reset] and no path arguments (and without [-list]) the
    builder makes no call on the index writer, and a run that returns leaves
    no file at the resolved index path.  Without a profile, a regular file
    at the resolved index path is deleted and nothing else changes, and when
    nothing is there the run changes nothing.  (The newer variant refuses a
    path that is no regular file; the older one hands any path to
    [os.Remove].) *)
Theorem reset_without_paths_removes_index faults flags env fs :
  listFlag flags = false → resetFlag flags = true →
  (∀ o w, main faults flags [] (initial env fs) = (o, w) →
          w_calls w = []
          ∧ (o = Returned tt → w_fs w !! index_File (w_env w) = None))
  ∧ (cpuProfile flags = "" → has_nul (indexPath flags) = false →
  (let master := index_File (resolved_env env flags) in
   let r := main faults flags [] (initial env fs) in
   w_calls r.2 = [] ∧ w_log r.2 = []
   ∧ match fs !! master with
     | None => r.1 = Returned tt ∧ states r.2 = [fs]
     | Some (Regular _) => r.1 = Returned tt ∧ states r.2 = [fs; delete master fs]
     | Some _ => r.1 = Fatal ("Invalid index path " +:+ master) ∧ states r.2 = [fs]
     end)
  ∧ (let master := index_File env in
     let r := main_old faults flags [] (initial env fs) in
     w_calls r.2 = [] ∧ w_log r.2 = [] ∧ r.1 = Returned tt
     ∧ match fs !! master with
       | None => states r.2 = [fs]
       | Some (Regular _) => states r.2 = [fs; delete master fs]
       | Some _ => True
       end)).
Proof.
  intros Hlist Hreset. split; [|intros Hprof Hnul; split].
  - intros o w Hrun. unfold main in Hrun. rewrite Hlist, Hreset in Hrun.
    simpl in Hrun.
    apply bind_inv in Hrun as [([] & w1 & H1 & Hrun) | (o' & H1 & _ & Ho)].
    2:{ split; [by rewrite (silent_apply_indexPath _ _ _ _ H1)|]. by intros ->. }
    pose proof (silent_apply_indexPath _ _ _ _ H1) as Hc1. simpl in Hc1.
    apply bind_inv in Hrun as [([] & w2 & H2 & Hrun) | (o' & H2 & _ & Ho)].
    2:{ split; [by rewrite (silent_start_profile _ _ _ _ H2)|]. by intros ->. }
    pose proof (silent_start_profile _ _ _ _ H2) as Hc2.
    rewrite (bind_returned _ _ _ _ _ (File_run _)) in Hrun.
    rewrite (bind_returned _ _ _ _ _ (os_Stat_run _ _)) in Hrun.
    destruct (w_fs w2 !! index_File (w_env w2)) as [[d|e|]|] eqn:Hm.
    + rewrite (bind_returned _ _ _ true (with_fs w2 (delete (index_File (w_env w2)) (w_fs w2))))
        in Hrun by (by rewrite os_Remove_run, Hm).
      injection Hrun as <- <-. simpl. split; [congruence|].
      intros _. apply lookup_delete_eq.
    + injection Hrun as <- <-. split; [congruence | done].
    + injection Hrun as <- <-. split; [congruence | done].
    + injection Hrun as <- <-. split; [congruence | done].
  - intros master r.
    assert (Hr : r = match fs !! master with
                     | None => (Returned tt, initial (resolved_env env flags) fs)
                     | Some (Regular _) =>
                       (Returned tt,
                        with_fs (initial (resolved_env env flags) fs) (delete master fs))
                     | Some _ => (Fatal ("Invalid index path " +:+ master),
                                  initial (resolved_env env flags) fs)
                     end).
    { unfold r, main. rewrite Hlist, Hreset, Hprof. simpl.
      rewrite (bind_returned _ _ _ tt (initial (resolved_env env flags) fs)).
      2:{ rewrite apply_indexPath_run, Hnul. unfold resolved_env, initial. simpl.
          by destruct (String.eqb (indexPath flags) ""). }
      rewrite (bind_returned _ _ _ tt (initial (resolved_env env flags) fs)) by done.
      rewrite (bind_returned _ _ _ _ _ (File_run _)).
      rewrite (bind_returned _ _ _ _ _ (os_Stat_run _ _)). simpl. fold master.
      destruct (fs !! master) as [[d|e|]|] eqn:Hm; try reflexivity.
      rewrite (bind_returned _ _ _ true
                 (with_fs (initial (resolved_env env flags) fs) (delete master fs)));
        [done|].
      rewrite os_Remove_run. simpl. by rewrite Hm. }
    rewrite Hr. destruct (fs !! master) as [[d|e|]|]; done.
  - intros master r.
    assert (Hr : r = match fs !! master with
                     | None | Some (Dir false) => (Returned tt, initial env fs)
                     | Some _ => (Returned tt, with_fs (initial env fs) (delete master fs))
                     end).
    { unfold r, main_old. rewrite Hlist, Hreset, Hprof. simpl.
      rewrite (bind_returned _ _ _ tt (initial env fs)) by done.
      rewrite (bind_returned _ _ _ _ _ (File_run _)). simpl. fold master.
      destruct (fs !! master) as [[d|[]|]|] eqn:Hm.
      - rewrite (bind_returned _ _ _ true (with_fs (initial env fs) (delete master fs)));
          [done|]. rewrite os_Remove_run. simpl. by rewrite Hm.
      - rewrite (bind_returned _ _ _ true (with_fs (initial env fs) (delete master fs)));
          [done|]. rewrite os_Remove_run. simpl. by rewrite Hm.
      - rewrite (bind_returned _ _ _ false (initial env fs)); [done|].
        rewrite os_Remove_run. simpl. by rewrite Hm.
      - rewrite (bind_returned _ _ _ true (with_fs (initial env fs) (delete master fs)));
          [done|]. rewrite os_Remove_run. simpl. by rewrite Hm.
      - rewrite (bind_returned _ _ _ false (initial env fs)); [done|].
        rewrite os_Remove_run. simpl. by rewrite Hm. }
    rewrite Hr. destruct (fs !! master) as [[d|[]|]|]; done.
Qed.
End CindexFacts.

Import Cindex.

(** C1, as stated, fails: the rename fails, the run is fatal, and the master
    that existed before the run is gone. *)
Lemma master_lost_when_rename_fails :
  let r := main (C := Toy.builder) Toy.rename_fails Toy.build_flags ["/src"]
                Toy.start in
  index_File Toy.env = "/idx"
  ∧ Toy.disk !! "/idx" = Some (Regular Toy.old_index)
  ∧ r.1 = Fatal "failed to merge indexes"
  ∧ w_fs r.2 !! "/idx" = None
  ∧ ¬ master_retained (C := Toy.builder) "/idx" Toy.old_index r.1 r.2.
Proof.
  intros r.
  assert (Ho : r.1 = Fatal "failed to merge indexes") by (vm_compute; reflexivity).
  assert (Hgone : w_fs r.2 !! "/idx" = None) by (vm_compute; reflexivity).
  split_and!; [vm_compute; reflexivity | vm_compute; reflexivity | exact Ho | exact Hgone |].
  unfold master_retained, intermediate. rewrite Ho. cbn [is_returned].
  intros Hkept. apply (holds_states (C := Toy.builder)), holds_now in Hkept.
  rewrite Hgone in Hkept. discriminate.
Qed.

Lemma merging_build_keeps_master_until_replaced_witness :
  let r := main (C := Toy.builder) Toy.rename_fails Toy.build_flags ["/src"]
                Toy.start in
  ∃ (w1 : World (C := Toy.builder)) (m : Toy.data),
    Forall (λ s : gmap string (node Toy.data), s !! "/idx" = Some (Regular Toy.old_index))
           (states w1)
    ∧ w_fs w1 !! "/idx~~" = Some (Regular m)
    ∧ states r.2 = states w1 ++ [delete "/idx" (w_fs w1)]
    ∧ r.1 = Fatal "failed to merge indexes".
Proof.
  intros r.
  destruct (merging_build_keeps_master_until_replaced (C := Toy.builder)
              Toy.rename_fails Toy.build_flags ["/src"] Toy.env Toy.disk Toy.old_index
              r.1 r.2 eq_refl eq_refl ltac:(discriminate) eq_refl
              (surjective_pairing r))
    as [[Hnr Hkept] | (w1 & m & dnew & Hkept & Hd & _ & Hs & Ho)].
  - apply (holds_states (C := Toy.builder)), holds_now in Hkept.
    vm_compute in Hkept. discriminate.
  - exists w1, m. split_and!; [exact Hkept | exact Hd | exact Hs | exact Ho].
Defined.

Lemma reset_without_paths_removes_index_witness :
  let r := main (C := Toy.builder) Toy.no_faults Toy.reset_flags [] Toy.start in
  w_calls r.2 = [] ∧ r.1 = Returned tt
  ∧ states r.2 = [Toy.disk; delete "/idx" Toy.disk].
Proof.
  intros r.
  destruct (proj1 (proj2 (reset_without_paths_removes_index (C := Toy.builder)
                            Toy.no_faults Toy.reset_flags Toy.env Toy.disk
                            eq_refl eq_refl) eq_refl eq_refl))
    as (Hc & _ & Hm).
  split; [exact Hc|]. exact Hm.
Defined.

(** The same build on the older variant: the failed rename goes unnoticed,
    and the master is still the file it was. *)
Example old_variant_keeps_master_when_rename_fails :
  let r := main_old (C := Toy.builder) Toy.rename_fails Toy.build_flags ["/src"]
                    Toy.start in
  r.1 = Returned tt ∧ w_fs r.2 !! "/idx" = Some (Regular Toy.old_index).
Proof. split; vm_compute; reflexivity. Qed.

(** * Further properties *)

(** ** Mapping and unmapping *)

Section UnmapFacts.
Import GoInt Mmap Unmap.
Local Open Scope Z_scope.

(** Every return of the unix [mmapFile]: an empty file gives the nil
    slice; any other file was mapped at the address the system gave, over
    the size rounded up to whole pages, and the slice shows [size] bytes of
    that. *)
Lemma mmapFile_unix_inv intBits K file size m tr :
  intBits = 32 ∨ intBits = 64 →
  Stat file = Some size → 0 ≤ size < 2 ^ 63 →
  mmapFile_unix intBits K file = (Returned m, tr) →
  (size = 0 ∧ tr = [] ∧ m = MmapData file nil 0)
  ∨ (0 < size
     ∧ ∃ addr L, tr = [SysMmap (int intBits (Fd file)) 0 L]
         ∧ k_mmap K (int intBits (Fd file)) L = Some addr
         ∧ L = 4096 * ((size + 4095) / 4096)
         ∧ m = MmapData file (Slice addr size L) 0).
Proof.
  intros Hp HS Hs. unfold mmapFile_unix. rewrite HS.
  destruct (too_large intBits size) eqn:Htl; [done|].
  destruct (passes_cases intBits Hp size Hs Htl) as [Hfit | [H64 Hwrap]].
  - destruct (fits_passes intBits Hp size (proj1 Hs) Hfit) as (_ & Hn & Hn').
    cbv zeta. rewrite Hn, Hn'. destruct (Z.eqb_spec size 0) as [-> | Hne].
    + intros [= <- <-]. by left.
    + unfold syscall_Mmap.
      destruct (Z.ldiff _ 4095 <=? 0) eqn:Hlen; [done|].
      destruct (k_mmap K _ _) as [addr|] eqn:Hk; simpl; [|done].
      unfold slice_to. simpl.
      destruct ((0 <=? size) && _) eqn:Hb; [|done].
      intros [= <- <-]. right. split; [lia|].
      exists addr, (Z.ldiff (size + 4095) 4095).
      split_and!; [done | done | apply ldiff_4095 | done].
  - pose proof (unix_wrapped_length intBits Hp size H64 Hs Hwrap) as Hneg.
    cbv zeta. destruct (int intBits size =? 0) eqn:Hz.
    + apply Z.eqb_eq in Hz. unfold int in Hz. subst intBits.
      rewrite wrap_id in Hz
        by (try lia; unfold in_range; change (2 ^ (64 - 1)) with (2 ^ 63); lia).
      change (2 ^ 63) with 9223372036854775808 in *. lia.
    + unfold syscall_Mmap. apply Z.leb_le in Hneg. rewrite Hneg. done.
Qed.

Lemma whole_pages size :
  let L := 4096 * ((size + 4095) / 4096) in
  L mod 4096 = 0 ∧ size ≤ L < size + 4096.
Proof.
  intros L. subst L. split.
  - rewrite Z.mul_comm. apply Z.mod_mul. lia.
  - pose proof (Z.div_mod (size + 4095) 4096 ltac:(lia)).
    pose proof (Z.mod_pos_bound (size + 4095) 4096 ltac:(lia)). lia.
Qed.

(** Every return of the windows [mmapFile]. *)
Lemma mmapFile_windows_inv intBits K file size m tr :
  Stat file = Some size →
  mmapFile_windows intBits K file = (Returned m, tr) →
  (size = 0 ∧ tr = [] ∧ m = MmapData file nil 0)
  ∨ (0 < size ≤ 2 ^ 30
     ∧ ∃ hnd addr,
         tr = [SysCreateFileMapping (Fd file) (uint32 (Z.shiftr size 32)) (uint32 size);
               SysMapViewOfFile hnd]
         ∧ k_CreateFileMapping K (Fd file) (uint32 (Z.shiftr size 32)) (uint32 size)
           = Some hnd
         ∧ k_MapViewOfFile K hnd = Some addr
         ∧ m = MmapData file (Slice addr size (2 ^ 30)) hnd).
Proof.
  intros HS. unfold mmapFile_windows. rewrite HS.
  destruct (too_large intBits size) eqn:Htl; [done|].
  destruct (Z.eqb_spec size 0) as [-> | Hne].
  - intros [= <- <-]. by left.
  - destruct (k_CreateFileMapping K _ _ _) as [hnd|] eqn:Hc; [|done].
    destruct (k_MapViewOfFile K hnd) as [addr|] eqn:Hv; [|done].
    unfold slice_to, array_1_30. simpl.
    destruct (Z.leb_spec 0 size); simpl; [|done].
    destruct (Z.leb_spec size (2 ^ 30)); [|done].
    intros [= <- <-]. right. split; [lia|]. by exists hnd, addr.
Qed.
End UnmapFacts.

Section UnmapProperties.
Import GoInt Mmap Unmap.
Local Open Scope Z_scope.

(** X1: whenever the unix [mmapFile] returns for a file that is not empty,
    it has made exactly one mapping call, at offset 0 and over a length that
    is a multiple of the page size 4096, not less than the file's size and
    less than a page more. *)
Theorem mmapFile_unix_maps_whole_pages intBits K file size m tr :
  intBits = 32 ∨ intBits = 64 →
  Stat file = Some size → 0 < size < 2 ^ 63 →
  mmapFile_unix intBits K file = (Returned m, tr) →
  ∃ L, tr = [SysMmap (int intBits (Fd file)) 0 L]
       ∧ L mod 4096 = 0 ∧ size ≤ L < size + 4096
       ∧ cap (d m) = L ∧ len (d m) = size.
Proof.
  intros Hp HS Hs Hrun.
  destruct (mmapFile_unix_inv intBits K file size m tr Hp HS ltac:(lia) Hrun)
    as [(-> & _) | (_ & addr & L & -> & _ & HL & ->)]; [lia|].
  exists L. destruct (whole_pages size) as [Hm Hb]. rewrite <- HL in Hm, Hb.
  split_and!; [done | done | lia | lia | done | done].
Qed.

Lemma mmapFile_unix_maps_whole_pages_witness :
  ∃ L, [SysMmap 3 0 4096] = [SysMmap (int 64 (Fd (Toy.file_of_size 10))) 0 L]
       ∧ L mod 4096 = 0 ∧ 10 ≤ L < 10 + 4096
       ∧ cap (Slice 4096 10 4096) = L ∧ len (Slice 4096 10 4096) = 10.
Proof.
  apply (mmapFile_unix_maps_whole_pages 64 Toy.willing (Toy.file_of_size 10) 10
           (MmapData (Toy.file_of_size 10) (Slice 4096 10 4096) 0) [SysMmap 3 0 4096]).
  - right. reflexivity.
  - reflexivity.
  - split; [lia | reflexivity].
  - reflexivity.
Defined.

(** X2: the windows [mmapFile] hands the size to [CreateFileMapping] as
    two 32-bit halves, high and low, that together are the size; the
    descriptor is the file's. *)
Theorem mmapFile_windows_splits_size intBits K file size o fd hi lo rest :
  Stat file = Some size → 0 ≤ size < 2 ^ 64 →
  mmapFile_windows intBits K file = (o, SysCreateFileMapping fd hi lo :: rest) →
  fd = Fd file ∧ 0 ≤ hi < 2 ^ 32 ∧ 0 ≤ lo < 2 ^ 32 ∧ hi * 2 ^ 32 + lo = size.
Proof.
  intros HS Hs Hrun.
  assert (Hcall : fd = Fd file ∧ hi = uint32 (Z.shiftr size 32) ∧ lo = uint32 size).
  { unfold mmapFile_windows in Hrun. rewrite HS in Hrun.
    destruct (too_large intBits size); [done|].
    destruct (size =? 0); [done|].
    destruct (k_CreateFileMapping K _ _ _) as [hnd|]; [|by injection Hrun as _ <- <- <-].
    destruct (k_MapViewOfFile K hnd) as [addr|]; [|by injection Hrun as _ <- <- <-].
    destruct (slice_to _ _); by injection Hrun as _ <- <- <-. }
  destruct Hcall as (-> & -> & ->). split; [done|].
  unfold uint32. rewrite Z.shiftr_div_pow2 by lia.
  change (2 ^ 64) with (2 ^ 32 * 2 ^ 32) in Hs.
  assert (Hhi : 0 ≤ size / 2 ^ 32 < 2 ^ 32).
  { split; [apply Z.div_pos; lia | apply Z.div_lt_upper_bound; lia]. }
  rewrite (Z.mod_small (size / 2 ^ 32)) by done.
  pose proof (Z.mod_pos_bound size (2 ^ 32) ltac:(lia)).
  pose proof (Z.div_mod size (2 ^ 32) ltac:(lia)). lia.
Qed.

Lemma mmapFile_windows_splits_size_witness :
  3 = Fd (Toy.file_of_size (2 ^ 32 + 5)) ∧ 0 ≤ 1 < 2 ^ 32 ∧ 0 ≤ 5 < 2 ^ 32
  ∧ 1 * 2 ^ 32 + 5 = 2 ^ 32 + 5.
Proof.
  apply (mmapFile_windows_splits_size 64 Toy.willing (Toy.file_of_size (2 ^ 32 + 5))
           (2 ^ 32 + 5) (Panic "slice bounds out of range") 3 1 5 [SysMapViewOfFile 7]).
  - reflexivity.
  - split; [lia | reflexivity].
  - reflexivity.
Defined.

(** X3: the unix [unmmapFile], on what [mmapFile] returned for a file that
    is not empty, hands [Munmap] the whole mapping: the address the system
    gave and the length that was mapped, not the file's size.  The wrapper
    of [Munmap] then accepts the slice, so the system is asked; the function
    returns whatever the answer, and only logs a failure. *)
Theorem unmmapFile_unix_releases_whole_mapping intBits K R file size m fd off L :
  intBits = 32 ∨ intBits = 64 →
  Stat file = Some size → 0 < size < 2 ^ 63 →
  mmapFile_unix intBits K file = (Returned m, [SysMmap fd off L]) →
  ∃ addr, k_mmap K fd L = Some addr
    ∧ syscall_Munmap R (Slice addr L L) = r_munmap R addr L
    ∧ unmmapFile_unix R m
      = (Returned tt,
         CallMunmap (Slice addr L L)
           :: (if r_munmap R addr L then [] else [CallLogPrintln "unmmapFile:"])).
Proof.
  intros Hp HS Hs Hrun.
  destruct (mmapFile_unix_inv intBits K file size m _ Hp HS ltac:(lia) Hrun)
    as [(-> & _) | (_ & addr & L' & [= -> -> ->] & Hk & HL & ->)]; [lia|].
  destruct (whole_pages size) as [_ Hb]. rewrite <- HL in Hb.
  exists addr. split; [done|].
  assert (Hw : syscall_Munmap R (Slice addr L' L') = r_munmap R addr L').
  { unfold syscall_Munmap. simpl.
    destruct (Z.eqb_spec L' 0); [lia|]. by rewrite Z.eqb_refl. }
  split; [done|].
  unfold unmmapFile_unix, slice_range. simpl.
  destruct (Z.leb_spec 0 L'); [|lia]. rewrite Z.leb_refl. simpl.
  rewrite Z.add_0_r, !Z.sub_0_r, Hw. by destruct (r_munmap R addr L').
Qed.

Lemma unmmapFile_unix_releases_whole_mapping_witness :
  ∃ addr, k_mmap Toy.willing 3 4096 = Some addr
    ∧ syscall_Munmap obliging (Slice addr 4096 4096) = r_munmap obliging addr 4096
    ∧ unmmapFile_unix obliging (MmapData (Toy.file_of_size 10) (Slice 4096 10 4096) 0)
      = (Returned tt,
         CallMunmap (Slice addr 4096 4096)
           :: (if r_munmap obliging addr 4096 then []
               else [CallLogPrintln "unmmapFile:"])).
Proof.
  apply (unmmapFile_unix_releases_whole_mapping 64 Toy.willing obliging
           (Toy.file_of_size 10) 10
           (MmapData (Toy.file_of_size 10) (Slice 4096 10 4096) 0) 3 0 4096).
  - right. reflexivity.
  - reflexivity.
  - split; [lia | reflexivity].
  - reflexivity.
Defined.

(** X4: on what either [mmapFile] returns for an empty file, the unix
    [unmmapFile] does not reach the system: the wrapper of [Munmap] refuses
    the empty slice, the refusal is logged and the function returns; the
    windows [unmmapFile] panics on [&mm.d[0]] before any call. *)
Theorem unmmapFile_of_empty_file intBits K R file mu mw tu tw :
  intBits = 32 ∨ intBits = 64 →
  Stat file = Some 0 →
  mmapFile_unix intBits K file = (Returned mu, tu) →
  mmapFile_windows intBits K file = (Returned mw, tw) →
  unmmapFile_unix R mu
  = (Returned tt, [CallMunmap nil; CallLogPrintln "unmmapFile:"])
  ∧ unmmapFile_windows R mw = (Panic "index out of range", []).
Proof.
  intros Hp HS Hu Hw.
  destruct (mmapFile_windows_inv intBits K file 0 mw tw HS Hw)
    as [(_ & _ & ->) | (? & _)]; [|lia].
  destruct (mmapFile_unix_inv intBits K file 0 mu tu Hp HS ltac:(lia) Hu)
    as [(_ & _ & ->) | (? & _)]; [|lia].
  split; reflexivity.
Qed.

Lemma unmmapFile_of_empty_file_witness :
  unmmapFile_unix obliging (MmapData (Toy.file_of_size 0) nil 0)
  = (Returned tt, [CallMunmap nil; CallLogPrintln "unmmapFile:"])
  ∧ unmmapFile_windows obliging (MmapData (Toy.file_of_size 0) nil 0)
    = (Panic "index out of range", []).
Proof.
  apply (unmmapFile_of_empty_file 64 Toy.willing obliging (Toy.file_of_size 0)
           _ _ [] []); [right|..]; reflexivity.
Defined.

(** X5: the windows [unmmapFile], on what [mmapFile] returned for a file
    that is not empty, gives back what was obtained, latest first: the view
    at the address [MapViewOfFile] answered, the handle [CreateFileMapping]
    answered, then the file.  It returns only when all three succeed; the
    first failure is fatal and nothing after it is released. *)
Theorem unmmapFile_windows_releases_in_order intBits K R file size m fd hi lo hnd :
  Stat file = Some size → 0 < size →
  mmapFile_windows intBits K file
  = (Returned m, [SysCreateFileMapping fd hi lo; SysMapViewOfFile hnd]) →
  ∃ addr, k_CreateFileMapping K fd hi lo = Some hnd
    ∧ k_MapViewOfFile K hnd = Some addr
    ∧ unmmapFile_windows R m
      = if negb (r_UnmapViewOfFile R addr)
        then (Fatal "UnmapViewOfFile", [CallUnmapViewOfFile addr])
        else if negb (r_CloseHandle R hnd)
        then (Fatal "CloseHandle", [CallUnmapViewOfFile addr; CallCloseHandle hnd])
        else (if negb (r_Close R (Fd file)) then Fatal "Close" else Returned tt,
              [CallUnmapViewOfFile addr; CallCloseHandle hnd; CallClose (Fd file)]).
Proof.
  intros HS H0 Hrun.
  destruct (mmapFile_windows_inv intBits K file size m _ HS Hrun)
    as [(-> & _) | (Hs & hnd' & addr & [= -> -> -> ->] & Hc & Hv & ->)]; [lia|].
  exists addr. split; [done|]. split; [done|].
  unfold unmmapFile_windows, addr_of_first. simpl.
  destruct (Z.ltb_spec 0 size); [|lia].
  destruct (r_UnmapViewOfFile R addr); simpl; [|done].
  destruct (r_CloseHandle R hnd'); simpl; [|done].
  by destruct (r_Close R (Fd file)).
Qed.

Lemma unmmapFile_windows_releases_in_order_witness :
  ∃ addr, k_CreateFileMapping Toy.willing 3 0 10 = Some 7
    ∧ k_MapViewOfFile Toy.willing 7 = Some addr
    ∧ unmmapFile_windows obliging
        (MmapData (Toy.file_of_size 10) (Slice 65536 10 (2 ^ 30)) 7)
      = if negb (r_UnmapViewOfFile obliging addr)
        then (Fatal "UnmapViewOfFile", [CallUnmapViewOfFile addr])
        else if negb (r_CloseHandle obliging 7)
        then (Fatal "CloseHandle", [CallUnmapViewOfFile addr; CallCloseHandle 7])
        else (if negb (r_Close obliging (Fd (Toy.file_of_size 10))) then Fatal "Close"
              else Returned tt,
              [CallUnmapViewOfFile addr; CallCloseHandle 7;
               CallClose (Fd (Toy.file_of_size 10))]).
Proof.
  apply (unmmapFile_windows_releases_in_order 64 Toy.willing obliging
           (Toy.file_of_size 10) 10
           (MmapData (Toy.file_of_size 10) (Slice 65536 10 (2 ^ 30)) 7) 3 0 10 7).
  - reflexivity.
  - lia.
  - reflexivity.
Defined.
End UnmapProperties.

(** ** The walker's callback *)

Section WalkerFacts.
Import Walker.
Local Open Scope Z_scope.

Variable Match : string → string → option bool.
Variable EvalSymlinks : string → option string.

Lemma outcome_bind_inv {A B} (o : outcome A) (k : A → outcome B) b :
  o ≫= k = Returned b → ∃ a, o = Returned a ∧ k a = Returned b.
Proof. destruct o as [a| | |]; [|done..]. intros H. by exists a. Qed.

(** [filepath.Split] cuts the path in two, and a directory part that is
    not empty ends in the separator. *)
Lemma Split_app path : (Split path).1 +:+ (Split path).2 = path.
Proof.
  induction path as [|a rest IH]; [done|]. simpl.
  destruct (Split rest) as [dir file]. simpl in IH.
  destruct (Ascii.eqb a "/"); simpl; [by rewrite <- IH|].
  destruct (String.eqb_spec dir "") as [-> | _]; simpl; by rewrite <- IH.
Qed.

Lemma last_byte_cons a s : s ≠ "" → last_byte (String a s) = last_byte s.
Proof. by destruct s. Qed.

Lemma Split_dir path :
  (Split path).1 = "" ∨ last_byte (Split path).1 = Some "/"%char.
Proof.
  induction path as [|a rest IH]; [by left|]. simpl.
  destruct (Split rest) as [dir file]. simpl in IH.
  destruct dir as [|b dir].
  - destruct (Ascii.eqb_spec a "/") as [-> | _]; [by right | by left].
  - right. destruct IH as [IH | IH]; [done|].
    by destruct (Ascii.eqb a "/").
Qed.

Lemma length_append (s t : string) :
  String.length (s +:+ t) = (String.length s + String.length t)%nat.
Proof.
  induction s as [|a s IH]; [done|].
  change (String a s +:+ t) with (String a (s +:+ t)). simpl. by rewrite IH.
Qed.

Lemma substring_all (s : string) : String.substring 0 (String.length s) s = s.
Proof. induction s as [|a s IH]; simpl; [done | by rewrite IH]. Qed.

Lemma slice_from_app (s t : string) : slice_from (s +:+ t) (String.length s) = Returned t.
Proof.
  unfold slice_from. rewrite length_append.
  destruct (Nat.leb_spec (String.length s) (String.length s + String.length t));
    [|lia].
  f_equal. replace (String.length s + String.length t - String.length s)%nat
    with (String.length t) by lia.
  clear. induction s as [|a s IH]; [apply substring_all | exact IH].
Qed.

(** The name a path below [arg] is shown under. *)
Lemma shown_app arg symlinkFrom rest :
  shown arg symlinkFrom (arg +:+ rest)
  = Returned (if String.eqb symlinkFrom "" then arg +:+ rest else symlinkFrom +:+ rest).
Proof.
  unfold shown. destruct (String.eqb symlinkFrom ""); [done|].
  by rewrite slice_from_app.
Qed.

Lemma land_ModeType m :
  Z.land m ModeType = 0 → Z.land m ModeDir = 0 ∧ Z.land m ModeSymlink = 0.
Proof.
  unfold ModeType. rewrite !Z.land_lor_distr_r, !Z.lor_eq_0_iff. tauto.
Qed.

Lemma skip_then_quietly logskip arg symlinkFrom path why r v :
  (l ← skip_log logskip arg symlinkFrom path why; Returned (quietly l r)) = Returned v →
  sent v = [] ∧ recurse v = None ∧ ret v = r.
Proof. intros (l & _ & [= <-])%outcome_bind_inv. done. Qed.

(** The end of the callback: nothing but the path is sent, under the name
    it is shown under, and only for a file without type bits when no error
    came with it. *)
Lemma finish_inv logskip arg symlinkFrom path info err v :
  finish logskip arg symlinkFrom path info err = Returned v →
  ret v = Nil ∧ recurse v = None
  ∧ (sent v = []
     ∨ (err = None
        ∧ ∃ fi name, info = Some fi ∧ Z.land (Mode fi) ModeType = 0
            ∧ shown arg symlinkFrom path = Returned name
            ∧ sent v = [name] ∧ logs v = [])).
Proof.
  unfold finish. destruct err as [e|].
  { intros (name & _ & [= <-])%outcome_bind_inv. split_and!; [done..|by left]. }
  destruct info as [fi|].
  2:{ intros (? & ? & ?)%skip_then_quietly. split_and!; [done..|by left]. }
  destruct (Z.eqb_spec (Z.land (Mode fi) ModeType) 0) as [H0 | _].
  - intros (name & Hn & [= <-])%outcome_bind_inv. split_and!; [done..|].
    right. split; [done|]. by exists fi, name.
  - destruct (negb (IsDir fi)).
    + intros (? & ? & ?)%skip_then_quietly. split_and!; [done..|by left].
    + intros [= <-]. split_and!; [done..|by left].
Qed.

(** The part on a symbolic link: nothing is sent; the target is walked
    only when links are followed and the link resolves, and then under the
    name the link is shown under. *)
Lemma on_symlink_inv follow logskip arg symlinkFrom path v :
  (Split path).2 ≠ "" →
  on_symlink EvalSymlinks follow logskip arg symlinkFrom path (Split path).1 (Split path).2
  = Returned v →
  sent v = [] ∧ ret v = Nil
  ∧ (recurse v = None
     ∨ ∃ p symlinkAs, recurse v = Some (p, symlinkAs) ∧ follow = true
         ∧ shown arg symlinkFrom path = Returned symlinkAs
         ∧ EvalSymlinks symlinkAs = Some p ∧ logs v = []).
Proof.
  intros Helem. unfold on_symlink. destruct follow; simpl.
  2:{ intros [= <-]. split_and!; [done..|by left]. }
  pose proof (Split_app path) as Happ.
  destruct (Split_dir path) as [Hd | Hd]; rewrite Hd; [done|].
  rewrite Ascii.eqb_refl, Happ.
  fold (shown arg symlinkFrom path).
  intros (symlinkAs & Has & Hrun)%outcome_bind_inv.
  destruct (EvalSymlinks symlinkAs) as [p|] eqn:Hp.
  - injection Hrun as <-. split_and!; [done..|]. right. by exists p, symlinkAs.
  - apply outcome_bind_inv in Hrun as (name & _ & [= <-]).
    split_and!; [done..|by left].
Qed.

Lemma exclude_loop_inv patterns elem err b e :
  exclude_loop Match patterns elem false err = Returned (b, e) →
  (b = true ↔ ∃ pattern, pattern ∈ patterns ∧ Match pattern elem = Some true)
  ∧ e = (if patterns is [] then err else None).
Proof.
  revert err. induction patterns as [|p rest IH]; intros err; simpl.
  - intros [= <- <-]. split; [|done]. split; [done|]. by intros (? & ?%elem_of_nil & _).
  - destruct (Match p elem) as [[|]|] eqn:Hm; [| |done].
    + intros [= <- <-]. split; [|done]. split; [|done]. intros _. exists p.
      split; [apply elem_of_cons; by left | done].
    + intros [Hb He]%IH. split; [|by destruct rest]. rewrite Hb. split.
      * intros (q & Hq & Hmq). exists q. split; [apply elem_of_cons; by right | done].
      * intros (q & Hq & Hmq). apply elem_of_cons in Hq as [-> | Hq]; [congruence|].
        by exists q.
Qed.

(** The first answer of [Match] that is not "no match" decides the loop. *)
Lemma exclude_loop_first before pattern after elem err :
  Forall (λ q, Match q elem = Some false) before →
  exclude_loop Match (before ++ pattern :: after) elem false err
  = match Match pattern elem with
    | None => Fatal "syntax error in pattern"
    | Some true => Returned (true, None)
    | Some false => exclude_loop Match after elem false None
    end.
Proof.
  revert err. induction before as [|q before IH]; intros err Hall; simpl; [done|].
  apply Forall_cons in Hall as [-> Hall]. by apply IH.
Qed.

(** The three ways through the callback: the path is passed over for its
    name; it is a symbolic link; or the end of the callback is reached,
    in the newer variant without the error that came with the path once
    the loop over the patterns has run. *)
Lemma callback_inv which follow logskip arg symlinkFrom path info err v :
  callback Match EvalSymlinks which follow logskip arg symlinkFrom path info err
  = Returned v →
  let elem := (Split path).2 in
  (elem ≠ "" ∧ passed_over Match which info elem
   ∧ sent v = [] ∧ recurse v = None
   ∧ ret v = if is_dir info then SkipDir else Nil)
  ∨ (elem ≠ "" ∧ ¬ passed_over Match which info elem
     ∧ is_dir info = false ∧ is_symlink info = true
     ∧ on_symlink EvalSymlinks follow logskip arg symlinkFrom path (Split path).1 elem
       = Returned v)
  ∨ ((elem = "" ∨ ¬ passed_over Match which info elem)
     ∧ (is_symlink info = true → elem = "" ∨ is_dir info = true)
     ∧ ∃ err', finish logskip arg symlinkFrom path info err' = Returned v
         ∧ (err' = err
            ∨ ∃ patterns, which = New patterns ∧ patterns ≠ [] ∧ elem ≠ ""
                ∧ err' = None)).
Proof.
  intros Hrun elem. subst elem. destruct which as [|patterns]; simpl in *.
  - unfold visit_old in Hrun. destruct (Split path) as [basedir elem]. simpl.
    destruct (String.eqb elem "") eqn:Helem; simpl in Hrun.
    { apply String.eqb_eq in Helem. right; right. split_and!; [by left | by left |]. exists err. by split; [|left]. }
    apply String.eqb_neq in Helem.
    destruct (is_dir info) eqn:Hdir.
    + destruct (vcs_or_backup_dir elem) eqn:Hvcs.
      * left. apply skip_then_quietly in Hrun as (? & ? & ?). by split_and!.
      * right; right. split_and!; [right; congruence | by right |].
        exists err. by split; [|left].
    + destruct (backup_or_undesirable_file elem) eqn:Hbak.
      * left. apply skip_then_quietly in Hrun as (? & ? & ?). by split_and!.
      * destruct (is_symlink info) eqn:Hsym.
        -- right; left. split_and!; [done | congruence | done..].
        -- right; right. split_and!; [right; congruence | done |].
           exists err. by split; [|left].
  - unfold visit_new in Hrun. destruct (Split path) as [basedir elem]. simpl.
    destruct (String.eqb elem "") eqn:Helem; simpl in Hrun.
    { apply String.eqb_eq in Helem. right; right. split_and!; [by left | by left |]. exists err. by split; [|left]. }
    apply String.eqb_neq in Helem.
    apply outcome_bind_inv in Hrun as ([b e] & Hloop & Hrun).
    apply exclude_loop_inv in Hloop as [Hb He].
    assert (Herr : e = err ∨ ∃ ps, New patterns = New ps ∧ ps ≠ [] ∧ elem ≠ "" ∧ e = None).
    { destruct patterns as [|p ps]; [by left|]. right. by exists (p :: ps). }
    destruct (is_dir info) eqn:Hdir.
    + destruct b.
      * left. apply skip_then_quietly in Hrun as (? & ? & ?). split_and!; [done| |done..].
        by apply Hb.
      * right; right. split_and!; [right; intros ?%Hb; done | by right |].
        by exists e.
    + destruct b.
      * left. apply skip_then_quietly in Hrun as (? & ? & ?). split_and!; [done| |done..].
        by apply Hb.
      * destruct (is_symlink info) eqn:Hsym.
        -- right; left. split_and!; [done | intros ?%Hb; done | done..].
        -- right; right. split_and!; [right; intros ?%Hb; done | done |].
           by exists e.
Qed.
End WalkerFacts.

Section WalkerProperties.
Import Walker.
Local Open Scope Z_scope.

Variable Match : string → string → option bool.
Variable EvalSymlinks : string → option string.

(** What a call of the callback that sends something has seen and done. *)
Lemma callback_sent which follow logskip arg symlinkFrom path info err v name :
  callback Match EvalSymlinks which follow logskip arg symlinkFrom path info err
  = Returned v →
  name ∈ sent v →
  ∃ fi, info = Some fi ∧ Z.land (Mode fi) ModeType = 0
    ∧ ((Split path).2 = "" ∨ ¬ passed_over Match which info (Split path).2)
    ∧ (which = Old → err = None)
    ∧ shown arg symlinkFrom path = Returned name
    ∧ v = {| logs := []; sent := [name]; recurse := None; ret := Nil |}.
Proof.
  intros Hrun Hin.
  destruct (callback_inv Match EvalSymlinks _ _ _ _ _ _ _ _ _ Hrun)
    as [(_ & _ & Hs & _) | [(Helem & _ & _ & _ & Hsym) | (Hpass & _ & err' & Hfin & Herr)]].
  - rewrite Hs in Hin. by apply elem_of_nil in Hin.
  - apply (on_symlink_inv EvalSymlinks _ _ _ _ _ _ Helem) in Hsym as (Hs & _).
    rewrite Hs in Hin. by apply elem_of_nil in Hin.
  - apply finish_inv in Hfin
      as (Hret & Hrec & [Hs | (-> & fi & name' & -> & Hmode & Hshown & Hs & Hlogs)]).
    { rewrite Hs in Hin. by apply elem_of_nil in Hin. }
    rewrite Hs in Hin. apply list_elem_of_singleton in Hin as ->.
    exists fi. split_and!; [done | done | done | | done |].
    + intros ->. by destruct Herr as [<- | (? & ? & _)].
    + destruct v; simpl in *; by subst.
Qed.

(** X6: either variant of the callback sends a path on the channel only
    when [filepath.Walk] came with a file whose mode has no type bit (so
    neither a directory nor a symbolic link) and whose name did not make the
    callback pass it over; the older variant moreover only when no error came
    with the path.  It then sends that one path, logs nothing, starts no
    walk of its own and lets the walk go on. *)
Theorem walk_sends_only_plain_files which follow logskip arg symlinkFrom path info err
    v name :
  callback Match EvalSymlinks which follow logskip arg symlinkFrom path info err
  = Returned v →
  name ∈ sent v →
  ∃ fi, info = Some fi ∧ Z.land (Mode fi) ModeType = 0
    ∧ IsDir fi = false ∧ is_symlink info = false
    ∧ ((Split path).2 = "" ∨ ¬ passed_over Match which info (Split path).2)
    ∧ (which = Old → err = None)
    ∧ v = {| logs := []; sent := [name]; recurse := None; ret := Nil |}.
Proof.
  intros Hrun Hin.
  destruct (callback_sent _ _ _ _ _ _ _ _ _ _ Hrun Hin)
    as (fi & -> & Hmode & Hpass & Herr & _ & Hv).
  exists fi. destruct (land_ModeType _ Hmode) as [Hd Hl].
  split_and!; [done | done | | | done..].
  - unfold IsDir. by rewrite Hd.
  - simpl. by rewrite Hl.
Qed.

(** X7: the path is sent under the name it is shown under: a path found
    below [arg] is sent as it is in a walk of a root, and with [arg]
    replaced by the name of the link in a walk of the target of a link. *)
Theorem walk_sends_the_shown_name which follow logskip arg symlinkFrom rest info err
    v name :
  callback Match EvalSymlinks which follow logskip arg symlinkFrom (arg +:+ rest)
           info err = Returned v →
  name ∈ sent v →
  name = if String.eqb symlinkFrom "" then arg +:+ rest else symlinkFrom +:+ rest.
Proof.
  intros Hrun Hin.
  destruct (callback_sent _ _ _ _ _ _ _ _ _ _ Hrun Hin)
    as (fi & _ & _ & _ & _ & Hshown & _).
  rewrite shown_app in Hshown. by injection Hshown.
Qed.

(** X8: the callback answers [filepath.SkipDir] exactly for a named
    directory that is passed over: in the older variant one with the name
    of a version-control or backup directory, in the newer one a name that
    a pattern matches.  Whatever is passed over for its name is neither sent
    nor, if a link, followed. *)
Theorem walk_skips_directory_iff which follow logskip arg symlinkFrom path info err v :
  callback Match EvalSymlinks which follow logskip arg symlinkFrom path info err
  = Returned v →
  (ret v = SkipDir
   ↔ (Split path).2 ≠ "" ∧ is_dir info = true
     ∧ passed_over Match which info (Split path).2)
  ∧ ((Split path).2 ≠ "" → passed_over Match which info (Split path).2 →
     sent v = [] ∧ recurse v = None).
Proof.
  intros Hrun.
  destruct (callback_inv Match EvalSymlinks _ _ _ _ _ _ _ _ _ Hrun)
    as [(Helem & Hpass & Hs & Hr & Hret)
       | [(Helem & Hpass & _ & _ & Hsym) | (Hpass & _ & err' & Hfin & _)]].
  - split; [|done]. rewrite Hret. destruct (is_dir info); [by split|].
    split; [done | by intros (_ & ? & _)].
  - apply (on_symlink_inv EvalSymlinks _ _ _ _ _ _ Helem) in Hsym as (_ & Hret & _).
    rewrite Hret. split; [split; [done | by intros (_ & _ & ?)] | done].
  - apply finish_inv in Hfin as (Hret & _). rewrite Hret.
    split; [split; [done|] |]; [intros (? & _ & ?) | intros ? ?];
      by destruct Hpass.
Qed.

(** X9: in the newer variant a pattern that [filepath.Match] finds
    malformed is fatal at the first named path for which no earlier pattern
    has matched. *)
Theorem malformed_pattern_is_fatal follow logskip before pattern after arg symlinkFrom
    path info err :
  (Split path).2 ≠ "" →
  Forall (λ q, Match q (Split path).2 = Some false) before →
  Match pattern (Split path).2 = None →
  visit_new Match EvalSymlinks follow logskip (before ++ pattern :: after)
            arg symlinkFrom path info err
  = Fatal "syntax error in pattern".
Proof.
  intros Helem Hbefore Hbad. unfold visit_new.
  destruct (Split path) as [basedir elem]. simpl in *.
  apply String.eqb_neq in Helem. rewrite Helem. simpl.
  by rewrite exclude_loop_first, Hbad.
Qed.

(** X10: in the newer variant the loop over the patterns assigns the
    callback's own [err]: for a named path, and with at least one pattern,
    the error that [filepath.Walk] came with has no effect on what the
    callback does. *)
Theorem new_walk_drops_the_walk_error follow logskip patterns arg symlinkFrom path info
    err :
  patterns ≠ [] → (Split path).2 ≠ "" →
  visit_new Match EvalSymlinks follow logskip patterns arg symlinkFrom path info err
  = visit_new Match EvalSymlinks follow logskip patterns arg symlinkFrom path info None.
Proof.
  intros Hpat Helem. unfold visit_new.
  destruct (Split path) as [basedir elem]. simpl in *.
  apply String.eqb_neq in Helem. rewrite Helem. simpl.
  by destruct patterns.
Qed.

(** X11: the callback starts a walk of its own only on a symbolic link
    that is not passed over, only when links are followed, and only on the
    target that [filepath.EvalSymlinks] gives for the name the link is shown
    under; that name is what the new walk shows its paths under.  The link
    itself is not sent. *)
Theorem walk_follows_links_when_asked which follow logskip arg symlinkFrom path info err
    v target symlinkAs :
  callback Match EvalSymlinks which follow logskip arg symlinkFrom path info err
  = Returned v →
  recurse v = Some (target, symlinkAs) →
  follow = true ∧ is_symlink info = true ∧ is_dir info = false
  ∧ ¬ passed_over Match which info (Split path).2
  ∧ shown arg symlinkFrom path = Returned symlinkAs
  ∧ EvalSymlinks symlinkAs = Some target
  ∧ v = {| logs := []; sent := []; recurse := Some (target, symlinkAs); ret := Nil |}.
Proof.
  intros Hrun Hrec.
  destruct (callback_inv Match EvalSymlinks _ _ _ _ _ _ _ _ _ Hrun)
    as [(_ & _ & _ & Hr & _)
       | [(Helem & Hpass & Hdir & Hlink & Hsym) | (_ & _ & err' & Hfin & _)]].
  - congruence.
  - apply (on_symlink_inv EvalSymlinks _ _ _ _ _ _ Helem) in Hsym
      as (Hs & Hret & [Hr | (p & sa & Hr & -> & Hshown & Hp & Hlogs)]); [congruence|].
    rewrite Hr in Hrec. injection Hrec as -> ->.
    split_and!; [done..|]. destruct v; simpl in *; by subst.
  - apply finish_inv in Hfin as (_ & Hr & _). congruence.
Qed.

(** X12: the two together: when the walk of a root follows a link, a file
    found below the link's target is sent under the link's path, not under
    the target's. *)
Theorem files_below_a_followed_link which follow logskip arg link info err v target
    symlinkAs rest info' err' v' name :
  callback Match EvalSymlinks which follow logskip arg "" link info err = Returned v →
  recurse v = Some (target, symlinkAs) →
  callback Match EvalSymlinks which follow logskip target symlinkAs (target +:+ rest)
           info' err' = Returned v' →
  name ∈ sent v' →
  EvalSymlinks link = Some target ∧ name = link +:+ rest.
Proof.
  intros Hrun Hrec Hrun' Hin.
  destruct (callback_inv Match EvalSymlinks _ _ _ _ _ _ _ _ _ Hrun)
    as [(_ & _ & _ & Hr & _)
       | [(Helem & _ & _ & _ & Hsym) | (_ & _ & e & Hfin & _)]].
  - congruence.
  - apply (on_symlink_inv EvalSymlinks _ _ _ _ _ _ Helem) in Hsym
      as (_ & _ & [Hr | (p & sa & Hr & _ & Hshown & Hp & _)]); [congruence|].
    rewrite Hr in Hrec. injection Hrec as -> ->.
    injection Hshown as <-. split; [done|].
    destruct (callback_sent _ _ _ _ _ _ _ _ _ _ Hrun' Hin)
      as (fi & _ & _ & _ & _ & Hshown & _).
    rewrite shown_app in Hshown. injection Hshown as <-.
    destruct (String.eqb_spec link "") as [-> | _]; [|done].
    by destruct Helem.
  - apply finish_inv in Hfin as (_ & Hr & _). congruence.
Qed.
End WalkerProperties.

Section WalkerWitnesses.
Import Walker.
Local Open Scope Z_scope.

Lemma walk_sends_only_plain_files_witness :
  ∃ fi, regular = Some fi ∧ Z.land (Mode fi) ModeType = 0
    ∧ IsDir fi = false ∧ is_symlink regular = false
    ∧ ((Split "/src/a.go").2 = ""
       ∨ ¬ passed_over literal_Match (New [".csearchindex"]) regular (Split "/src/a.go").2)
    ∧ (New [".csearchindex"] = Old → @None string = None)
    ∧ {| logs := []; sent := ["/src/a.go"]; recurse := None; ret := Nil |}
      = {| logs := []; sent := ["/src/a.go"]; recurse := None; ret := Nil |}.
Proof.
  apply (walk_sends_only_plain_files literal_Match one_link (New [".csearchindex"])
           true true "/src" "" "/src/a.go" regular None
           {| logs := []; sent := ["/src/a.go"]; recurse := None; ret := Nil |}
           "/src/a.go").
  - reflexivity.
  - constructor.
Defined.

Lemma walk_sends_the_shown_name_witness :
  "/src/link/x.go" = if String.eqb "/src/link" "" then "/data" +:+ "/x.go"
                     else "/src/link" +:+ "/x.go".
Proof.
  apply (walk_sends_the_shown_name literal_Match one_link Old true true "/data"
           "/src/link" "/x.go" regular None
           {| logs := []; sent := ["/src/link/x.go"]; recurse := None; ret := Nil |}
           "/src/link/x.go").
  - reflexivity.
  - constructor.
Defined.

Lemma walk_skips_directory_iff_witness :
  (SkipDir = SkipDir
   ↔ (Split "/src/.git").2 ≠ "" ∧ is_dir directory = true
     ∧ passed_over literal_Match Old directory (Split "/src/.git").2)
  ∧ ((Split "/src/.git").2 ≠ "" →
     passed_over literal_Match Old directory (Split "/src/.git").2 →
     @nil string = [] ∧ @None (string * string) = None).
Proof.
  apply (walk_skips_directory_iff literal_Match one_link Old true true "/src" ""
           "/src/.git" directory None
           {| logs := ["/src/.git: skipped. VCS or backup directory"]; sent := [];
              recurse := None; ret := SkipDir |}).
  reflexivity.
Defined.

Lemma malformed_pattern_is_fatal_witness :
  visit_new literal_Match one_link true true ([".csearchindex"] ++ "[x" :: ["*.o"])
            "/src" "" "/src/a.go" regular None
  = Fatal "syntax error in pattern".
Proof.
  apply (malformed_pattern_is_fatal literal_Match one_link true true [".csearchindex"]
           "[x" ["*.o"] "/src" "" "/src/a.go" regular None).
  - simpl. discriminate.
  - repeat constructor.
  - reflexivity.
Defined.

Lemma new_walk_drops_the_walk_error_witness :
  visit_new literal_Match one_link true true [".csearchindex"] "/src" "" "/src/a.go"
            regular (Some "permission denied")
  = visit_new literal_Match one_link true true [".csearchindex"] "/src" "" "/src/a.go"
              regular None.
Proof.
  apply (new_walk_drops_the_walk_error literal_Match one_link true true
           [".csearchindex"] "/src" "" "/src/a.go" regular (Some "permission denied")).
  - discriminate.
  - simpl. discriminate.
Defined.

Lemma walk_follows_links_when_asked_witness :
  true = true ∧ is_symlink symlink = true ∧ is_dir symlink = false
  ∧ ¬ passed_over literal_Match (New [".csearchindex"]) symlink (Split "/src/link").2
  ∧ shown "/src" "" "/src/link" = Returned "/src/link"
  ∧ one_link "/src/link" = Some "/data"
  ∧ {| logs := []; sent := []; recurse := Some ("/data", "/src/link"); ret := Nil |}
    = {| logs := []; sent := []; recurse := Some ("/data", "/src/link"); ret := Nil |}.
Proof.
  apply (walk_follows_links_when_asked literal_Match one_link (New [".csearchindex"])
           true true "/src" "" "/src/link" symlink None
           {| logs := []; sent := []; recurse := Some ("/data", "/src/link");
              ret := Nil |} "/data" "/src/link").
  - reflexivity.
  - reflexivity.
Defined.

Lemma files_below_a_followed_link_witness :
  one_link "/src/link" = Some "/data" ∧ "/src/link/x.go" = "/src/link" +:+ "/x.go".
Proof.
  apply (files_below_a_followed_link literal_Match one_link (New [".csearchindex"])
           true true "/src" "/src/link" symlink None
           {| logs := []; sent := []; recurse := Some ("/data", "/src/link");
              ret := Nil |} "/data" "/src/link" "/x.go" regular None
           {| logs := []; sent := ["/src/link/x.go"]; recurse := None; ret := Nil |}
           "/src/link/x.go").
  - reflexivity.
  - reflexivity.
  - reflexivity.
  - constructor.
Defined.
End WalkerWitnesses.

(** ** The searcher, end to end *)

Section CsearchProperties.
Import Csearch.
Local Open Scope Z_scope.
Context `{C : Collaborators}.

Lemma index_File_set env p :
  p ≠ "" → index_File (<["CSEARCHINDEX" := p]> env) = p.
Proof.
  intros Hp. unfold index_File. rewrite lookup_insert_eq.
  by destruct (decide (p = "")).
Qed.

(** X13: with [-indexpath] the searcher opens the index at that path,
    whatever CSEARCHINDEX and HOME say; the value must be free of NUL bytes,
    or the run is fatal before anything is compiled or opened. *)
Theorem indexpath_names_the_index_searched env flags args :
  indexPath flags ≠ "" →
  (∀ r, Main env flags args = Returned r →
        index_File (run_env r) = indexPath flags
        ∧ ∃ ix0, index_Open (indexPath flags) = Some ix0
            ∧ run_ix r = ix_set_Verbose ix0 (verboseFlag flags))
  ∧ (has_nul (indexPath flags) = true → is_returned (Main env flags args) = false).
Proof.
  intros Hp. apply String.eqb_neq in Hp as Hp'. split.
  - intros r HM.
    destruct (Main_returned _ _ _ _ HM)
      as (arg & ix0 & _ & _ & _ & _ & Hopen & Hix & _).
    assert (He : run_env r = <["CSEARCHINDEX" := indexPath flags]> env).
    { unfold Main in HM. destruct args as [|a [|? ?]]; [done| |done].
      destruct (negb _ && negb _); [done|]. rewrite Hp' in HM. unfold Setenv in HM.
      destruct (has_nul (indexPath flags)); [done|].
      destruct (regexp_Compile _); [|done].
      destruct (if String.eqb (fFlag flags) "" then _ else _); [|done].
      destruct (index_Open _); [|done].
      destruct (grep_loop _ _ _). by injection HM as <-. }
    rewrite He, index_File_set in * by done. split; [done|]. by exists ix0.
  - intros Hnul. unfold Main. destruct args as [|a [|? ?]]; [done| |done].
    destruct (negb _ && negb _); [done|]. rewrite Hp'. unfold Setenv. by rewrite Hnul.
Qed.

(** X14: every file the searcher hands to grep is the name of a candidate
    of the posting query, and with [-f] one whose name the file-name regexp
    matches. *)
Theorem searched_files_are_filtered_candidates env flags args r name :
  Main env flags args = Returned r →
  name ∈ run_files r →
  ∃ id, id ∈ run_post r ∧ name = ix_Name (run_ix r) id
    ∧ ∀ fre, run_fre r = Some fre → 0 ≤ re_MatchString fre name true true.
Proof.
  intros HM Hin.
  destruct (Main_returned _ _ _ _ HM)
    as (arg & ix0 & _ & _ & _ & _ & _ & _ & _ & _ & Hfil & Hloop).
  destruct (grep_loop_prefix (run_ix r) (armed flags (run_re r)) (run_filtered r))
    as [n Hn].
  rewrite Hloop in Hn. simpl in Hn. rewrite Hn in Hin.
  apply list_elem_of_fmap in Hin as (id & -> & Hid).
  apply elem_of_take in Hid as (i & Hid & _).
  apply list_elem_of_lookup_2 in Hid.
  exists id. rewrite Hfil in Hid. unfold filter_names in Hid.
  destruct (run_fre r) as [fre|].
  - rewrite filter_loop_spec in Hid. simpl in Hid.
    apply list_elem_of_filter in Hid as [Hm Hid].
    split_and!; [done..|]. by intros ? [= <-].
  - by split_and!.
Qed.

(** X15: the searcher's exit status is 0, 1 or 2; it is 2 exactly on a
    usage error and 0 exactly when [Main] returns with a match.  So every
    fatal error on the way (the profile file, the environment, either
    regexp, the index) ends in status 1, as a search without a match does. *)
Theorem searcher_status_of_failures env flags args :
  (main env flags args = 2 ↔ length args ≠ 1%nat)
  ∧ (main env flags args = 0
     ↔ ∃ r, Main env flags args = Returned r ∧ grep_Match (run_g r) = true)
  ∧ (main env flags args = 0 ∨ main env flags args = 1 ∨ main env flags args = 2)
  ∧ (length args = 1%nat → is_returned (Main env flags args) = false →
     main env flags args = 1).
Proof.
  assert (Hnp : ∀ s, Main env flags args ≠ Panic s).
  { intros s. unfold Main. destruct args as [|a [|? ?]]; [done| |done].
    destruct (negb _ && negb _); [done|].
    destruct (if String.eqb (indexPath flags) "" then _ else _); [|done].
    destruct (regexp_Compile _); [|done].
    destruct (if String.eqb (fFlag flags) "" then _ else _); [|done].
    destruct (index_Open _); [|done]. by destruct (grep_loop _ _ _). }
  assert (Hex : ∀ c, Main env flags args = Exit c → c = 2 ∧ length args ≠ 1%nat).
  { intros c. unfold Main. destruct args as [|a [|? ?]]; [by intros [= <-]| |by intros [= <-]].
    destruct (negb _ && negb _); [done|].
    destruct (if String.eqb (indexPath flags) "" then _ else _); [|done].
    destruct (regexp_Compile _); [|done].
    destruct (if String.eqb (fFlag flags) "" then _ else _); [|done].
    destruct (index_Open _); [|done]. by destruct (grep_loop _ _ _). }
  assert (Hus : length args ≠ 1%nat → Main env flags args = Exit 2).
  { unfold Main. by destruct args as [|a [|? ?]]. }
  unfold main, matches.
  destruct (Main env flags args) as [r|s|s|c] eqn:HM; simpl.
  - split_and!.
    + split; [by destruct (grep_Match _)|]. intros Hn. by specialize (Hus Hn).
    + split; [|intros (r' & [= <-] & ->); done].
      destruct (grep_Match (run_g r)) eqn:Hm; [|done]. intros _. by exists r.
    + destruct (grep_Match _); auto.
    + done.
  - split_and!; [| |auto|done].
    + split; [done|]. intros Hn. by specialize (Hus Hn).
    + split; [done | by intros (? & ? & _)].
  - by destruct (Hnp s).
  - destruct (Hex c eq_refl) as [-> Hlen]. split_and!; [done| |auto|done].
    split; [done | by intros (? & ? & _)].
Qed.
End CsearchProperties.

Section CsearchWitnesses.
Import Csearch.
Local Open Scope Z_scope.

Lemma indexpath_names_the_index_searched_witness :
  index_File (run_env (C := Toy.searcher) Sample.run_at_idx) = "/idx"
  ∧ ∃ ix0, index_Open (Collaborators := Toy.searcher) "/idx" = Some ix0
      ∧ run_ix (C := Toy.searcher) Sample.run_at_idx
        = ix_set_Verbose (Collaborators := Toy.searcher) ix0 false.
Proof.
  apply (proj1 (indexpath_names_the_index_searched (C := Toy.searcher) Sample.elsewhere
                  Sample.at_idx ["src"] ltac:(discriminate)) Sample.run_at_idx).
  reflexivity.
Defined.

Lemma searched_files_are_filtered_candidates_witness :
  ∃ id, id ∈ run_post (C := Toy.searcher) Toy.run_only_hello
    ∧ "/src/hello.txt" = ix_Name (Collaborators := Toy.searcher)
                           (run_ix (C := Toy.searcher) Toy.run_only_hello) id
    ∧ ∀ fre, run_fre (C := Toy.searcher) Toy.run_only_hello = Some fre →
             0 ≤ re_MatchString (Collaborators := Toy.searcher) fre "/src/hello.txt"
                   true true.
Proof.
  apply (searched_files_are_filtered_candidates (C := Toy.searcher) Toy.env
           Toy.only_hello ["src"] Toy.run_only_hello "/src/hello.txt").
  - reflexivity.
  - constructor.
Defined.
End CsearchWitnesses.

(** ** The builder, further *)

Section CindexMoreFacts.
Import Cindex.
Context `{C : Collaborators}.

Lemma foldr_print_run (ps : list string) w :
  foldr (λ arg k, print arg ;; k) (ret tt) ps w
  = (Returned tt,
     {| w_env := w_env w; w_fs := w_fs w; w_hist := w_hist w; w_out := w_out w ++ ps;
        w_log := w_log w; w_calls := w_calls w |}).
Proof.
  revert w. induction ps as [|p ps IH]; intros w; simpl.
  - rewrite app_nil_r. by destruct w.
  - unfold mbind, M_bind, print at 1. rewrite IH. simpl.
    by rewrite <- app_assoc.
Qed.

Lemma foldr_index_log_run (l : list string) w :
  foldr (λ arg k, log ("index " +:+ arg) ;; k) (ret tt) l w
  = (Returned tt,
     {| w_env := w_env w; w_fs := w_fs w; w_hist := w_hist w; w_out := w_out w;
        w_log := w_log w ++ ((λ arg, "index " +:+ arg) <$> l);
        w_calls := w_calls w |}).
Proof.
  revert w. induction l as [|p l IH]; intros w; simpl.
  - rewrite app_nil_r. by destruct w.
  - unfold mbind, M_bind, log at 1. rewrite IH. simpl.
    by rewrite <- app_assoc.
Qed.

(** The log lines for the arguments change nothing but the log. *)
Lemma log_abs_errors_run args w :
  ∃ l, log_abs_errors args w
       = (Returned tt,
          {| w_env := w_env w; w_fs := w_fs w; w_hist := w_hist w; w_out := w_out w;
             w_log := w_log w ++ l; w_calls := w_calls w |}).
Proof.
  unfold log_abs_errors. revert w. induction args as [|a args IH]; intros w; simpl.
  - exists []. rewrite app_nil_r. by destruct w.
  - destruct (Abs a); [apply IH|].
    unfold mbind, M_bind, log at 1.
    edestruct IH as [l ->]. exists ((a +:+ ": error") :: l). simpl.
    by rewrite <- app_assoc.
Qed.

(** The consumer adds the paths in the order they are delivered. *)
Lemma consumer_order msgs seen ix :
  ∃ new, iw_added (consumer msgs seen ix) = iw_added ix ++ new
    ∧ new `sublist_of` delivered msgs
    ∧ ∀ p rest, delivered msgs = p :: rest → default false (seen !! p) = false →
                ∃ new', new = p :: new'.
Proof.
  revert seen ix. induction msgs as [|[path|] msgs IH]; intros seen ix; simpl.
  - exists []. by rewrite app_nil_r.
  - destruct (default false (seen !! path)) eqn:Hseen; simpl.
    + destruct (IH seen ix) as (new & Hadd & Hsub & _).
      exists new. split_and!; [done | by apply sublist_cons |].
      intros p rest [= <- <-] Hp. congruence.
    + destruct (IH (<[path := true]> seen) (AddFile ix path)) as (new & Hadd & Hsub & _).
      exists (path :: new). simpl in Hadd. rewrite <- app_assoc in Hadd.
      split_and!; [done | by apply sublist_skip |].
      intros p rest [= <- <-] _. by exists new.
  - exists []. by rewrite app_nil_r.
Qed.

(** What a build does, when no directory is in the way of its file: the
    file is created, the roots are handed over, each root is logged and
    walked, the files the consumer lets through are added, and the index is
    flushed into the file. *)
Lemma build_run file patterns flags args w :
  (∀ e, w_fs w !! file ≠ Some (Dir e)) →
  let fs1 := <[file := Regular created]> (w_fs w) in
  let added := iw_added (consumer (messages fs1 patterns flags args) ∅
                           {| iw_file := file; iw_paths := args; iw_added := [] |}) in
  build file patterns flags args w
  = (Returned tt,
     {| w_env := w_env w;
        w_fs := <[file := Regular (flushed args added fs1)]> fs1;
        w_hist := fs1 :: w_fs w :: w_hist w;
        w_out := w_out w;
        w_log := (w_log w ++ ((λ arg, "index " +:+ arg) <$> args)) ++ ["flush index"];
        w_calls := ((w_calls w ++ [CallAddPaths args]) ++ (CallAddFile <$> added))
                   ++ [CallFlush] |}).
Proof.
  intros Hfile fs1 added. unfold build.
  assert (Hc : Create file w
               = (Returned {| iw_file := file; iw_paths := []; iw_added := [] |},
                  with_fs w fs1)).
  { unfold Create. rewrite (bind_returned _ _ _ true (with_fs w fs1)); [done|].
    rewrite os_Create_run. destruct (w_fs w !! file) as [[?|e|]|] eqn:Hf; try done.
    by destruct (Hfile e). }
  rewrite (bind_returned _ _ _ _ _ Hc).
  unfold mbind at 1, M_bind at 1, record at 1. cbn [with_fs w_env w_fs w_hist w_out w_log w_calls].
  unfold mbind at 1, M_bind at 1, get_fs at 1. cbn [w_env w_fs w_hist w_out w_log w_calls].
  unfold mbind at 1, M_bind at 1. rewrite foldr_index_log_run.
  cbn [w_env w_fs w_hist w_out w_log w_calls].
  unfold AddPaths. cbn [iw_file iw_paths iw_added app]. fold fs1. fold added.
  unfold mbind at 1, M_bind at 1. rewrite foldr_record_run.
  cbn [w_env w_fs w_hist w_out w_log w_calls].
  destruct (consumer_spec (messages fs1 patterns flags args) ∅
              {| iw_file := file; iw_paths := args; iw_added := [] |})
    as (new & _ & Hf & Hp & _).
  unfold Flush, mbind, M_bind, log, record, get_fs, set_fs.
  cbn [w_env w_fs w_hist w_out w_log w_calls]. fold added. rewrite Hf, Hp. reflexivity.
Qed.
End CindexMoreFacts.

(** *** Builds without path arguments *)

Section CindexReindex.
Import Cindex.
Context `{C : Collaborators}.

(** A build that returns has called the writer with the roots, with each
    file the consumer let through, and with [Flush], in that order. *)
Lemma build_returned file patterns flags args w w' :
  build file patterns flags args w = (Returned tt, w') →
  ∃ added, NoDup added
    ∧ w_calls w' = w_calls w ++ CallAddPaths args :: (CallAddFile <$> added) ++ [CallFlush].
Proof.
  intros Hb.
  assert (Hfile : ∀ e, w_fs w !! file ≠ Some (Dir e)).
  { intros e He. unfold build in Hb.
    apply bind_inv in Hb as [(ix & w1 & Hc & _) | (o' & _ & _ & Hx)]; [|discriminate Hx].
    unfold Create in Hc.
    apply bind_inv in Hc as [(ok & w2 & Hc & Hk) | (o' & _ & _ & ?)]; [|done].
    rewrite os_Create_run, He in Hc. by injection Hc as <- <-. }
  rewrite (build_run file patterns flags args w Hfile) in Hb. injection Hb as <-.
  destruct (consumer_spec
              (messages (<[file := Regular created]> (w_fs w)) patterns flags args) ∅
              {| iw_file := file; iw_paths := args; iw_added := [] |})
    as (new & Hadd & _ & _ & Hnd & _).
  simpl in Hadd. exists new. split; [done|]. simpl. rewrite Hadd.
  by rewrite <- !app_assoc.
Qed.

(** What follows the build makes no call on the writer. *)
Lemma silent_after_build faults (reset : bool) master file :
  silent ((if negb reset then
             log ("merge " +:+ master +:+ " " +:+ file) ;;
             Merge (merge_fault faults) (file +:+ "~") master file ;;
             os_Remove file ;;
             replace_master faults file master
           else ret tt) ;;
          log "done").
Proof.
  apply silent_bind; [|intros; apply silent_log].
  destruct (negb reset); [|apply silent_ret].
  apply silent_bind; [apply silent_log|]. intros _.
  apply silent_bind; [apply silent_Merge|]. intros _.
  apply silent_bind; [apply silent_os_Remove|]. intros _.
  apply silent_replace_master.
Qed.

Lemma silent_after_build_old faults (reset : bool) master file :
  silent ((if negb reset then
             log ("merge " +:+ master +:+ " " +:+ file) ;;
             Merge (merge_fault faults) (file +:+ "~") master file ;;
             os_Remove file ;;
             os_Rename (rename_fault faults) (file +:+ "~") master ;;
             ret tt
           else ret tt) ;;
          log "done").
Proof.
  apply silent_bind; [|intros; apply silent_log].
  destruct (negb reset); [|apply silent_ret].
  apply silent_bind; [apply silent_log|]. intros _.
  apply silent_bind; [apply silent_Merge|]. intros _.
  apply silent_bind; [apply silent_os_Remove|]. intros _.
  apply silent_bind; [apply silent_os_Rename | intros; apply silent_ret].
Qed.

(** A run on path arguments that returns has called the writer with the
    sorted absolute paths of the arguments, with files that are all
    different, and with [Flush]. *)
Lemma main_returned_calls faults flags args env fs o w :
  listFlag flags = false → args ≠ [] →
  main faults flags args (initial env fs) = (o, w) → is_returned o = true →
  ∃ added, NoDup added
    ∧ w_calls w = CallAddPaths (normalise args) :: (CallAddFile <$> added) ++ [CallFlush].
Proof.
  intros Hlist Hargs Hrun Hret. unfold main in Hrun. rewrite Hlist in Hrun.
  apply bind_inv in Hrun as [([] & w1 & H1 & Hrun) | (o' & _ & _ & Ho)]; [|congruence].
  pose proof (silent_apply_indexPath _ _ _ _ H1) as Hc1. simpl in Hc1.
  apply bind_inv in Hrun as [([] & w2 & H2 & Hrun) | (o' & _ & _ & Ho)]; [|congruence].
  pose proof (silent_start_profile _ _ _ _ H2) as Hc2. rewrite Hc1 in Hc2.
  assert (Hb : resetFlag flags && (length args =? 0)%nat = false).
  { destruct args; [done|]. by rewrite andb_false_r. }
  rewrite Hb in Hrun.
  apply bind_inv in Hrun as [(patterns & w3 & H3 & Hrun) | (o' & _ & _ & Ho)]; [|congruence].
  apply inert_load_exclude in H3 as ->.
  apply bind_inv in Hrun as [(args' & w3 & H3 & Hrun) | (o' & _ & _ & Ho)]; [|congruence].
  pose proof (inert_populate _ _ _ _ H3) as ->.
  apply populate_given in H3 as ->; [|done].
  apply bind_inv in Hrun as [([] & w3 & H3 & Hrun) | (o' & _ & _ & Ho)]; [|congruence].
  pose proof (silent_log_abs_errors _ _ _ _ H3) as Hc3. rewrite Hc2 in Hc3.
  rewrite (bind_returned _ _ _ _ _ (File_run _)) in Hrun.
  rewrite (bind_returned _ _ _ _ _ (os_Stat_run _ _)) in Hrun.
  apply bind_inv in Hrun as [(reset & w4 & H4 & Hrun) | (o' & _ & _ & Ho)]; [|congruence].
  assert (w4 = w3) as ->.
  { destruct (w_fs w3 !! index_File (w_env w3)) as [[?| |]|]; by injection H4. }
  apply bind_inv in Hrun as [([] & w5 & H5 & Hrun) | (o' & _ & _ & Ho)]; [|congruence].
  destruct (build_returned _ _ _ _ _ _ H5) as (added & Hnd & Hc5).
  rewrite Hc3 in Hc5. simpl in Hc5.
  apply silent_after_build in Hrun. exists added. by rewrite Hrun.
Qed.

Lemma main_old_returned_calls faults flags args env fs o w :
  listFlag flags = false → args ≠ [] →
  main_old faults flags args (initial env fs) = (o, w) → is_returned o = true →
  ∃ added, NoDup added
    ∧ w_calls w = CallAddPaths (normalise args) :: (CallAddFile <$> added) ++ [CallFlush].
Proof.
  intros Hlist Hargs Hrun Hret. unfold main_old in Hrun. rewrite Hlist in Hrun.
  apply bind_inv in Hrun as [([] & w2 & H2 & Hrun) | (o' & _ & _ & Ho)]; [|congruence].
  pose proof (silent_start_profile _ _ _ _ H2) as Hc2. simpl in Hc2.
  assert (Hb : resetFlag flags && (length args =? 0)%nat = false).
  { destruct args; [done|]. by rewrite andb_false_r. }
  rewrite Hb in Hrun.
  apply bind_inv in Hrun as [(args' & w3 & H3 & Hrun) | (o' & _ & _ & Ho)]; [|congruence].
  pose proof (inert_populate _ _ _ _ H3) as ->.
  apply populate_given in H3 as ->; [|done].
  apply bind_inv in Hrun as [([] & w3 & H3 & Hrun) | (o' & _ & _ & Ho)]; [|congruence].
  pose proof (silent_log_abs_errors _ _ _ _ H3) as Hc3. rewrite Hc2 in Hc3.
  rewrite (bind_returned _ _ _ _ _ (File_run _)) in Hrun.
  rewrite (bind_returned _ _ _ _ _ (os_Stat_run _ _)) in Hrun.
  apply bind_inv in Hrun as [([] & w5 & H5 & Hrun) | (o' & _ & _ & Ho)]; [|congruence].
  destruct (build_returned _ _ _ _ _ _ H5) as (added & Hnd & Hc5).
  rewrite Hc3 in Hc5. simpl in Hc5.
  apply silent_after_build_old in Hrun. exists added. by rewrite Hrun.
Qed.

(** Calls of the shape of a build start with the roots. *)
Lemma shaped_starts R calls :
  shaped R calls → calls = [] ∨ ∃ roots rest, R roots ∧ calls = CallAddPaths roots :: rest.
Proof.
  intros [-> | (roots & added & Hr & _ & ->)]; [by left|]. right. by eexists _, _.
Qed.

(** C8: without path arguments (and without [-reset] and [-list]) either
    variant of the builder fills the argument list from the [Paths()] of
    the existing index and then runs exactly as if those root paths had
    been given on the command line.  The first call on the index writer,
    if the run comes to one, is [AddPaths] on the sorted absolute paths of
    the recorded roots, and a run that returns has made that call, added
    files that are all different, and flushed.  Recorded roots that
    [filepath.Abs] leaves alone are handed over each, in sorted order. *)
Theorem no_paths_reindexes_recorded_roots faults flags env fs d ps :
  listFlag flags = false → resetFlag flags = false → ix_Paths d = Some ps →
  (cpuProfile flags ≠ index_File (resolved_env env flags) →
   fs !! index_File (resolved_env env flags) = Some (Regular d) →
   populate [] (initial (resolved_env env flags) fs)
   = (Returned ps, initial (resolved_env env flags) fs)
   ∧ main faults flags [] (initial env fs) = main faults flags ps (initial env fs)
   ∧ (ps ≠ [] → ∀ o w, main faults flags [] (initial env fs) = (o, w) →
      (w_calls w = [] ∨ ∃ rest, w_calls w = CallAddPaths (normalise ps) :: rest)
      ∧ (is_returned o = true →
         ∃ added, NoDup added
           ∧ w_calls w
             = CallAddPaths (normalise ps) :: (CallAddFile <$> added) ++ [CallFlush])))
  ∧ (cpuProfile flags ≠ index_File env →
     fs !! index_File env = Some (Regular d) →
     populate [] (initial env fs) = (Returned ps, initial env fs)
     ∧ main_old faults flags [] (initial env fs)
       = main_old faults flags ps (initial env fs)
     ∧ (ps ≠ [] → ∀ o w, main_old faults flags [] (initial env fs) = (o, w) →
        (w_calls w = [] ∨ ∃ rest, w_calls w = CallAddPaths (normalise ps) :: rest)
        ∧ (is_returned o = true →
           ∃ added, NoDup added
             ∧ w_calls w
               = CallAddPaths (normalise ps) :: (CallAddFile <$> added) ++ [CallFlush])))
  ∧ ((∀ p, p ∈ ps → Abs p = Some p ∧ p ≠ "") →
     normalise ps ≡ₚ ps ∧ Sorted string_le (normalise ps)).
Proof.
  intros Hlist Hreset Hps. split; [|split].
  - intros Hprof Hfs.
    set (master := index_File (resolved_env env flags)) in *.
    split; [by apply (populate_none _ d)|].
    assert (Hsame : main faults flags [] (initial env fs)
                    = main faults flags ps (initial env fs)).
    { assert (Hh0 : holds master (Regular d) (initial env fs)).
      { unfold holds. simpl. by repeat constructor. }
      unfold main. rewrite Hlist, Hreset. simpl.
      apply bind_cong. intros [] w1 H1.
      destruct (apply_indexPath_spec master _ _ _ _ _ H1 Hh0)
        as (Hh1 & _ & _ & _ & _ & He1).
      specialize (He1 eq_refl). simpl in He1.
      apply bind_cong. intros [] w2 H2.
      destruct (quiet_start_profile master _ _ Hprof _ _ _ H2 Hh1) as [Hh2 He2].
      apply bind_cong. intros patterns w3 H3.
      apply inert_load_exclude in H3 as ->.
      rewrite (bind_returned _ _ _ ps w2).
      2:{ apply (populate_none _ d); [|done].
          rewrite He2, He1. by apply holds_now. }
      destruct ps as [|p ps]; [|done].
      by rewrite (bind_returned _ _ _ [] w2) by (apply (populate_none _ d); [|done];
        rewrite He2, He1; by apply holds_now). }
    split; [done|]. intros Hne o w Hrun. rewrite Hsame in Hrun. split.
    + destruct (shaped_starts _ _ (shapes_main _ _ _ _ _ _ Hrun eq_refl))
        as [-> | (roots & rest & Hr & ->)]; [by left|].
      right. exists rest. by rewrite (Hr Hne).
    + intros Hret. by apply (main_returned_calls _ _ _ _ _ _ _ Hlist Hne Hrun).
  - intros Hprof Hfs. set (master := index_File env) in *.
    split; [by apply (populate_none _ d)|].
    assert (Hsame : main_old faults flags [] (initial env fs)
                    = main_old faults flags ps (initial env fs)).
    { assert (Hh0 : holds master (Regular d) (initial env fs)).
      { unfold holds. simpl. by repeat constructor. }
      unfold main_old. rewrite Hlist, Hreset. simpl.
      apply bind_cong. intros [] w2 H2.
      destruct (quiet_start_profile master _ _ Hprof _ _ _ H2 Hh0) as [Hh2 He2].
      simpl in He2.
      rewrite (bind_returned _ _ _ ps w2).
      2:{ apply (populate_none _ d); [|done]. rewrite He2. by apply holds_now. }
      destruct ps as [|p ps]; [|done].
      by rewrite (bind_returned _ _ _ [] w2) by (apply (populate_none _ d); [|done];
        rewrite He2; by apply holds_now). }
    split; [done|]. intros Hne o w Hrun. rewrite Hsame in Hrun. split.
    + destruct (shaped_starts _ _ (shapes_main_old _ _ _ _ _ _ Hrun eq_refl))
        as [-> | (roots & rest & Hr & ->)]; [by left|].
      right. exists rest. by rewrite (Hr Hne).
    + intros Hret. by apply (main_old_returned_calls _ _ _ _ _ _ _ Hlist Hne Hrun).
  - intros Habs. split; [by apply normalise_fixed|].
    unfold normalise. rewrite drop_empty_id.
    + apply Sorted_merge_sort. intros a b. apply String.leb_total.
    + unfold sort_Strings. rewrite merge_sort_Permutation.
      assert (Hid : abs_args ps = ps).
      { unfold abs_args. clear -Habs. induction ps as [|p ps IH]; [done|]. simpl.
        destruct (Habs p ltac:(by left)) as [-> _]. simpl. f_equal. apply IH.
        intros q Hq. apply Habs. by right. }
      rewrite Hid. intros Hin. by destruct (Habs _ Hin).
Qed.
End CindexReindex.

Section CindexReindexWitness.
Import Cindex.

Lemma no_paths_reindexes_recorded_roots_witness :
  main (C := Toy.builder) Toy.no_faults Toy.build_flags [] Toy.start
  = main (C := Toy.builder) Toy.no_faults Toy.build_flags ["/lib"] Toy.start
  ∧ main_old (C := Toy.builder) Toy.no_faults Toy.build_flags [] Toy.start
    = main_old (C := Toy.builder) Toy.no_faults Toy.build_flags ["/lib"] Toy.start
  ∧ (∃ added,
       NoDup added
       ∧ w_calls (main (C := Toy.builder) Toy.no_faults Toy.build_flags [] Toy.start).2
         = CallAddPaths (normalise (C := Toy.builder) ["/lib"])
             :: (CallAddFile <$> added) ++ [CallFlush])
  ∧ (∃ added,
       NoDup added
       ∧ w_calls (main_old (C := Toy.builder) Toy.no_faults Toy.build_flags []
                           Toy.start).2
         = CallAddPaths (normalise (C := Toy.builder) ["/lib"])
             :: (CallAddFile <$> added) ++ [CallFlush])
  ∧ normalise (C := Toy.builder) ["/lib"] ≡ₚ ["/lib"].
Proof.
  destruct (no_paths_reindexes_recorded_roots (C := Toy.builder)
              Toy.no_faults Toy.build_flags Toy.env Toy.disk Toy.old_index ["/lib"]
              eq_refl eq_refl eq_refl)
    as (Hnew & Hold & Hn).
  destruct (Hnew ltac:(discriminate) eq_refl) as (_ & Hm & Hcalls).
  destruct (Hold ltac:(discriminate) eq_refl) as (_ & Hm' & Hcalls').
  split; [exact Hm|]. split; [exact Hm'|]. split; [|split].
  - apply (Hcalls ltac:(discriminate) _ _ (surjective_pairing _)).
    vm_compute. reflexivity.
  - apply (Hcalls' ltac:(discriminate) _ _ (surjective_pairing _)).
    vm_compute. reflexivity.
  - apply Hn. intros p Hp. apply list_elem_of_singleton in Hp as ->.
    split; [reflexivity | discriminate].
Defined.
End CindexReindexWitness.

Section CindexMoreProperties.
Import Cindex.
Context `{C : Collaborators}.

Lemma apply_indexPath_keeps flags w o w' :
  apply_indexPath flags w = (o, w') →
  w_fs w' = w_fs w ∧ w_hist w' = w_hist w ∧ w_calls w' = w_calls w
  ∧ w_log w' = w_log w ∧ w_out w' = w_out w.
Proof.
  rewrite apply_indexPath_run.
  destruct (String.eqb (indexPath flags) ""); [by intros [= <- <-]|].
  destruct (has_nul (indexPath flags)); by intros [= <- <-].
Qed.

(** X16: with [-list] either variant of the builder only reads: the file
    system is as it was, nothing is logged, the index writer is not called,
    whatever the other flags and the arguments; a run that returns has
    printed the roots recorded in the index, one per line, and a run that
    does not has printed nothing. *)
Theorem list_only_prints faults flags args env fs o w :
  listFlag flags = true →
  main faults flags args (initial env fs) = (o, w)
  ∨ main_old faults flags args (initial env fs) = (o, w) →
  w_fs w = fs ∧ w_hist w = [] ∧ w_calls w = [] ∧ w_log w = []
  ∧ (is_returned o = true →
     ∃ d ps, fs !! index_File (w_env w) = Some (Regular d) ∧ ix_Paths d = Some ps
       ∧ w_out w = ps)
  ∧ (is_returned o = false → w_out w = []).
Proof.
  intros Hlist Hrun.
  assert (Hread : ∀ w1 : World,
            w_fs w1 = fs → w_hist w1 = [] → w_calls w1 = [] → w_log w1 = [] →
            w_out w1 = [] →
            (ps ← Open_Paths (index_File (w_env w1));
             foldr (λ arg k, print arg ;; k) (ret tt) ps) w1 = (o, w) →
            w_fs w = fs ∧ w_hist w = [] ∧ w_calls w = [] ∧ w_log w = []
            ∧ (is_returned o = true →
               ∃ d ps, fs !! index_File (w_env w) = Some (Regular d)
                 ∧ ix_Paths d = Some ps ∧ w_out w = ps)
            ∧ (is_returned o = false → w_out w = [])).
  { intros w1 Hfs Hh Hc Hl Hout Hr.
    apply bind_inv in Hr as [(ps & w2 & Hopen & Hr) | (o' & Hopen & _ & Ho)].
    2:{ rewrite (inert_Open_Paths _ _ _ _ Hopen). by split_and!; [..|congruence|]. }
    rewrite Open_Paths_run, Hfs in Hopen.
    destruct (fs !! index_File (w_env w1)) as [[d| |]|] eqn:Hm; try done.
    destruct (ix_Paths d) as [ps'|] eqn:Hps; [|done]. injection Hopen as -> <-.
    rewrite foldr_print_run in Hr. injection Hr as <- <-. simpl.
    split_and!; [done..| |done]. intros _. exists d, ps. by rewrite Hout. }
  destruct Hrun as [Hrun | Hrun].
  - unfold main in Hrun. rewrite Hlist in Hrun.
    apply bind_inv in Hrun as [([] & w1 & H1 & Hrun) | (o' & H1 & _ & Ho)].
    2:{ apply apply_indexPath_keeps in H1 as (-> & -> & -> & -> & ->).
        split_and!; [done..| |done]. intros Hr. congruence. }
    apply apply_indexPath_keeps in H1 as (Hfs & Hh & Hc & Hl & Hout).
    rewrite (bind_returned _ _ _ _ _ (File_run _)) in Hrun.
    rewrite (bind_returned _ _ _ _ _ (os_Stat_run _ _)) in Hrun.
    destruct (w_fs w1 !! index_File (w_env w1)) as [[d| |]|] eqn:Hm;
      try (injection Hrun as <- <-; by split_and!).
    by apply (Hread w1).
  - unfold main_old in Hrun. rewrite Hlist in Hrun.
    rewrite (bind_returned _ _ _ _ _ (File_run _)) in Hrun.
    by apply (Hread (initial env fs)).
Qed.

(** X17: a value of [-exclude] of a single character makes the newer
    builder panic on [( *exclude)[:2]], before anything is created. *)
Theorem short_exclude_panics faults flags args env fs :
  listFlag flags = false → args ≠ [] ∨ resetFlag flags = false →
  String.length (exclude flags) = 1%nat →
  cpuProfile flags = "" → has_nul (indexPath flags) = false →
  main faults flags args (initial env fs)
  = (Panic "slice bounds out of range", initial (resolved_env env flags) fs).
Proof.
  intros Hlist Hbuild Hlen Hprof Hnul. unfold main. rewrite Hlist.
  assert (H1 : apply_indexPath flags (initial env fs)
               = (Returned tt, initial (resolved_env env flags) fs)).
  { rewrite apply_indexPath_run, Hnul. unfold resolved_env.
    by destruct (String.eqb (indexPath flags) ""). }
  rewrite (bind_returned _ _ _ _ _ H1).
  unfold start_profile. rewrite Hprof. simpl.
  rewrite (bind_returned _ _ _ tt (initial (resolved_env env flags) fs) eq_refl).
  assert (Hb : resetFlag flags && (length args =? 0)%nat = false).
  { destruct Hbuild as [Ha | ->]; [|done]. destruct args; [done|].
    by rewrite andb_false_r. }
  rewrite Hb. unfold load_exclude.
  destruct (exclude flags) as [|a [|b s]]; [done| |done]. reflexivity.
Qed.

Lemma leb_empty_r s : String.leb s "" = true → s = "".
Proof. by destruct s. Qed.

Lemma string_le_total : Total string_le.
Proof. intros a b. apply String.leb_total. Qed.

Lemma sorted_without_empty a l :
  Sorted string_le (a :: l) → a ≠ "" → "" ∉ a :: l.
Proof.
  revert a. induction l as [|b l IH]; intros a Hs Ha.
  - intros Heq%list_elem_of_singleton. congruence.
  - apply Sorted_inv in Hs as [Hs Hhd]. apply HdRel_inv in Hhd.
    intros [Heq | Hin]%elem_of_cons; [congruence|]. revert Hin. apply IH; [done|].
    intros ->. by apply leb_empty_r in Hhd.
Qed.

Lemma filter_all {A} (P : A → Prop) `{∀ x, Decision (P x)} (l : list A) :
  Forall P l → filter P l = l.
Proof.
  induction 1 as [|x l Hx Hl IH]; [done|].
  by rewrite filter_cons_True, IH.
Qed.

Lemma drop_empty_sorted l :
  Sorted string_le l →
  Sorted string_le (drop_empty l) ∧ ("" ∉ drop_empty l)
  ∧ drop_empty l = filter (λ p, p ≠ "") l.
Proof.
  induction l as [|a l IH]; intros Hs.
  - split_and!; [done | by intros ?%elem_of_nil | done].
  - simpl. destruct (String.eqb_spec a "") as [-> | Ha].
    + apply Sorted_inv in Hs as [Hs _]. rewrite filter_cons_False by (by intros ?).
      by apply IH.
    + pose proof (sorted_without_empty a l Hs Ha) as Hno.
      split_and!; [done..|]. symmetry. apply filter_all, Forall_forall.
      intros p Hp ->. done.
Qed.

(** X18: the roots handed to the index writer are sorted, none of them is
    the empty string that stands for an argument [filepath.Abs] refused, and
    they are otherwise the absolute paths of the arguments, each as often as
    it was given. *)
Theorem normalise_sorts_and_drops args :
  Sorted string_le (normalise args) ∧ ("" ∉ normalise args)
  ∧ normalise args ≡ₚ filter (λ p, p ≠ "") (abs_args args).
Proof.
  unfold normalise.
  destruct (drop_empty_sorted (sort_Strings (abs_args args))) as (Hs & Hno & Heq).
  { apply Sorted_merge_sort, string_le_total. }
  split_and!; [done..|]. rewrite Heq. unfold sort_Strings.
  by rewrite merge_sort_Permutation.
Qed.

(** X19: the consumer adds the files in the order the walker delivers
    them: what it adds is a subsequence of what is delivered before the done
    signal, and the first path delivered is the first file added. *)
Theorem consumer_keeps_delivery_order msgs ix :
  ∃ new, iw_added (consumer msgs ∅ ix) = iw_added ix ++ new
    ∧ new `sublist_of` delivered msgs
    ∧ ∀ p rest, delivered msgs = p :: rest → ∃ new', new = p :: new'.
Proof.
  destruct (consumer_order msgs ∅ ix) as (new & Hadd & Hsub & Hfirst).
  exists new. split_and!; [done..|]. intros p rest Hd. by apply (Hfirst p rest).
Qed.

(** X20: in a build that merges, the older variant never leaves the path
    of the master without an index: in every state of the file system the
    run goes through there is a regular file at that path, and when the
    rename fails it is the file that was there before, in every state. *)
Theorem old_variant_never_loses_master faults flags args env fs d0 o w :
  listFlag flags = false → resetFlag flags = false →
  cpuProfile flags ≠ index_File env →
  fs !! index_File env = Some (Regular d0) →
  main_old faults flags args (initial env fs) = (o, w) →
  Forall (λ s : filesystem, ∃ d, s !! index_File env = Some (Regular d)) (states w)
  ∧ (rename_fault faults = true →
     Forall (λ s : filesystem, s !! index_File env = Some (Regular d0)) (states w)).
Proof.
  intros Hlist Hreset Hprof Hfs Hrun.
  destruct (main_old_merging_run _ _ _ _ _ _ _ _ Hlist Hreset Hprof Hfs Hrun)
    as [[_ Hall] | (w1 & m & dnew & Hall & _ & _ & -> & _)].
  - split; [|done]. eapply Forall_impl; [exact Hall|]. intros s Hs. by exists d0.
  - split.
    + apply Forall_app. split.
      * eapply Forall_impl; [exact Hall|]. intros s Hs. by exists d0.
      * destruct (rename_fault faults); [constructor|].
        repeat constructor. exists m. by rewrite lookup_insert_eq.
    + intros ->. by rewrite app_nil_r.
Qed.

(** X21: the newer variant does not build where the index path names
    something that is no regular file: the run does not return, the index
    writer is not called, and what the path names is left as it is. *)
Theorem index_path_must_be_a_file faults flags args env fs n o w :
  listFlag flags = false →
  cpuProfile flags ≠ index_File (resolved_env env flags) →
  fs !! index_File (resolved_env env flags) = Some n → (∀ d, n ≠ Regular d) →
  main faults flags args (initial env fs) = (o, w) →
  is_returned o = false ∧ w_calls w = []
  ∧ Forall (λ s : filesystem, s !! index_File (resolved_env env flags) = Some n)
           (states w).
Proof.
  intros Hlist Hprof Hfs Hn Hrun.
  set (master := index_File (resolved_env env flags)) in *.
  assert (Hh0 : holds master n (initial env fs)).
  { unfold holds. simpl. by repeat constructor. }
  unfold main in Hrun. rewrite Hlist in Hrun.
  apply bind_inv in Hrun as [([] & w1 & H1 & Hrun) | (o' & H1 & _ & Ho)].
  2:{ destruct (apply_indexPath_spec master _ _ _ _ _ H1 Hh0) as (Hh & Hc & _).
      split_and!; [done | by rewrite Hc | by apply holds_states]. }
  destruct (apply_indexPath_spec master _ _ _ _ _ H1 Hh0) as (Hh1 & Hc1 & _ & _ & _ & He1).
  specialize (He1 eq_refl). simpl in He1, Hc1.
  apply bind_inv in Hrun as [([] & w2 & H2 & Hrun) | (o' & H2 & _ & Ho)].
  2:{ split_and!; [done | by rewrite (silent_start_profile _ _ _ _ H2)
                   | by apply holds_states, (quiet_start_profile master _ _ Hprof _ _ _ H2)]. }
  destruct (quiet_start_profile master _ _ Hprof _ _ _ H2 Hh1) as [Hh2 He2].
  pose proof (silent_start_profile _ _ _ _ H2) as Hc2. rewrite Hc1 in Hc2.
  assert (Hstat : w_fs w2 !! index_File (w_env w2) = Some n).
  { rewrite He2, He1. by apply holds_now in Hh2. }
  destruct (resetFlag flags && (length args =? 0)%nat).
  - rewrite (bind_returned _ _ _ _ _ (File_run _)) in Hrun.
    rewrite (bind_returned _ _ _ _ _ (os_Stat_run _ _)) in Hrun.
    rewrite Hstat in Hrun.
    destruct n as [d| |]; [by destruct (Hn d)| |];
      injection Hrun as <- <-; by split_and!; [|  | apply holds_states].
  - apply bind_inv in Hrun as [(patterns & w3 & H3 & Hrun) | (o' & H3 & _ & Ho)].
    2:{ rewrite (inert_load_exclude _ _ _ _ H3). by split_and!; [| | apply holds_states]. }
    apply inert_load_exclude in H3 as ->.
    apply bind_inv in Hrun as [(args' & w3 & H3 & Hrun) | (o' & H3 & _ & Ho)].
    2:{ rewrite (inert_populate _ _ _ _ H3). by split_and!; [| | apply holds_states]. }
    apply inert_populate in H3 as ->.
    apply bind_inv in Hrun as [([] & w3 & H3 & Hrun) | (o' & H3 & _ & Ho)].
    2:{ split_and!; [done | by rewrite (silent_log_abs_errors _ _ _ _ H3)
                     | by apply holds_states, (quiet_log_abs_errors master _ _ _ _ _ H3)]. }
    destruct (quiet_log_abs_errors master _ _ _ _ _ H3 Hh2) as [Hh3 He3].
    pose proof (silent_log_abs_errors _ _ _ _ H3) as Hc3. rewrite Hc2 in Hc3.
    rewrite (bind_returned _ _ _ _ _ (File_run _)) in Hrun.
    rewrite (bind_returned _ _ _ _ _ (os_Stat_run _ _)) in Hrun.
    rewrite He3, He2, He1 in Hrun. fold master in Hrun.
    rewrite (holds_now _ _ _ Hh3) in Hrun.
    destruct n as [d| |]; [by destruct (Hn d)| |];
      injection Hrun as <- <-; by split_and!; [|  | apply holds_states].
Qed.
End CindexMoreProperties.

Section CindexBuildProperties.
Import Cindex.
Context `{C : Collaborators}.

(** A run of the newer [main] on arguments, without [-list] and
    [-cpuprofile], that returns: the part up to the look at the index path
    has only chosen the environment, read the patterns and logged. *)
Lemma main_reaches_build faults flags args env fs o w :
  listFlag flags = false → cpuProfile flags = "" → args ≠ [] →
  main faults flags args (initial env fs) = (o, w) → is_returned o = true →
  ∃ patterns l,
    load_exclude flags (initial (resolved_env env flags) fs)
    = (Returned patterns, initial (resolved_env env flags) fs)
    ∧ let master := index_File (resolved_env env flags) in
      (reset ← match fs !! master with
               | None => ret true
               | Some (Regular _) => ret (resetFlag flags)
               | Some _ => fatal ("Invalid index path " +:+ master)
               end;
       let file := if reset : bool then master else master +:+ "~" in
       build file patterns flags (normalise args) ;;
       (if negb reset then
          log ("merge " +:+ master +:+ " " +:+ file) ;;
          Merge (merge_fault faults) (file +:+ "~") master file ;;
          os_Remove file ;;
          replace_master faults file master
        else ret tt) ;;
       log "done")
        {| w_env := resolved_env env flags; w_fs := fs; w_hist := []; w_out := [];
           w_log := l; w_calls := [] |}
      = (o, w).
Proof.
  intros Hlist Hprof Hargs Hrun Hret. unfold main in Hrun. rewrite Hlist in Hrun.
  apply bind_inv in Hrun as [([] & w1 & H1 & Hrun) | (o' & _ & _ & Ho)]; [|congruence].
  assert (Hw1 : w1 = initial (resolved_env env flags) fs).
  { rewrite apply_indexPath_run in H1. unfold resolved_env.
    destruct (String.eqb (indexPath flags) ""); [by injection H1|].
    destruct (has_nul (indexPath flags)); [done | by injection H1]. }
  subst w1. unfold start_profile in Hrun. rewrite Hprof in Hrun. simpl in Hrun.
  rewrite (bind_returned _ _ _ tt (initial (resolved_env env flags) fs) eq_refl) in Hrun.
  assert (Hb : resetFlag flags && (length args =? 0)%nat = false).
  { destruct args; [done|]. by rewrite andb_false_r. }
  rewrite Hb in Hrun.
  apply bind_inv in Hrun as [(patterns & w3 & H3 & Hrun) | (o' & _ & _ & Ho)]; [|congruence].
  pose proof (inert_load_exclude _ _ _ _ H3) as ->.
  apply bind_inv in Hrun as [(args' & w3 & H4 & Hrun) | (o' & _ & _ & Ho)]; [|congruence].
  pose proof (inert_populate _ _ _ _ H4) as ->.
  apply populate_given in H4 as ->; [|done].
  destruct (log_abs_errors_run args (initial (resolved_env env flags) fs)) as [l Hl].
  rewrite (bind_returned _ _ _ _ _ Hl) in Hrun.
  rewrite (bind_returned _ _ _ _ _ (File_run _)) in Hrun.
  rewrite (bind_returned _ _ _ _ _ (os_Stat_run _ _)) in Hrun.
  exists patterns, l. split; [done|]. exact Hrun.
Qed.

(** X22: where there is no index yet, or with [-reset], a build that
    returns has written the index in place: the file at the index path is
    created (or truncated), then flushed into, and nothing else in the file
    system changes; no scratch file is made and nothing is merged.  The
    index written is that of the sorted roots and of the files the consumer
    let through. *)
Theorem build_in_place faults flags args env fs o w :
  listFlag flags = false → cpuProfile flags = "" → args ≠ [] →
  fs !! index_File (resolved_env env flags) = None ∨ resetFlag flags = true →
  main faults flags args (initial env fs) = (o, w) → is_returned o = true →
  let master := index_File (resolved_env env flags) in
  let roots := normalise args in
  let fs1 := <[master := Regular created]> fs in
  ∃ patterns,
    let added := iw_added (consumer (messages fs1 patterns flags roots) ∅
                             {| iw_file := master; iw_paths := roots;
                                iw_added := [] |}) in
    load_exclude flags (initial (resolved_env env flags) fs)
    = (Returned patterns, initial (resolved_env env flags) fs)
    ∧ states w = [fs; fs1; <[master := Regular (flushed roots added fs1)]> fs1]
    ∧ w_calls w = CallAddPaths roots :: (CallAddFile <$> added) ++ [CallFlush].
Proof.
  intros Hlist Hprof Hargs Hplace Hrun Hret master roots fs1.
  destruct (main_reaches_build _ _ _ _ _ _ _ Hlist Hprof Hargs Hrun Hret)
    as (patterns & l & Hpat & Htail).
  cbv zeta in Htail. fold master in Htail, Hplace. fold roots in Htail.
  exists patterns. split; [done|].
  set (w3 := {| w_env := resolved_env env flags; w_fs := fs; w_hist := [];
                w_out := []; w_log := l; w_calls := [] |}) in *.
  assert (Hreset : (match fs !! master with
                    | None => ret true
                    | Some (Regular _) => ret (resetFlag flags)
                    | Some _ => fatal ("Invalid index path " +:+ master)
                    end : M bool) w3 = (Returned true, w3)
                   ∧ ∀ e, fs !! master ≠ Some (Dir e)).
  { destruct (fs !! master) as [[d|e|]|] eqn:Hm.
    - destruct Hplace as [? | ->]; done.
    - destruct Hplace as [? | _]; [done|]. exfalso.
      apply bind_inv in Htail as [(b & w' & Hf & _) | (o' & _ & _ & Ho)];
        [done | congruence].
    - destruct Hplace as [? | _]; [done|]. exfalso.
      apply bind_inv in Htail as [(b & w' & Hf & _) | (o' & _ & _ & Ho)];
        [done | congruence].
    - done. }
  destruct Hreset as (Hreset & Hfile).
  rewrite (bind_returned _ _ _ _ _ Hreset) in Htail. cbn [negb] in Htail.
  rewrite (bind_returned _ _ _ _ _ (build_run master patterns flags roots w3 Hfile))
    in Htail.
  injection Htail as <- <-. split; reflexivity.
Qed.

(** X23: where a regular file is at the index path, a build without
    [-reset] that returns has left there the merge of the index that was
    there with the index of the sorted roots and of the files the consumer
    let through; neither scratch file is left, and every other path is as it
    was. *)
Theorem merging_build_result faults flags args env fs d0 o w :
  listFlag flags = false → cpuProfile flags = "" → args ≠ [] →
  resetFlag flags = false →
  fs !! index_File (resolved_env env flags) = Some (Regular d0) →
  main faults flags args (initial env fs) = (o, w) → is_returned o = true →
  let master := index_File (resolved_env env flags) in
  let tmp := master +:+ "~" in
  let roots := normalise args in
  let fs1 := <[tmp := Regular created]> fs in
  ∃ patterns m,
    let added := iw_added (consumer (messages fs1 patterns flags roots) ∅
                             {| iw_file := tmp; iw_paths := roots; iw_added := [] |}) in
    load_exclude flags (initial (resolved_env env flags) fs)
    = (Returned patterns, initial (resolved_env env flags) fs)
    ∧ merged d0 (flushed roots added fs1) = Some m
    ∧ w_fs w !! master = Some (Regular m)
    ∧ w_fs w !! tmp = None ∧ w_fs w !! (tmp +:+ "~") = None
    ∧ (∀ p, p ≠ master → p ≠ tmp → p ≠ tmp +:+ "~" → w_fs w !! p = fs !! p)
    ∧ w_calls w = CallAddPaths roots :: (CallAddFile <$> added) ++ [CallFlush].
Proof.
  intros Hlist Hprof Hargs Hreset Hfs Hrun Hret master tmp roots fs1.
  destruct (main_reaches_build _ _ _ _ _ _ _ Hlist Hprof Hargs Hrun Hret)
    as (patterns & l & Hpat & Htail).
  cbv zeta in Htail. fold master in Htail, Hfs. fold roots in Htail.
  rewrite Hfs, Hreset in Htail.
  set (w3 := {| w_env := resolved_env env flags; w_fs := fs; w_hist := [];
                w_out := []; w_log := l; w_calls := [] |}) in *.
  rewrite (bind_returned _ _ _ false w3 eq_refl) in Htail. cbn [negb] in Htail.
  fold tmp in Htail.
  assert (Hne1 : tmp ≠ master) by apply tilde_ne.
  assert (Hne2 : tmp +:+ "~" ≠ master) by apply tilde_tilde_ne.
  assert (Hne3 : tmp +:+ "~" ≠ tmp) by apply tilde_ne.
  assert (Hfile : ∀ e, w_fs w3 !! tmp ≠ Some (Dir e)).
  { intros e He.
    apply bind_inv in Htail as [([] & w' & Hb & _) | (o' & _ & _ & Ho)]; [|congruence].
    unfold build in Hb.
    apply bind_inv in Hb as [(ix & w'' & Hc & _) | (o' & Hc & Hn & Hx)].
    - unfold Create in Hc.
      apply bind_inv in Hc as [(ok & w''' & Hc & Hk) | (o' & _ & _ & ?)]; [|done].
      rewrite os_Create_run, He in Hc. by injection Hc as <- <-.
    - discriminate Hx. }
  rewrite (bind_returned _ _ _ _ _ (build_run tmp patterns flags roots w3 Hfile))
    in Htail.
  cbn [w_fs w3] in Htail. fold fs1 in Htail.
  set (added := iw_added (consumer (messages fs1 patterns flags roots) ∅
                            {| iw_file := tmp; iw_paths := roots; iw_added := [] |}))
    in *.
  apply bind_inv in Htail as [([] & w5 & H5 & Htail) | (o' & _ & _ & Ho)]; [|congruence].
  injection Htail as <- <-.
  apply bind_inv in H5 as [([] & wa & Ha & H5) | (o' & _ & _ & ?)]; [|done].
  injection Ha as <-.
  apply bind_inv in H5 as [([] & wb & Hb & H5) | (o' & _ & _ & ?)]; [|done].
  rewrite Merge_run in Hb. cbn [w_fs] in Hb.
  rewrite lookup_insert_ne, lookup_insert_eq in Hb by done. unfold fs1 in Hb at 1.
  rewrite lookup_insert_ne, Hfs in Hb by done.
  destruct (merged d0 (flushed roots added fs1)) as [m|] eqn:Hm; [|done].
  destruct (merge_fault faults); [done|]. injection Hb as <-.
  apply bind_inv in H5 as [(b & wc & Hc & H5) | (o' & _ & _ & ?)]; [|done].
  rewrite os_Remove_run in Hc. cbn [w_fs with_fs] in Hc.
  rewrite lookup_insert_ne, lookup_insert_eq in Hc by done. injection Hc as _ <-.
  rewrite (replace_master_run _ _ _ _ d0 m) in H5; [| | |done].
  2:{ cbn [w_fs with_fs]. rewrite lookup_delete_ne, !lookup_insert_ne by done.
      unfold fs1. by rewrite lookup_insert_ne. }
  2:{ cbn [w_fs with_fs]. by rewrite lookup_delete_ne, lookup_insert_eq. }
  destruct (rename_fault faults); [done|]. injection H5 as <-.
  exists patterns, m. cbn [w_fs w_calls with_fs log].
  split_and!; [done | done | | | | | reflexivity].
  - by rewrite lookup_insert_eq.
  - rewrite lookup_insert_ne, !lookup_delete_ne, lookup_delete_eq by done. done.
  - by rewrite lookup_insert_ne, lookup_delete_eq by done.
  - intros p Hp1 Hp2 Hp3.
    rewrite lookup_insert_ne, !lookup_delete_ne, !lookup_insert_ne by done.
    unfold fs1. by rewrite lookup_insert_ne.
Qed.

(** X24: the patterns the newer builder walks with are never empty: the
    first is the built-in [.csearchindex] (trimmed like the others once a
    file of patterns is read), and without [-exclude] it is the only one;
    reading them changes nothing.  So the loop over the patterns runs for
    every named path, and the error [filepath.Walk] comes with never reaches
    the end of the callback there. *)
Theorem exclude_patterns_never_empty flags w patterns w'
    (Match : string → string → option bool) (EvalSymlinks : string → option string)
    follow logskip arg symlinkFrom path info err :
  load_exclude flags w = (Returned patterns, w') →
  w' = w
  ∧ (exclude flags = "" → patterns = [".csearchindex"])
  ∧ (∃ rest, patterns = (if String.eqb (exclude flags) "" then ".csearchindex"
                         else TrimSpace ".csearchindex") :: rest)
  ∧ ((Walker.Split path).2 ≠ "" →
     Walker.visit_new Match EvalSymlinks follow logskip patterns arg symlinkFrom path
                      info err
     = Walker.visit_new Match EvalSymlinks follow logskip patterns arg symlinkFrom path
                        info None).
Proof.
  intros Hrun. pose proof (inert_load_exclude _ _ _ _ Hrun) as ->.
  assert (Hpat : (exclude flags = "" → patterns = [".csearchindex"])
                 ∧ ∃ rest, patterns = (if String.eqb (exclude flags) "" then ".csearchindex"
                                       else TrimSpace ".csearchindex") :: rest).
  { unfold load_exclude in Hrun.
    destruct (String.eqb_spec (exclude flags) "") as [He | He].
    - injection Hrun as <-. split; [done | by exists []].
    - split; [done|]. destruct (String.length (exclude flags) <? 2)%nat; [done|].
      apply bind_inv in Hrun as [(excludePath & w1 & _ & Hrun) | (o' & _ & _ & ?)];
        [|done].
      apply bind_inv in Hrun as [(st & w2 & _ & Hrun) | (o' & _ & _ & ?)]; [|done].
      destruct st as [[data| |]|]; try done. injection Hrun as <- _.
      simpl. by eexists. }
  destruct Hpat as [Hdefault [rest ->]]. split_and!; [done | done | by eexists |].
  intros Helem. unfold Walker.visit_new.
  destruct (Walker.Split path) as [basedir elem]. simpl in Helem.
  apply String.eqb_neq in Helem. by rewrite Helem.
Qed.
End CindexBuildProperties.

Section CindexMoreWitnesses.
Import Cindex.

Lemma list_only_prints_witness :
  let r := main (C := Toy.builder) Toy.no_faults Sample.list_flags ["/ignored"]
                Toy.start in
  w_fs r.2 = Toy.disk ∧ w_hist r.2 = [] ∧ w_calls r.2 = [] ∧ w_log r.2 = []
  ∧ (is_returned r.1 = true →
     ∃ d ps, Toy.disk !! index_File (w_env r.2) = Some (Regular d)
       ∧ ix_Paths (Collaborators := Toy.builder) d = Some ps ∧ w_out r.2 = ps)
  ∧ (is_returned r.1 = false → w_out r.2 = []).
Proof.
  intros r.
  apply (list_only_prints (C := Toy.builder) Toy.no_faults Sample.list_flags
           ["/ignored"] Toy.env Toy.disk r.1 r.2 eq_refl).
  left. apply surjective_pairing.
Defined.

Lemma short_exclude_panics_witness :
  main (C := Toy.builder) Toy.no_faults Sample.short_exclude ["/src"]
       (initial (C := Toy.builder) Toy.env Toy.disk)
  = (Panic "slice bounds out of range",
     initial (C := Toy.builder) (resolved_env Toy.env Sample.short_exclude) Toy.disk).
Proof.
  apply (short_exclude_panics (C := Toy.builder) Toy.no_faults Sample.short_exclude
           ["/src"] Toy.env Toy.disk eq_refl).
  - left. discriminate.
  - reflexivity.
  - reflexivity.
  - reflexivity.
Defined.

Lemma old_variant_never_loses_master_witness :
  let r := main_old (C := Toy.builder) Toy.rename_fails Toy.build_flags ["/src"]
                    Toy.start in
  Forall (λ s : gmap string (node Toy.data),
            ∃ d, s !! index_File Toy.env = Some (Regular d)) (states r.2)
  ∧ (rename_fault Toy.rename_fails = true →
     Forall (λ s : gmap string (node Toy.data),
               s !! index_File Toy.env = Some (Regular Toy.old_index)) (states r.2)).
Proof.
  intros r.
  apply (old_variant_never_loses_master (C := Toy.builder) Toy.rename_fails
           Toy.build_flags ["/src"] Toy.env Toy.disk Toy.old_index r.1 r.2
           eq_refl eq_refl ltac:(discriminate) eq_refl (surjective_pairing r)).
Defined.

Lemma index_path_must_be_a_file_witness :
  let r := main (C := Toy.builder) Toy.no_faults Toy.build_flags ["/src"]
                (initial (C := Toy.builder) Toy.env Sample.blocked_disk) in
  is_returned r.1 = false ∧ w_calls r.2 = []
  ∧ Forall (λ s : gmap string (node Toy.data),
              s !! index_File (resolved_env Toy.env Toy.build_flags) = Some (Dir true))
           (states r.2).
Proof.
  intros r.
  apply (index_path_must_be_a_file (C := Toy.builder) Toy.no_faults Toy.build_flags
           ["/src"] Toy.env Sample.blocked_disk (Dir true) r.1 r.2
           eq_refl ltac:(discriminate) eq_refl ltac:(discriminate)
           (surjective_pairing r)).
Defined.

Lemma build_in_place_witness :
  let r := main (C := Toy.builder) Toy.no_faults Toy.build_flags ["/src"]
                (initial (C := Toy.builder) Toy.env Sample.empty_disk) in
  ∃ added,
    states r.2
    = [Sample.empty_disk;
       <["/idx" := Regular (Toy.Text "")]> Sample.empty_disk;
       <["/idx" := Regular (Toy.Idx ["/src"] added)]>
         (<["/idx" := Regular (Toy.Text "")]> Sample.empty_disk)]
    ∧ w_calls r.2 = CallAddPaths ["/src"] :: (CallAddFile <$> added) ++ [CallFlush].
Proof.
  intros r.
  destruct (build_in_place (C := Toy.builder) Toy.no_faults Toy.build_flags ["/src"]
              Toy.env Sample.empty_disk r.1 r.2 eq_refl eq_refl ltac:(discriminate)
              (or_introl eq_refl) (surjective_pairing r)
              ltac:(vm_compute; reflexivity))
    as (patterns & _ & Hs & Hc).
  eexists. split; [exact Hs | exact Hc].
Defined.

Lemma merging_build_result_witness :
  let r := main (C := Toy.builder) Toy.no_faults Toy.build_flags ["/src"] Toy.start in
  ∃ m, w_fs r.2 !! "/idx" = Some (Regular m)
    ∧ w_fs r.2 !! "/idx~" = None ∧ w_fs r.2 !! "/idx~~" = None
    ∧ w_fs r.2 !! "/home/u/notes" = Toy.disk !! "/home/u/notes".
Proof.
  intros r.
  destruct (merging_build_result (C := Toy.builder) Toy.no_faults Toy.build_flags
              ["/src"] Toy.env Toy.disk Toy.old_index r.1 r.2 eq_refl eq_refl
              ltac:(discriminate) eq_refl eq_refl (surjective_pairing r)
              ltac:(vm_compute; reflexivity))
    as (patterns & m & _ & _ & Hm & Ht & Htt & Hother & _).
  exists m. split_and!; [exact Hm | exact Ht | exact Htt |].
  apply Hother; discriminate.
Defined.

Lemma exclude_patterns_never_empty_witness :
  Toy.start = Toy.start
  ∧ (exclude Toy.build_flags = "" → [".csearchindex"] = [".csearchindex"])
  ∧ (∃ rest, [".csearchindex"]
             = (if String.eqb (exclude Toy.build_flags) "" then ".csearchindex"
                else TrimSpace (Collaborators := Toy.builder) ".csearchindex") :: rest)
  ∧ ((Walker.Split "/src/a.go").2 ≠ "" →
     Walker.visit_new Walker.literal_Match Walker.one_link true false
                      [".csearchindex"] "/src" "" "/src/a.go" Walker.regular
                      (Some "permission denied")
     = Walker.visit_new Walker.literal_Match Walker.one_link true false
                        [".csearchindex"] "/src" "" "/src/a.go" Walker.regular None).
Proof.
  apply (exclude_patterns_never_empty (C := Toy.builder) Toy.build_flags Toy.start
           [".csearchindex"] Toy.start Walker.literal_Match Walker.one_link true false
           "/src" "" "/src/a.go" Walker.regular (Some "permission denied")).
  reflexivity.
Defined.
End CindexMoreWitnesses.
